(** * The version solver of poetry (mixology) and its package collection

    A shallow embedding of

    - [src/poetry/packages/package_collection.py] (class [PackageCollection]),
    - [src/poetry/mixology/version_solver.py] (classes [DependencyCache]
      and [VersionSolver]),

    followed by the properties of these two files that the specification
    states.

    Python objects are records, [self] is threaded explicitly, a method that
    can raise returns an [outcome], and the collaborators whose code lives
    elsewhere (poetry.core's versions, constraints and packages, the
    provider, the partial solution, the term algebra) are interfaces, given
    as type classes. *)

From Stdlib Require Import ZArith Lia.
From stdpp Require Import base decidable option list strings gmap.

Local Open Scope Z_scope.

(** ** poetry.core: versions, constraints, packages

    The solver never looks inside a version or a constraint: it asks
    [constraint.allows(version)], [version.next_patch()], compares versions
    with [==] and passes the root's version where a constraint is expected. *)

Class Versions := {
  Version : Type;
  VersionConstraint : Type;
  Version_eq_dec :: EqDecision Version;
  VersionConstraint_eq_dec :: EqDecision VersionConstraint;
  (** [constraint.allows(version)] *)
  allows : VersionConstraint -> Version -> bool;
  (** [version.next_patch()] *)
  next_patch : Version -> Version;
  (** a version used as a constraint, as in [Dependency(name, version)] *)
  Version_as_constraint : Version -> VersionConstraint;
}.

Section Dependencies.
Context `{Versions}.

(** The attributes and the answers of the parameterless methods of a
    [Dependency] that the two files read.  [marker_is_any] is
    [dependency.marker.is_any()]; [is_vcs], [is_url], [is_file] and
    [is_directory] are the methods of the same name. *)
Record Dependency := {
  name : string;
  complete_name : string;
  source_type : option string;
  source_url : option string;
  source_reference : option string;
  constraint : VersionConstraint;
  marker_is_any : bool;
  is_vcs : bool;
  is_url : bool;
  is_file : bool;
  is_directory : bool;
  is_root : bool;
}.

#[global] Instance Dependency_eq_dec : EqDecision Dependency.
Proof. solve_decision. Defined.

(** Modelled from the spec: the constructor [Dependency(name, constraint)]
    of poetry.core, called with a name and a constraint only.  A dependency
    is identified by its complete name (the package name plus an optional
    extras tag) and its source; without extras and source the complete name
    is the name, the marker is the one that is always true, and the
    dependency is not the root until [is_root] is set. *)
Definition Dependency_new (n : string) (c : VersionConstraint) : Dependency :=
  {| name := n; complete_name := n;
     source_type := None; source_url := None; source_reference := None;
     constraint := c; marker_is_any := true;
     is_vcs := false; is_url := false; is_file := false;
     is_directory := false; is_root := false |}.

(** [dependency.is_root = value] *)
Definition set_is_root (value : bool) (d : Dependency) : Dependency :=
  {| name := name d; complete_name := complete_name d;
     source_type := source_type d; source_url := source_url d;
     source_reference := source_reference d;
     constraint := constraint d; marker_is_any := marker_is_any d;
     is_vcs := is_vcs d; is_url := is_url d; is_file := is_file d;
     is_directory := is_directory d; is_root := value |}.
End Dependencies.

(** A [Package] of poetry.core, through what the solver asks of it. *)
Class Packages `{Versions} := {
  Package : Type;
  Package_eq_dec :: EqDecision Package;
  (** [package.version] *)
  Package_version : Package -> Version;
  (** [package.is_prerelease()] *)
  Package_is_prerelease : Package -> bool;
  (** [package.is_root()] *)
  Package_is_root : Package -> bool;
  (** [dependency.is_same_package_as(package)] *)
  is_same_package_as : Dependency -> Package -> bool;
  (** [dependency == other], the [__eq__] of poetry.core's [Dependency],
      with which [__hash__] agrees: what a dictionary or a set takes for the
      same key.  It need not look at every attribute. *)
  Dependency_eqb : Dependency -> Dependency -> bool;
  (** A dependency equals itself. *)
  Dependency_eqb_refl : forall d : Dependency, Dependency_eqb d d = true;
}.

Section DependencyPackages.
Context `{Packages}.

(** [poetry.packages.DependencyPackage]: a dependency paired with a
    package.  Attributes it does not have itself are looked up on the
    package, so [dp.version] is [dp.package.version] and
    [dp.is_prerelease()] is [dp.package.is_prerelease()]. *)
Record DependencyPackage := {
  dependency : Dependency;
  package : Package;
}.

#[global] Instance DependencyPackage_eq_dec : EqDecision DependencyPackage.
Proof. solve_decision. Defined.

Definition version (dp : DependencyPackage) : Version :=
  Package_version (package dp).

Definition is_prerelease (dp : DependencyPackage) : bool :=
  Package_is_prerelease (package dp).
End DependencyPackages.

(** ** package_collection.py *)

Module PackageCollection.
Section PackageCollection.
Context `{Packages}.

(** An element handed to the collection: [Package | DependencyPackage],
    told apart by [isinstance]. *)
Inductive element :=
| plain (p : Package)
| wrapped (dp : DependencyPackage).

(** The collection is a Python list that remembers its dependency. *)
Record t := {
  _dependency : Dependency;
  items : list DependencyPackage;
}.

(** [PackageCollection.append] *)
Definition append (package0 : element) (self : t) : t :=
  let package1 :=
    match package0 with
    | wrapped dp => package dp
    | plain p => p
    end in
  let package2 :=
    {| dependency := _dependency self; package := package1 |} in
  {| _dependency := _dependency self; items := items self ++ [package2] |}.

(** [PackageCollection.__init__]: [packages = None] is the empty list. *)
Definition __init__ (dependency0 : Dependency)
    (packages : option (list element)) : t :=
  let packages :=
    match packages with
    | None => []
    | Some packages => packages
    end in
  fold_left (fun self package0 => append package0 self) packages
    {| _dependency := dependency0; items := [] |}.

(** The package an element stands for. *)
Definition underlying (e : element) : Package :=
  match e with
  | plain p => p
  | wrapped dp => package dp
  end.
End PackageCollection.
End PackageCollection.

(** ** mixology: terms, incompatibilities and their causes *)

(** [SetRelation] *)
Inductive SetRelation := SUBSET | DISJOINT | OVERLAPPING.

#[global] Instance SetRelation_eq_dec : EqDecision SetRelation.
Proof. solve_decision. Defined.

(** The exceptions of the Python runtime and of the provider that the solver
    can meet.  [ValueError] is the class the solver catches around
    [search_for]; [OtherError] stands for every exception class that is not
    named here (a transport failure of the provider, say), with the name of
    its class. *)
Inductive BaseException :=
| ValueError (msg : string)
| KeyError (key : string)
| AssertionError
| OtherError (class msg : string).

#[global] Instance BaseException_eq_dec : EqDecision BaseException.
Proof. solve_decision. Defined.

Section Terms.
Context `{Versions}.

(** [Term(dependency, is_positive)] *)
Record Term := {
  term_dependency : Dependency;
  is_positive : bool;
}.

#[global] Instance Term_eq_dec : EqDecision Term.
Proof. solve_decision. Defined.

(** [term.inverse]: the same dependency with the sign flipped. *)
Definition inverse (t : Term) : Term :=
  {| term_dependency := term_dependency t;
     is_positive := negb (is_positive t) |}.

(** An incompatibility holds its terms and its cause; a [ConflictCause]
    holds the two incompatibilities it was learned from, which makes the
    causes a tree (the cause chain). *)
Inductive Incompatibility :=
| MkIncompatibility (terms0 : list Term) (cause0 : IncompatibilityCause)
with IncompatibilityCause :=
| RootCause
| NoVersionsCause
| PackageNotFoundCause (error : BaseException)
| DependencyCause
| ConflictCause (conflict other : Incompatibility)
| PythonCause (python_version root_python_version : string)
| PlatformCause (platform : string).

(** [incompatibility.terms] *)
Definition terms (i : Incompatibility) : list Term :=
  match i with MkIncompatibility ts _ => ts end.

(** [incompatibility.cause] *)
Definition cause (i : Incompatibility) : IncompatibilityCause :=
  match i with MkIncompatibility _ c => c end.

(** Modelled from the spec: equality of incompatibilities, of
    poetry/mixology/incompatibility.py, is structural over the terms and
    the cause.  It is the equality by which [incompatibility in ...] and
    the set of contradicted incompatibilities recognise an
    incompatibility. *)
Fixpoint Incompatibility_eq_dec (x y : Incompatibility) {struct x} :
  {x = y} + {x <> y}
with IncompatibilityCause_eq_dec (x y : IncompatibilityCause) {struct x} :
  {x = y} + {x <> y}.
Proof.
  - decide equality. apply (list_eq_dec (A := Term)); apply _.
  - decide equality; first [apply String.string_dec
                           | apply BaseException_eq_dec].
Defined.

#[global] Instance Incompatibility_EqDecision : EqDecision Incompatibility :=
  Incompatibility_eq_dec.
#[global] Instance IncompatibilityCause_EqDecision :
  EqDecision IncompatibilityCause := IncompatibilityCause_eq_dec.

(** Modelled from the spec: [incompatibility.is_failure()], of
    poetry/mixology/incompatibility.py.  An incompatibility is a failure
    when it has no terms, or when its single term is the positive term on
    the root. *)
Definition is_failure (i : Incompatibility) : bool :=
  match terms i with
  | [] => true
  | [t] => is_root (term_dependency t) && is_positive t
  | _ => false
  end.
End Terms.

(** The term algebra of poetry/mixology/term.py, which delegates to the
    constraints of poetry.core, as far as the solver calls it. *)
Class TermAlgebra `{Versions} := {
  (** [term.difference(other)], [None] when nothing is left *)
  difference : Term -> Term -> option Term;
  (** what construction makes of two terms about one package: the terms
      that remain *)
  coalesce : Term -> Term -> list Term;
}.

Section Incompatibilities.
Context `{TermAlgebra}.

(** Two terms are about the same package when their dependencies share
    the complete name and the source. *)
Definition same_package (t u : Term) : bool :=
  bool_decide
    (complete_name (term_dependency t) = complete_name (term_dependency u)
     /\ source_type (term_dependency t) = source_type (term_dependency u)
     /\ source_url (term_dependency t) = source_url (term_dependency u)
     /\ source_reference (term_dependency t)
        = source_reference (term_dependency u)).

(** Files [t] with the terms seen so far: merged with the term about its
    package if there is one, added at the end otherwise. *)
Fixpoint group_term (t : Term) (seen : list Term) : list Term :=
  match seen with
  | [] => [t]
  | u :: seen' =>
      if same_package u t then coalesce u t ++ seen'
      else u :: group_term t seen'
  end.

(** Modelled from the spec: the constructor [Incompatibility(terms, cause)]
    of poetry/mixology/incompatibility.py.  Construction canonicalises the
    terms: they are grouped by package and the terms about one package are
    merged, which is the work of the term algebra ([coalesce]).  A list of
    one term has nothing to group and is kept as it is. *)
Definition Incompatibility_new (ts : list Term)
    (c : IncompatibilityCause) : Incompatibility :=
  MkIncompatibility (fold_left (fun seen t => group_term t seen) ts []) c.
End Incompatibilities.

(** ** Outcomes

    A call returns a value or raises; the state it leaves behind is kept in
    both cases, as Python keeps the mutations made before an exception.
    [OutOfFuel] is not an outcome of the program: it marks a run of the model
    whose loops were given too few iterations. *)

Section Outcomes.
Context `{Versions}.

(** What can be raised: an exception of the runtime or the provider, or
    the solver's own [SolveFailure(incompatibility)]. *)
Inductive Exception :=
| Base (e : BaseException)
| SolveFailure (incompatibility : Incompatibility).

Inductive outcome (A : Type) :=
| Return (a : A)
| Raise (e : Exception)
| OutOfFuel.
#[global] Arguments Return {A} a.
#[global] Arguments Raise {A} e.
#[global] Arguments OutOfFuel {A}.

(** A method of an object with state [S]. *)
Definition M (S A : Type) : Type := S -> outcome A * S.

Definition ret {S A} (a : A) : M S A := fun s => (Return a, s).

Definition raise {S A} (e : Exception) : M S A := fun s => (Raise e, s).

Definition bind {S A B} (m : M S A) (k : A -> M S B) : M S B :=
  fun s =>
    match m s with
    | (Return a, s') => k a s'
    | (Raise e, s') => (Raise e, s')
    | (OutOfFuel, s') => (OutOfFuel, s')
    end.

Definition get {S} : M S S := fun s => (Return s, s).

Definition modify {S} (f : S -> S) : M S unit := fun s => (Return tt, f s).

(** [try: m  except ValueError as e: handler(e)] *)
Definition try_except_ValueError {S A} (m : M S A)
    (handler : BaseException -> M S A) : M S A :=
  fun s =>
    match m s with
    | (Raise (Base (ValueError msg)), s') => handler (ValueError msg) s'
    | r => r
    end.
End Outcomes.

Declare Scope solver_scope.
Delimit Scope solver_scope with solver.
Notation "x <- m ;; k" := (bind m (fun x => k))
  (at level 100, m at next level, right associativity) : solver_scope.
Notation "m ;;; k" := (bind m (fun _ => k))
  (at level 100, right associativity) : solver_scope.

(** ** The provider

    [poetry.puzzle.provider.Provider] is an object with a state of its own
    (the repositories it reads, what it has fetched so far): each call takes
    the state and gives it back.  [debug], the logging sink, is left out: the
    solver never reads what it wrote. *)
Class Provider `{Packages} := {
  ProviderState : Type;
  (** [provider.search_for(dependency)] *)
  provider_search_for :
    Dependency -> M ProviderState (list DependencyPackage);
  (** [provider.complete_package(package)] *)
  provider_complete_package :
    DependencyPackage -> M ProviderState DependencyPackage;
  (** [provider.incompatibilities_for(package)] *)
  provider_incompatibilities_for :
    DependencyPackage -> M ProviderState (list Incompatibility);
}.

(** ** version_solver.py: [DependencyCache] *)

Module DependencyCache.
Section DependencyCache.
Context `{Provider}.

(** The key of [self.cache]:
    [(complete_name, source_type, source_url, source_reference)]. *)
Abbreviation key :=
  (string * option string * option string * option string)%type.

(** [self.provider], [self.cache], and the table that
    [functools.lru_cache] keeps for [search_for]: the calls it remembers
    with their results, the most recently used first.  (The decorator's
    table belongs to the function and holds the calls of every instance
    under the key [(self, dependency)]; [memo] is the part of it with this
    [self].) *)
Record t := {
  provider : ProviderState;
  cache : gmap key (list DependencyPackage);
  memo : list (Dependency * list DependencyPackage);
}.

(** [DependencyCache.__init__] *)
Definition __init__ (provider0 : ProviderState) : t :=
  {| provider := provider0; cache := ∅; memo := [] |}.

Definition set_provider (p : ProviderState) (self : t) : t :=
  {| provider := p; cache := cache self; memo := memo self |}.

Definition set_cache (c : gmap key (list DependencyPackage)) (self : t) : t :=
  {| provider := provider self; cache := c; memo := memo self |}.

Definition set_memo (m : list (Dependency * list DependencyPackage))
    (self : t) : t :=
  {| provider := provider self; cache := cache self; memo := m |}.

(** A call of a method of [self.provider]. *)
Definition call_provider {A} (m : M ProviderState A) : M t A :=
  fun self =>
    let (r, p) := m (provider self) in (r, set_provider p self).

Definition key_of (dependency0 : Dependency) : key :=
  (complete_name dependency0, source_type dependency0,
   source_url dependency0, source_reference dependency0).

(** The body of [search_for], below the decorator. *)
Definition search_for_body (dependency0 : Dependency) :
    M t (list DependencyPackage) :=
  (self <- get ;;
   let key := key_of dependency0 in
   packages <-
     match cache self !! key with
     | None => call_provider (provider_search_for dependency0)
     | Some packages =>
         ret (List.filter
                (fun p => allows (constraint dependency0) (version p))
                packages)
     end ;;
   modify (fun self => set_cache (<[key := packages]> (cache self)) self) ;;;
   ret packages)%solver.

(** [functools.lru_cache(maxsize=128)] *)
Definition maxsize : nat := 128.

(** Looks a call up in the table, as the dictionary of the decorator
    does: the entry found is the one whose key equals the argument by
    [==], the key kept on the left.  A hit gives the key as it was
    remembered, the result and the other entries. *)
Fixpoint memo_find (dependency0 : Dependency)
    (m : list (Dependency * list DependencyPackage)) :
    option (Dependency * list DependencyPackage
            * list (Dependency * list DependencyPackage)) :=
  match m with
  | [] => None
  | (k, v) :: m' =>
      if Dependency_eqb k dependency0 then Some (k, v, m')
      else
        match memo_find dependency0 m' with
        | Some (k', v', rest) => Some (k', v', (k, v) :: rest)
        | None => None
        end
  end.

(** [DependencyCache.search_for], as decorated: a remembered call is
    answered from the table and its entry, under the key it was remembered
    with, becomes the most recent one; any other call runs the body, and
    if the body returns, its result is remembered and the least recently
    used entry dropped when the table is full.  A call that raises is not
    remembered. *)
Definition search_for (dependency0 : Dependency) :
    M t (list DependencyPackage) :=
  fun self =>
    match memo_find dependency0 (memo self) with
    | Some (k, result, rest) =>
        (Return result, set_memo ((k, result) :: rest) self)
    | None =>
        match search_for_body dependency0 self with
        | (Return result, self') =>
            (Return result,
             set_memo (take maxsize ((dependency0, result) :: memo self'))
               self')
        | r => r
        end
    end.

(** [DependencyCache.clear] *)
Definition clear : M t unit :=
  modify (fun self => set_cache ∅ self).
End DependencyCache.
End DependencyCache.

(** ** The partial solution

    poetry/mixology/partial_solution.py and assignment.py, as the solver
    uses them. *)

Section Assignments.
Context `{Versions}.

(** An [Assignment] is a [Term] with the decision level and the index at
    which it was made and, for a derivation, the incompatibility that
    caused it; the cause of a decision is [None]. *)
Record Assignment := {
  assignment_term : Term;
  decision_level : Z;
  index : Z;
  assignment_cause : option Incompatibility;
}.
End Assignments.

Class PartialSolutions `{Packages} := {
  PartialSolution : Type;
  (** [PartialSolution()] *)
  PartialSolution_new : PartialSolution;
  (** [solution.relation(term)] *)
  relation : PartialSolution -> Term -> SetRelation;
  (** [solution.satisfier(term)] *)
  satisfier : PartialSolution -> Term -> Assignment;
  (** [solution.derive(dependency, is_positive, cause)] *)
  derive :
    Dependency -> bool -> Incompatibility -> PartialSolution -> PartialSolution;
  (** [solution.decide(package)] *)
  decide_package : Package -> PartialSolution -> PartialSolution;
  (** [solution.backtrack(decision_level)] *)
  backtrack : Z -> PartialSolution -> PartialSolution;
  (** [solution.unsatisfied] *)
  unsatisfied : PartialSolution -> list Dependency;
  (** [solution.decisions] *)
  decisions : PartialSolution -> list Package;
  (** [solution.attempted_solutions] *)
  attempted_solutions : PartialSolution -> Z;
}.

(** Modelled from the spec: [solution.satisfies(term)], of
    poetry/mixology/partial_solution.py, holds when the relation of the
    solution to the term is [SUBSET]. *)
Definition satisfies `{PartialSolutions} (solution : PartialSolution)
    (term : Term) : bool :=
  bool_decide (relation solution term = SUBSET).

(** What the interpreter decides: the text of [str(_conflict)], which holds
    the address of the sentinel object, and the position, among the elements
    of a set of strings, of the one that [set.pop()] takes. *)
Class Interpreter := {
  str_conflict : string;
  set_pop_position : list string -> nat;
}.

(** ** version_solver.py: [VersionSolver] *)

Module VersionSolver.
Section VersionSolver.
Context `{Provider, !TermAlgebra, !PartialSolutions, !Interpreter}.

(** The root [ProjectPackage], of which the solver reads the name and the
    version. *)
Record ProjectPackage := {
  project_name : string;
  project_version : Version;
}.

(** [SolverResult(root, packages, attempted_solutions)] *)
Record SolverResult := {
  result_root : ProjectPackage;
  result_packages : list Package;
  result_attempted_solutions : Z;
}.

(** The attributes of the solver.  [self._provider] is the object that
    [self._dependency_cache.provider] is too: the model keeps it once, in
    the cache.  [self._contradicted_incompatibilities] is a set, kept as a
    list without repetition. *)
Record t := {
  _root : ProjectPackage;
  _dependency_cache : DependencyCache.t;
  _locked : gmap string (list DependencyPackage);
  _use_latest : list string;
  _incompatibilities : gmap string (list Incompatibility);
  _contradicted_incompatibilities : list Incompatibility;
  _solution : PartialSolution;
}.

Definition _provider (self : t) : ProviderState :=
  DependencyCache.provider (_dependency_cache self).

(** [VersionSolver.__init__] *)
Definition __init__ (root : ProjectPackage) (provider0 : ProviderState)
    (locked : option (gmap string (list DependencyPackage)))
    (use_latest : option (list string)) : t :=
  {| _root := root;
     _dependency_cache := DependencyCache.__init__ provider0;
     _locked := default ∅ locked;
     _use_latest := default [] use_latest;
     _incompatibilities := ∅;
     _contradicted_incompatibilities := [];
     _solution := PartialSolution_new |}.

Definition set_dependency_cache (c : DependencyCache.t) (self : t) : t :=
  {| _root := _root self; _dependency_cache := c;
     _locked := _locked self; _use_latest := _use_latest self;
     _incompatibilities := _incompatibilities self;
     _contradicted_incompatibilities := _contradicted_incompatibilities self;
     _solution := _solution self |}.

Definition set_incompatibilities (i : gmap string (list Incompatibility))
    (self : t) : t :=
  {| _root := _root self; _dependency_cache := _dependency_cache self;
     _locked := _locked self; _use_latest := _use_latest self;
     _incompatibilities := i;
     _contradicted_incompatibilities := _contradicted_incompatibilities self;
     _solution := _solution self |}.

Definition set_contradicted_incompatibilities (c : list Incompatibility)
    (self : t) : t :=
  {| _root := _root self; _dependency_cache := _dependency_cache self;
     _locked := _locked self; _use_latest := _use_latest self;
     _incompatibilities := _incompatibilities self;
     _contradicted_incompatibilities := c;
     _solution := _solution self |}.

Definition set_solution (s : PartialSolution) (self : t) : t :=
  {| _root := _root self; _dependency_cache := _dependency_cache self;
     _locked := _locked self; _use_latest := _use_latest self;
     _incompatibilities := _incompatibilities self;
     _contradicted_incompatibilities := _contradicted_incompatibilities self;
     _solution := s |}.

(** A call of a method of [self._dependency_cache]. *)
Definition call_cache {A} (m : M DependencyCache.t A) : M t A :=
  fun self =>
    let (r, c) := m (_dependency_cache self) in
    (r, set_dependency_cache c self).

(** A call of a method of [self._provider]. *)
Definition call_provider {A} (m : M ProviderState A) : M t A :=
  call_cache (DependencyCache.call_provider m).

(** [set.add] on a set kept as a list. *)
Definition set_add {A} `{EqDecision A} (x : A) (s : list A) : list A :=
  if bool_decide (x ∈ s) then s else s ++ [x].

(** One round of the loop of [_add_incompatibility], on the index.  The
    test [incompatibility in self._incompatibilities[...]] is by the
    equality of incompatibilities, which is modelled from the spec. *)
Definition add_for_term (incompatibility : Incompatibility)
    (index0 : gmap string (list Incompatibility)) (term : Term) :
    gmap string (list Incompatibility) :=
  let k := complete_name (term_dependency term) in
  let index1 :=
    match index0 !! k with
    | None => <[k := []]> index0
    | Some _ => index0
    end in
  let present := default [] (index1 !! k) in
  if bool_decide (incompatibility ∈ present) then index1
  else <[k := present ++ [incompatibility]]> index1.

(** [VersionSolver._add_incompatibility]: the loop over the terms.  The
    log line before the loop, [self._log(f"fact: {incompatibility}")],
    goes to the logging sink of the provider and is not part of the model:
    the definition describes the calls in which that line returns. *)
Definition _add_incompatibility (incompatibility : Incompatibility) :
    M t unit :=
  modify (fun self =>
    set_incompatibilities
      (fold_left (add_for_term incompatibility) (terms incompatibility)
         (_incompatibilities self))
      self).

(** The test of the loop of [_get_locked] on one locked package. *)
Definition locked_matches (dependency0 : Dependency) (allow_similar : bool)
    (package0 : DependencyPackage) : bool :=
  (allow_similar || is_same_package_as dependency0 (package package0))
  && (allows (constraint dependency0) (version package0)
      || (is_prerelease package0
          && allows (constraint dependency0)
               (next_patch (version package0)))).

(** [VersionSolver._get_locked]; it reads [self] and changes nothing. *)
Definition _get_locked (dependency0 : Dependency) (allow_similar : bool)
    (self : t) : option DependencyPackage :=
  if bool_decide (name dependency0 ∈ _use_latest self) then None
  else
    let locked := default [] (_locked self !! name dependency0) in
    match List.find (locked_matches dependency0 allow_similar) locked with
    | Some package0 =>
        Some {| dependency := dependency0; package := package package0 |}
    | None => None
    end.

(** What [_propagate_incompatibility] returns: the sentinel [_conflict],
    a complete name, or [None]. *)
Inductive propagation :=
| conflict
| derived (complete_name0 : string)
| nothing.

(** [str(result)] *)
Definition str (r : propagation) : string :=
  match r with
  | conflict => str_conflict
  | derived n => n
  | nothing => "None"
  end.

(** How the loop over the terms in [_propagate_incompatibility] ends: at a
    [DISJOINT] term, at a second [OVERLAPPING] term, or after the last term
    with the value of [unsatisfied]. *)
Inductive scan :=
| at_disjoint
| at_second_overlapping
| scanned (unsatisfied0 : option Term).

Fixpoint scan_terms (solution : PartialSolution) (ts : list Term)
    (unsatisfied0 : option Term) : scan :=
  match ts with
  | [] => scanned unsatisfied0
  | term :: ts' =>
      match relation solution term with
      | DISJOINT => at_disjoint
      | OVERLAPPING =>
          match unsatisfied0 with
          | Some _ => at_second_overlapping
          | None => scan_terms solution ts' (Some term)
          end
      | SUBSET => scan_terms solution ts' unsatisfied0
      end
  end.

(** [self._contradicted_incompatibilities.add(incompatibility)] *)
Definition mark_contradicted (incompatibility : Incompatibility) : M t unit :=
  modify (fun self =>
    set_contradicted_incompatibilities
      (set_add incompatibility (_contradicted_incompatibilities self)) self).

(** [VersionSolver._propagate_incompatibility] *)
Definition _propagate_incompatibility (incompatibility : Incompatibility) :
    M t propagation :=
  (self <- get ;;
   match scan_terms (_solution self) (terms incompatibility) None with
   | at_disjoint =>
       mark_contradicted incompatibility ;;;
       ret nothing
   | at_second_overlapping => ret nothing
   | scanned None => ret conflict
   | scanned (Some unsatisfied0) =>
       mark_contradicted incompatibility ;;;
       modify (fun self =>
         set_solution
           (derive (term_dependency unsatisfied0)
              (negb (is_positive unsatisfied0)) incompatibility
              (_solution self))
           self) ;;;
       ret (derived (complete_name (term_dependency unsatisfied0)))
   end)%solver.

(** The variables of one round of the [while] loop of
    [_resolve_conflict]. *)
Record satisfiers := {
  most_recent_term : option Term;
  most_recent_satisfier : option Assignment;
  difference0 : option Term;
  previous_satisfier_level : Z;
}.

(** Their values before the loop over the terms. *)
Definition satisfiers_init : satisfiers :=
  {| most_recent_term := None; most_recent_satisfier := None;
     difference0 := None; previous_satisfier_level := 1 |}.

(** One round of the loop over the terms in [_resolve_conflict]. *)
Definition satisfiers_step (solution : PartialSolution) (v : satisfiers)
    (term : Term) : satisfiers :=
  let satisfier0 := satisfier solution term in
  let v1 :=
    match most_recent_satisfier v with
    | None =>
        {| most_recent_term := Some term;
           most_recent_satisfier := Some satisfier0;
           difference0 := difference0 v;
           previous_satisfier_level := previous_satisfier_level v |}
    | Some recent =>
        if index recent <? index satisfier0 then
          {| most_recent_term := Some term;
             most_recent_satisfier := Some satisfier0;
             difference0 := None;
             previous_satisfier_level :=
               Z.max (previous_satisfier_level v) (decision_level recent) |}
        else
          {| most_recent_term := most_recent_term v;
             most_recent_satisfier := most_recent_satisfier v;
             difference0 := difference0 v;
             previous_satisfier_level :=
               Z.max (previous_satisfier_level v)
                 (decision_level satisfier0) |}
    end in
  match most_recent_term v1, most_recent_satisfier v1 with
  | Some recent_term, Some recent =>
      if bool_decide (recent_term = term) then
        let d := difference (assignment_term recent) recent_term in
        {| most_recent_term := most_recent_term v1;
           most_recent_satisfier := most_recent_satisfier v1;
           difference0 := d;
           previous_satisfier_level :=
             match d with
             | Some d' =>
                 Z.max (previous_satisfier_level v1)
                   (decision_level (satisfier solution (inverse d')))
             | None => previous_satisfier_level v1
             end |}
      else v1
  | _, _ => v1
  end.

(** The loop over the terms in [_resolve_conflict]. *)
Definition find_satisfiers (solution : PartialSolution)
    (incompatibility : Incompatibility) : satisfiers :=
  fold_left (satisfiers_step solution) (terms incompatibility)
    satisfiers_init.

(** The test that ends the search: the incompatibility is the root cause. *)
Definition is_root_cause (v : satisfiers) (recent : Assignment) : bool :=
  (previous_satisfier_level v <? decision_level recent)
  || bool_decide (assignment_cause recent = None).

(** The branch of [_resolve_conflict] that backjumps and returns. *)
Definition backjump (v : satisfiers) (new_incompatibility : bool)
    (incompatibility : Incompatibility) : M t Incompatibility :=
  (modify (fun self =>
     set_solution
       (backtrack (previous_satisfier_level v) (_solution self)) self) ;;;
   modify (set_contradicted_incompatibilities []) ;;;
   call_cache DependencyCache.clear ;;;
   (if new_incompatibility then _add_incompatibility incompatibility
    else ret tt) ;;;
   ret incompatibility)%solver.

(** The incompatibility that [_resolve_conflict] goes on with: the terms
    of [incompatibility] without the most recent term, the terms of the
    satisfier's cause that are about other dependencies, and the inverse of
    the difference if there is one. *)
Definition resolvent (incompatibility : Incompatibility) (v : satisfiers)
    (recent : Assignment) (recent_cause : Incompatibility) :
    Incompatibility :=
  let new_terms :=
    List.filter
      (fun term => negb (bool_decide (Some term = most_recent_term v)))
      (terms incompatibility) in
  let new_terms :=
    new_terms ++
    List.filter
      (fun term =>
         negb (bool_decide
                 (term_dependency term
                  = term_dependency (assignment_term recent))))
      (terms recent_cause) in
  let new_terms :=
    match difference0 v with
    | Some d => new_terms ++ [inverse d]
    | None => new_terms
    end in
  Incompatibility_new new_terms
    (ConflictCause incompatibility recent_cause).

(** The [while] loop of [_resolve_conflict] with the [raise] that follows
    it; [fuel] bounds the number of rounds. *)
Fixpoint resolve_conflict_loop (fuel : nat)
    (incompatibility : Incompatibility) (new_incompatibility : bool)
    {struct fuel} : M t Incompatibility :=
  if is_failure incompatibility then
    raise (SolveFailure incompatibility)
  else
    match fuel with
    | O => fun self => (OutOfFuel, self)
    | S fuel' =>
        (self <- get ;;
         let v := find_satisfiers (_solution self) incompatibility in
         match most_recent_satisfier v with
         | None => raise (Base AssertionError)
         | Some recent =>
             if is_root_cause v recent then
               backjump v new_incompatibility incompatibility
             else
               match assignment_cause recent with
               | None =>
                   (* not reached: a satisfier without a cause is a root
                      cause, by the test above *)
                   raise (Base AssertionError)
               | Some recent_cause =>
                   resolve_conflict_loop fuel'
                     (resolvent incompatibility v recent recent_cause) true
               end
         end)%solver
    end.

(** [VersionSolver._resolve_conflict] *)
Definition _resolve_conflict (fuel : nat)
    (incompatibility : Incompatibility) : M t Incompatibility :=
  resolve_conflict_loop fuel incompatibility false.

(** [changed.pop()]: the element at the position the interpreter picks,
    and the set without it. *)
Definition set_pop (changed : list string) : string * list string :=
  let i := (set_pop_position changed mod length changed)%nat in
  (default "" (changed !! i), take i changed ++ drop (S i) changed).

(** The [for] loop of [_propagate] from some incompatibility on; it
    returns the set [changed] as the loop leaves it. *)
Fixpoint propagate_for (fuel : nat) (incompatibilities : list Incompatibility)
    (changed : list string) {struct incompatibilities} :
    M t (list string) :=
  match incompatibilities with
  | [] => ret changed
  | incompatibility :: rest =>
      (self <- get ;;
       if bool_decide
            (incompatibility ∈ _contradicted_incompatibilities self)
       then propagate_for fuel rest changed
       else
         result <- _propagate_incompatibility incompatibility ;;
         match result with
         | conflict =>
             root_cause <- _resolve_conflict fuel incompatibility ;;
             result' <- _propagate_incompatibility root_cause ;;
             ret (set_add (str result') [])
         | derived n => propagate_for fuel rest (set_add n changed)
         | nothing => propagate_for fuel rest changed
         end)%solver
  end.

(** [self._incompatibilities[package]] *)
Definition incompatibilities_of (package0 : string) :
    M t (list Incompatibility) :=
  (self <- get ;;
   match _incompatibilities self !! package0 with
   | Some l => ret l
   | None => raise (Base (KeyError package0))
   end)%solver.

(** The [while] loop of [_propagate]. *)
Fixpoint propagate_while (fuel : nat) (changed : list string) {struct fuel} :
    M t unit :=
  match changed with
  | [] => ret tt
  | _ :: _ =>
      match fuel with
      | O => fun self => (OutOfFuel, self)
      | S fuel' =>
          (let (package0, changed) := set_pop changed in
           incompatibilities <- incompatibilities_of package0 ;;
           changed <- propagate_for fuel (rev incompatibilities) changed ;;
           propagate_while fuel' changed)%solver
      end
  end.

(** [VersionSolver._propagate] *)
Definition _propagate (fuel : nat) (package0 : string) : M t unit :=
  propagate_while fuel (set_add package0 []).

(** The key of [_get_min]: [(not marker.is_any(), count)]. *)
Abbreviation min_key := (bool * Z)%type.

(** [_get_min], the function local to [_choose_package_version]. *)
Definition _get_min (dependency0 : Dependency) : M t min_key :=
  (self <- get ;;
   if bool_decide (name dependency0 ∈ _use_latest self) then
     ret (negb (marker_is_any dependency0), 1)
   else
     match _get_locked dependency0 false self with
     | Some _ => ret (negb (marker_is_any dependency0), 1)
     | None =>
         if is_vcs dependency0 || is_url dependency0
            || is_file dependency0 || is_directory dependency0
         then ret (negb (marker_is_any dependency0), 1)
         else
           try_except_ValueError
             (packages <-
                call_cache (DependencyCache.search_for dependency0) ;;
              ret (negb (marker_is_any dependency0),
                   Z.of_nat (length packages)))
             (fun _ => ret (negb (marker_is_any dependency0), 0))
     end)%solver.

(** [k1 < k2] on the keys, as Python orders tuples: by the first
    component, [False] before [True], then by the second. *)
Definition key_lt (k1 k2 : min_key) : bool :=
  match k1, k2 with
  | (false, _), (true, _) => true
  | (true, _), (false, _) => false
  | (_, n1), (_, n2) => n1 <? n2
  end.

(** [min(..., key=_get_min)] after its first argument: the key of each
    further argument is computed in turn, and an argument replaces the
    best one so far when its key is smaller. *)
Fixpoint min_rest (best : Dependency) (best_key : min_key)
    (rest : list Dependency) : M t Dependency :=
  match rest with
  | [] => ret best
  | dependency0 :: rest' =>
      (k <- _get_min dependency0 ;;
       if key_lt k best_key then min_rest dependency0 k rest'
       else min_rest best best_key rest')%solver
  end.

(** The choice of the dependency in [_choose_package_version], for a list
    [first :: rest] of unsatisfied dependencies. *)
Definition choose_dependency (first : Dependency) (rest : list Dependency) :
    M t Dependency :=
  match rest with
  | [] => ret first
  | _ :: _ =>
      (k <- _get_min first ;;
       min_rest first k rest)%solver
  end.

(** [next((p for p in packages if p.version == locked.version), None)] *)
Definition with_version_of (locked : DependencyPackage)
    (packages : list DependencyPackage) : option DependencyPackage :=
  List.find (fun p => bool_decide (version p = version locked)) packages.

(** The choice among the candidates when no locked package matches: the
    candidate with the version of the similar locked package, or else the
    first candidate, or else [None]. *)
Definition choose_candidate (dependency0 : Dependency)
    (packages : list DependencyPackage) (self : t) :
    option DependencyPackage :=
  let locked :=
    if bool_decide (name dependency0 ∉ _use_latest self)
    then _get_locked dependency0 true self
    else None in
  let package0 :=
    match locked with
    | Some locked => with_version_of locked packages
    | None => None
    end in
  match package0 with
  | Some package0 => Some package0
  | None => head packages
  end.

(** The choice of the package in [_choose_package_version].  [None] is the
    early return: an incompatibility has been added and the method returns
    the complete name of the dependency. *)
Definition choose_package (dependency0 : Dependency) :
    M t (option DependencyPackage) :=
  (self <- get ;;
   match _get_locked dependency0 false self with
   | Some locked => ret (Some locked)
   | None =>
       searched <-
         try_except_ValueError
           (packages <-
              call_cache (DependencyCache.search_for dependency0) ;;
            ret (inr packages))
           (fun e => ret (inl e)) ;;
       match searched with
       | inl e =>
           _add_incompatibility
             (Incompatibility_new
                [{| term_dependency := dependency0; is_positive := true |}]
                (PackageNotFoundCause e)) ;;;
           ret None
       | inr packages =>
           self <- get ;;
           match choose_candidate dependency0 packages self with
           | Some package0 => ret (Some package0)
           | None =>
               _add_incompatibility
                 (Incompatibility_new
                    [{| term_dependency := dependency0;
                        is_positive := true |}]
                    NoVersionsCause) ;;;
               ret None
           end
       end
   end)%solver.

(** The test on one incompatibility of the chosen package: every term is
    about the dependency or satisfied by the solution. *)
Definition already_satisfied (dependency0 : Dependency)
    (solution : PartialSolution) (incompatibility : Incompatibility) :
    bool :=
  forallb
    (fun term =>
       bool_decide (complete_name (term_dependency term)
                    = complete_name dependency0)
       || satisfies solution term)
    (terms incompatibility).

(** The loop over [incompatibilities_for(package)]; it returns
    [conflict]. *)
Fixpoint add_incompatibilities (dependency0 : Dependency)
    (incompatibilities : list Incompatibility) (conflict0 : bool) :
    M t bool :=
  match incompatibilities with
  | [] => ret conflict0
  | incompatibility :: rest =>
      (_add_incompatibility incompatibility ;;;
       self <- get ;;
       add_incompatibilities dependency0 rest
         (conflict0
          || already_satisfied dependency0 (_solution self)
               incompatibility))%solver
  end.

(** The end of [_choose_package_version], from [complete_package] on: the
    incompatibilities of the package are added, the package is decided
    unless one of them is already satisfied, and the complete name of the
    dependency is returned. *)
Definition decide_version (dependency0 : Dependency)
    (package0 : DependencyPackage) : M t (option string) :=
  (package0 <- call_provider (provider_complete_package package0) ;;
   incompatibilities <-
     call_provider (provider_incompatibilities_for package0) ;;
   conflict0 <-
     add_incompatibilities dependency0 incompatibilities false ;;
   (if conflict0 then ret tt
    else
      modify (fun self =>
        set_solution
          (decide_package (package package0) (_solution self)) self)) ;;;
   ret (Some (complete_name dependency0)))%solver.

(** [VersionSolver._choose_package_version] *)
Definition _choose_package_version : M t (option string) :=
  (self <- get ;;
   match unsatisfied (_solution self) with
   | [] => ret None
   | first :: rest =>
       dependency0 <- choose_dependency first rest ;;
       chosen <- choose_package dependency0 ;;
       match chosen with
       | None => ret (Some (complete_name dependency0))
       | Some package0 => decide_version dependency0 package0
       end
   end)%solver.

(** [VersionSolver._result] *)
Definition _result (self : t) : SolverResult :=
  {| result_root := _root self;
     result_packages :=
       List.filter (fun p => negb (Package_is_root p))
         (decisions (_solution self));
     result_attempted_solutions := attempted_solutions (_solution self) |}.

(** The [while] loop of [solve] and the [return] after it. *)
Fixpoint solve_loop (fuel : nat) (next : option string) {struct fuel} :
    M t SolverResult :=
  match next with
  | None => (self <- get ;; ret (_result self))%solver
  | Some next =>
      match fuel with
      | O => fun self => (OutOfFuel, self)
      | S fuel' =>
          (_propagate fuel next ;;;
           next <- _choose_package_version ;;
           solve_loop fuel' next)%solver
      end
  end.

(** The dependency on the root that [solve] builds. *)
Definition root_dependency (root : ProjectPackage) : Dependency :=
  set_is_root true
    (Dependency_new (project_name root)
       (Version_as_constraint (project_version root))).

(** The incompatibility that [solve] starts from. *)
Definition root_incompatibility (root : ProjectPackage) : Incompatibility :=
  Incompatibility_new
    [{| term_dependency := root_dependency root; is_positive := false |}]
    RootCause.

(** [VersionSolver.solve].  The [except] clause raises what it caught
    again and the [finally] clause only logs, so neither changes the
    outcome. *)
Definition solve (fuel : nat) : M t SolverResult :=
  (self <- get ;;
   _add_incompatibility (root_incompatibility (_root self)) ;;;
   solve_loop fuel (Some (project_name (_root self))))%solver.
End VersionSolver.
End VersionSolver.

(** ** Vocabulary of the properties *)

Section Vocabulary.
Context `{Provider, !TermAlgebra, !PartialSolutions, !Interpreter}.

(** The cache after a series of calls of [search_for], one for each
    dependency of the list, with no [clear()] in between; a call that
    raises leaves the cache as the exception left it. *)
Definition after_searches (ds : list Dependency)
    (self : DependencyCache.t) : DependencyCache.t :=
  fold_left (fun self d => (DependencyCache.search_for d self).2) ds self.
End Vocabulary.

Section TermsByRelation.
Context `{PartialSolutions}.

(** The terms of a list to which the solution is [OVERLAPPING]. *)
Definition overlapping_terms (solution : PartialSolution)
    (ts : list Term) : list Term :=
  List.filter (fun t => bool_decide (relation solution t = OVERLAPPING)) ts.

(** The terms of a list to which the solution is [DISJOINT]. *)
Definition disjoint_terms (solution : PartialSolution)
    (ts : list Term) : list Term :=
  List.filter (fun t => bool_decide (relation solution t = DISJOINT)) ts.
End TermsByRelation.

Section Resolution.
Context `{Provider, !TermAlgebra, !PartialSolutions, !Interpreter}.

(** A round of the loop of [_resolve_conflict] that neither returns nor
    raises: the incompatibility that the next round starts from.  The
    rounds of one call all see the same solver, which only the return
    branch changes. *)
Definition resolution_round (self : VersionSolver.t)
    (incompatibility : Incompatibility) : option Incompatibility :=
  if is_failure incompatibility then None
  else
    let v :=
      VersionSolver.find_satisfiers (VersionSolver._solution self)
        incompatibility in
    match VersionSolver.most_recent_satisfier v with
    | None => None
    | Some recent =>
        if VersionSolver.is_root_cause v recent then None
        else
          match assignment_cause recent with
          | None => None
          | Some recent_cause =>
              Some (VersionSolver.resolvent incompatibility v recent
                      recent_cause)
          end
    end.

(** The incompatibility after [rounds] such rounds. *)
Fixpoint resolution_rounds (rounds : nat) (self : VersionSolver.t)
    (incompatibility : Incompatibility) : option Incompatibility :=
  match rounds with
  | O => Some incompatibility
  | S rounds' =>
      match resolution_round self incompatibility with
      | Some next => resolution_rounds rounds' self next
      | None => None
      end
  end.
End Resolution.

Section RaisesOnly.
Context `{Versions}.

(** Every exception that [m] raises is one of [P]. *)
Definition raises_only {S A} (P : Exception -> Prop) (m : M S A) : Prop :=
  forall (s s' : S) (e : Exception), m s = (Raise e, s') -> P e.

(** The exception is a [ValueError]. *)
Definition is_ValueError (e : Exception) : bool :=
  match e with
  | Base (ValueError _) => true
  | _ => false
  end.
End RaisesOnly.

Section SolverExceptions.
Context `{Provider, !TermAlgebra, !PartialSolutions, !Interpreter}.

(** Every exception that a method of the provider raises is one of [Q]. *)
Definition provider_raises_only (Q : Exception -> Prop) : Prop :=
  (forall d, raises_only Q (provider_search_for d))
  /\ (forall p, raises_only Q (provider_complete_package p))
  /\ (forall p, raises_only Q (provider_incompatibilities_for p)).

(** What [solve] can raise when the provider raises [Q] only: an exception
    of [Q], a [SolveFailure] that carries a failure, or the [KeyError] of
    the interpreter for a name that the index does not have. *)
Definition solver_exception (Q : Exception -> Prop) (e : Exception) : Prop :=
  Q e
  \/ (exists i, e = SolveFailure i /\ is_failure i = true)
  \/ (exists k, e = Base (KeyError k)).
End SolverExceptions.

Section Choice.
Context `{Provider, !TermAlgebra, !PartialSolutions, !Interpreter}.

(** The dependencies that [_get_min] counts as having one candidate: in
    [use_latest], with a locked package, or pinned to a VCS, a URL, a file
    or a directory. *)
Definition single_version (d : Dependency) (self : VersionSolver.t) : bool :=
  bool_decide (name d ∈ VersionSolver._use_latest self)
  || bool_decide (is_Some (VersionSolver._get_locked d false self))
  || is_vcs d || is_url d || is_file d || is_directory d.

(** The keys of the dependencies of a list, computed by [_get_min] one
    after the other, each dependency with its key. *)
Fixpoint get_min_all (ds : list Dependency) :
    M VersionSolver.t (list (Dependency * (bool * Z))) :=
  match ds with
  | [] => ret []
  | d :: ds' =>
      (k <- VersionSolver._get_min d ;;
       ks <- get_min_all ds' ;;
       ret ((d, k) :: ks))%solver
  end.

(** The choice that [min] makes among keyed dependencies: the best so
    far is replaced when a key is smaller. *)
Definition pick (best : Dependency * (bool * Z))
    (l : list (Dependency * (bool * Z))) : Dependency * (bool * Z) :=
  fold_left
    (fun b x => if VersionSolver.key_lt x.2 b.2 then x else b) l best.

(** The incompatibility [{dependency}] with the given cause. *)
Definition positive_incompatibility (d : Dependency)
    (c : IncompatibilityCause) : Incompatibility :=
  Incompatibility_new [{| term_dependency := d; is_positive := true |}] c.
End Choice.

(** ** A small world to run the solver in

    Instances of the interfaces on which the definitions above compute:
    versions are numbers (120 for 1.2.0), a constraint is the list of the
    versions it allows, the partial solution is the log of assignments of
    the specification, and the provider reads a fixed table of packages and
    counts the calls of [search_for]. *)

Module Example.
Local Open Scope nat_scope.

Definition versions : Versions :=
  {| Version := nat;
     VersionConstraint := list nat;
     Version_eq_dec := _;
     VersionConstraint_eq_dec := _;
     allows := fun c v => bool_decide (v ∈ c);
     next_patch := S;
     Version_as_constraint := fun v => [v] |}.
#[local] Existing Instance versions.

Record example_package := {
  package_name : string;
  package_version : nat;
  package_prerelease : bool;
  package_root : bool;
}.

#[local] Instance example_package_eq_dec : EqDecision example_package.
Proof. solve_decision. Defined.

(** Two dependencies are equal when they are on the same package (the
    complete name and the source) with the same constraint: the marker
    and the other attributes are not looked at. *)
Definition same_source (a b : option string) : bool :=
  match a, b with
  | Some x, Some y => String.eqb x y
  | None, None => true
  | _, _ => false
  end.

Fixpoint same_versions (a b : list nat) : bool :=
  match a, b with
  | [], [] => true
  | x :: a', y :: b' => Nat.eqb x y && same_versions a' b'
  | _, _ => false
  end.

Definition same_dependency (d other : Dependency) : bool :=
  String.eqb (complete_name d) (complete_name other)
  && same_source (source_type d) (source_type other)
  && same_source (source_url d) (source_url other)
  && same_source (source_reference d) (source_reference other)
  && same_versions (constraint d) (constraint other).

Lemma same_source_refl (a : option string) : same_source a a = true.
Proof. destruct a as [x|]; [apply String.eqb_refl|done]. Qed.

Lemma same_versions_refl (a : list nat) : same_versions a a = true.
Proof.
  induction a as [|x a IH]; [done|]. simpl.
  by rewrite Nat.eqb_refl, IH.
Qed.

Lemma same_dependency_refl (d : Dependency) : same_dependency d d = true.
Proof.
  unfold same_dependency.
  by rewrite String.eqb_refl, !same_source_refl, same_versions_refl.
Qed.

(** A dependency is on the same package when its complete name, extras
    included, is the name of the package. *)
Definition packages : Packages :=
  {| Package := example_package;
     Package_eq_dec := _;
     Package_version := package_version;
     Package_is_prerelease := package_prerelease;
     Package_is_root := package_root;
     is_same_package_as :=
       fun d p => bool_decide (complete_name d = package_name p);
     Dependency_eqb := same_dependency;
     Dependency_eqb_refl := same_dependency_refl |}.
#[local] Existing Instance packages.

(** *** Terms as signed sets of versions *)

Definition with_constraint (d : Dependency) (c : list nat) : Dependency :=
  {| name := name d; complete_name := complete_name d;
     source_type := source_type d; source_url := source_url d;
     source_reference := source_reference d;
     constraint := c; marker_is_any := marker_is_any d;
     is_vcs := is_vcs d; is_url := is_url d; is_file := is_file d;
     is_directory := is_directory d; is_root := is_root d |}.

Definition signed (t : Term) (positive : bool) (c : list nat) : Term :=
  {| term_dependency := with_constraint (term_dependency t) c;
     is_positive := positive |}.

Definition inter (a b : list nat) : list nat :=
  List.filter (fun v => bool_decide (v ∈ b)) a.

Definition minus (a b : list nat) : list nat :=
  List.filter (fun v => negb (bool_decide (v ∈ b))) a.

Definition nonempty (t : Term) (c : list nat) : option Term :=
  match c with
  | [] => None
  | _ :: _ => Some (signed t true c)
  end.

(** [term.intersect(other)] for two terms about one package; [None] is
    the empty set. *)
Definition intersect (t u : Term) : option Term :=
  let a := constraint (term_dependency t) in
  let b := constraint (term_dependency u) in
  match is_positive t, is_positive u with
  | true, true => nonempty t (inter a b)
  | true, false => nonempty t (minus a b)
  | false, true => nonempty u (minus b a)
  | false, false => Some (signed t false (a ++ minus b a))
  end.

Definition term_algebra : TermAlgebra :=
  {| difference := fun t u => intersect t (inverse u);
     coalesce := fun t u =>
       match intersect t u with
       | Some r => [r]
       | None => []
       end |}.
#[local] Existing Instance term_algebra.

(** *** The partial solution *)

Record solution := {
  assignments : list Assignment;
  decided : list example_package;
  attempted : Z;
  backtracking : bool;
}.

Definition about (n : string) (a : Assignment) : bool :=
  bool_decide (complete_name (term_dependency (assignment_term a)) = n).

(** The term that allows every version of the package of [t]. *)
Definition anything (t : Term) : Term := signed t false [].

(** The intersection of [acc] with the terms of the assignments. *)
Definition accumulate (acc : option Term) (l : list Assignment) :
    option Term :=
  fold_left
    (fun acc a =>
       match acc with
       | Some acc => intersect acc (assignment_term a)
       | None => None
       end)
    l acc.

Definition set_relation (acc : option Term) (t : Term) : SetRelation :=
  match acc with
  | None => SUBSET
  | Some acc =>
      match intersect acc t with
      | None => DISJOINT
      | Some _ =>
          match intersect acc (inverse t) with
          | None => SUBSET
          | Some _ => OVERLAPPING
          end
      end
  end.

Definition solution_relation (s : solution) (t : Term) : SetRelation :=
  set_relation
    (accumulate (Some (anything t))
       (List.filter (about (complete_name (term_dependency t)))
          (assignments s)))
    t.

Definition no_assignment (t : Term) : Assignment :=
  {| assignment_term := t; decision_level := 0%Z; index := (-1)%Z;
     assignment_cause := None |}.

(** The first assignment about the package of [t] with which the
    assignments so far satisfy [t]. *)
Fixpoint first_satisfier (acc : option Term) (l : list Assignment)
    (t : Term) : Assignment :=
  match l with
  | [] => no_assignment t
  | a :: l' =>
      let acc' := accumulate acc [a] in
      match set_relation acc' t with
      | SUBSET => a
      | _ => first_satisfier acc' l' t
      end
  end.

Definition solution_satisfier (s : solution) (t : Term) : Assignment :=
  first_satisfier (Some (anything t))
    (List.filter (about (complete_name (term_dependency t)))
       (assignments s))
    t.

Definition solution_derive (d : Dependency) (positive : bool)
    (c : Incompatibility) (s : solution) : solution :=
  {| assignments :=
       assignments s ++
       [{| assignment_term :=
             {| term_dependency := d; is_positive := positive |};
           decision_level := Z.of_nat (length (decided s));
           index := Z.of_nat (length (assignments s));
           assignment_cause := Some c |}];
     decided := decided s;
     attempted := attempted s;
     backtracking := backtracking s |}.

(** [package.to_dependency()]: the dependency on exactly this version. *)
Definition to_dependency (p : example_package) : Dependency :=
  set_is_root (package_root p)
    (Dependency_new (package_name p) [package_version p]).

Definition solution_decide (p : example_package) (s : solution) : solution :=
  {| assignments :=
       assignments s ++
       [{| assignment_term :=
             {| term_dependency := to_dependency p; is_positive := true |};
           decision_level := Z.of_nat (S (length (decided s)));
           index := Z.of_nat (length (assignments s));
           assignment_cause := None |}];
     decided := decided s ++ [p];
     attempted :=
       if backtracking s then (attempted s + 1)%Z else attempted s;
     backtracking := false |}.

Definition solution_backtrack (level : Z) (s : solution) : solution :=
  {| assignments :=
       List.filter (fun a => (decision_level a <=? level)%Z) (assignments s);
     decided := take (Z.to_nat level) (decided s);
     attempted := attempted s;
     backtracking := true |}.

(** The complete names with a positive assignment, in the order of their
    first one. *)
Definition positive_names (l : list Assignment) : list string :=
  fold_left
    (fun names a =>
       let n := complete_name (term_dependency (assignment_term a)) in
       if negb (is_positive (assignment_term a)) || bool_decide (n ∈ names)
       then names else names ++ [n])
    l [].

(** The summary of the package named [n]: the intersection of its
    assignments, starting from the first positive one. *)
Definition summary (l : list Assignment) (n : string) : option Term :=
  match List.filter (about n) l with
  | [] => None
  | (a :: _) as l' => accumulate (Some (anything (assignment_term a))) l'
  end.

Definition solution_unsatisfied (s : solution) : list Dependency :=
  omap
    (fun n =>
       if bool_decide (n ∈ map package_name (decided s)) then None
       else term_dependency <$> summary (assignments s) n)
    (positive_names (assignments s)).

Definition partial_solutions : PartialSolutions :=
  {| PartialSolution := solution;
     PartialSolution_new :=
       {| assignments := []; decided := []; attempted := 1%Z;
          backtracking := false |};
     relation := solution_relation;
     satisfier := solution_satisfier;
     derive := solution_derive;
     decide_package := solution_decide;
     backtrack := solution_backtrack;
     unsatisfied := solution_unsatisfied;
     decisions := decided;
     attempted_solutions := attempted |}.
#[local] Existing Instance partial_solutions.

(** *** The provider *)

(** The repository: the packages in the order in which [search_for] lists
    them (newest first), each with the dependencies it declares. *)
Definition repository := list (example_package * list Dependency).

(** The state of the provider: the number of calls of [search_for]. *)
Definition calls := nat.

(** The names on which the provider fails, and how: [search_for] does not
    find the package ([ValueError]) or cannot reach the repository,
    [complete_package] or [incompatibilities_for] cannot read the
    package. *)
Inductive failure := not_found | transport | incomplete | undeclared.

#[local] Instance failure_eq_dec : EqDecision failure.
Proof. solve_decision. Defined.

Definition fails (failing : list (string * failure)) (n : string)
    (f : failure) : bool :=
  bool_decide ((n, f) ∈ failing).

Definition example_search_for (repo : repository)
    (failing : list (string * failure)) (d : Dependency) :
    M calls (list DependencyPackage) :=
  fun n =>
    if fails failing (name d) not_found then
      (Raise (Base (ValueError "not found")), S n)
    else if fails failing (name d) transport then
      (Raise (Base (OtherError "ConnectionError" "unreachable")), S n)
    else
      (Return
         (map (fun p => {| dependency := d; package := p.1 |})
            (List.filter
               (fun p =>
                  bool_decide (package_name p.1 = name d)
                  && allows (constraint d) (package_version p.1))
               repo)),
       S n).

(** The package completed for its dependency carries the extras that the
    dependency asks for: it is named by the complete name. *)
Definition example_complete_package (failing : list (string * failure))
    (p : DependencyPackage) : M calls DependencyPackage :=
  if fails failing (package_name (package p)) incomplete then
    raise (Base (OtherError "OSError" "unreadable"))
  else
    ret {| dependency := dependency p;
           package :=
             {| package_name := complete_name (dependency p);
                package_version := package_version (package p);
                package_prerelease := package_prerelease (package p);
                package_root := package_root (package p) |} |}.

(** For each dependency [d] that [p] declares, the incompatibility
    [{p, not d}]. *)
Definition example_incompatibilities_for (repo : repository)
    (failing : list (string * failure)) (p : DependencyPackage) :
    M calls (list Incompatibility) :=
  if fails failing (package_name (package p)) undeclared then
    raise (Base (OtherError "OSError" "unreadable"))
  else
    ret
      (map
         (fun d =>
            Incompatibility_new
              [{| term_dependency := to_dependency (package p);
                  is_positive := true |};
               {| term_dependency := d; is_positive := false |}]
              DependencyCause)
         (default []
            (snd <$> List.find
                       (fun q =>
                          bool_decide
                            (package_name q.1 = name (dependency p)
                             /\ package_version q.1
                                = package_version (package p)))
                       repo))).

Definition provider_of (repo : repository)
    (failing : list (string * failure)) : Provider :=
  {| ProviderState := calls;
     provider_search_for := example_search_for repo failing;
     provider_complete_package := example_complete_package failing;
     provider_incompatibilities_for :=
       example_incompatibilities_for repo failing |}.

Definition interpreter : Interpreter :=
  {| str_conflict := "<object object at 0x7f0000000000>";
     set_pop_position := fun _ => 0%nat |}.
#[local] Existing Instance interpreter.

(** *** Dependencies and packages to run on *)

Definition dep (n : string) (c : list nat) : Dependency := Dependency_new n c.

Definition pkg (n : string) (v : nat) : example_package :=
  {| package_name := n; package_version := v;
     package_prerelease := false; package_root := false |}.

Definition root_package : example_package :=
  {| package_name := "root"; package_version := 100;
     package_prerelease := false; package_root := true |}.

Definition root : VersionSolver.ProjectPackage :=
  {| VersionSolver.project_name := "root";
     VersionSolver.project_version := 100 |}.

(** Scenario "Trivial": the root depends on foo ^1.0 and the repository
    has foo 1.2.0, 1.1.0 and 1.0.0. *)
Definition trivial : repository :=
  [(root_package, [dep "foo" [100; 110; 120]]);
   (pkg "foo" 120, []); (pkg "foo" 110, []); (pkg "foo" 100, [])].

(** Scenario "Backjump": the root depends on a and on b; a 2.0 and a 1.0
    both depend on b <1.0; b 1.0 and b 0.9 exist. *)
Definition backjump : repository :=
  [(root_package, [dep "a" [100; 200]; dep "b" [90; 100]]);
   (pkg "a" 200, [dep "b" [90]]); (pkg "a" 100, [dep "b" [90]]);
   (pkg "b" 100, []); (pkg "b" 90, [])].

(** Scenario "Failure": the root depends on a ^1 and b ^1; a 1.0 depends
    on c ^1 and b 1.0 on c ^2; c 1.0 and c 2.0 exist. *)
Definition failing : repository :=
  [(root_package, [dep "a" [100]; dep "b" [100]]);
   (pkg "a" 100, [dep "c" [100]]); (pkg "b" 100, [dep "c" [200]]);
   (pkg "c" 200, []); (pkg "c" 100, [])].

(** A new solver on a repository. *)
Definition solver (repo : repository) (failing : list (string * failure))
    (locked : option (gmap string (list DependencyPackage)))
    (use_latest : option (list string)) :
    VersionSolver.t (H1 := provider_of repo failing) :=
  VersionSolver.__init__ (H1 := provider_of repo failing)
    root 0 locked use_latest.

(** The outcome of [solve] and the packages it returns, if it returns. *)
Definition solved (repo : repository) (failing : list (string * failure))
    (locked : option (gmap string (list DependencyPackage)))
    (use_latest : option (list string)) (fuel : nat) :
    outcome (list (string * nat)) :=
  match VersionSolver.solve (H1 := provider_of repo failing) fuel
          (solver repo failing locked use_latest) with
  | (Return r, _) =>
      Return (map (fun p => (package_name p, package_version p))
                (VersionSolver.result_packages r))
  | (Raise e, _) => Raise e
  | (OutOfFuel, _) => OutOfFuel
  end.

(** The solver after a number of rounds of the loop of [solve], and the
    name that the next round would propagate. *)
Fixpoint after_rounds (repo : repository)
    (failing : list (string * failure)) (rounds : nat) (next : string)
    (self : VersionSolver.t (H1 := provider_of repo failing)) :
    string * VersionSolver.t (H1 := provider_of repo failing) :=
  match rounds with
  | O => (next, self)
  | S rounds' =>
      let self1 :=
        (VersionSolver._propagate (H1 := provider_of repo failing)
           20 next self).2 in
      match VersionSolver._choose_package_version
              (H1 := provider_of repo failing) self1 with
      | (Return (Some next'), self2) =>
          after_rounds repo failing rounds' next' self2
      | (_, self2) => (next, self2)
      end
  end.

(** The solver in the middle of a run: the incompatibility of the root has
    been added and the loop has made some rounds. *)
Definition midway (repo : repository) (failing : list (string * failure))
    (locked : option (gmap string (list DependencyPackage)))
    (use_latest : option (list string)) (rounds : nat) :
    VersionSolver.t (H1 := provider_of repo failing) :=
  (after_rounds repo failing rounds "root"
     (VersionSolver._add_incompatibility (H1 := provider_of repo failing)
        (VersionSolver.root_incompatibility root)
        (solver repo failing locked use_latest)).2).2.

(** A dependency with extras: the complete name carries the tag. *)
Definition dep_extra (n extra : string) (c : list nat) : Dependency :=
  {| name := n; complete_name := n ++ "[" ++ extra ++ "]";
     source_type := None; source_url := None; source_reference := None;
     constraint := c; marker_is_any := true;
     is_vcs := false; is_url := false; is_file := false;
     is_directory := false; is_root := false |}.

(** A locked package, as the lock file gives it. *)
Definition locked_package (n : string) (v : nat) (prerelease : bool) :
    DependencyPackage :=
  {| dependency := dep n [v];
     package := {| package_name := n; package_version := v;
                   package_prerelease := prerelease;
                   package_root := false |} |}.

(** Scenarios "Locked preference" and "Extras similarity". *)
Definition three_x : repository :=
  [(root_package, [dep "x" [110; 120; 130]]);
   (pkg "x" 130, []); (pkg "x" 120, []); (pkg "x" 110, [])].

Definition three_pkg : repository :=
  [(root_package, [dep_extra "pkg" "extra" [110; 120; 130]]);
   (pkg "pkg" 130, []); (pkg "pkg" 120, []); (pkg "pkg" 110, [])].

(** *** The cache on its own *)

(** Two dependencies on foo with the same key and different
    constraints. *)
Definition foo_old : Dependency := dep "foo" [100; 110].
Definition foo_new : Dependency := dep "foo" [110; 120].

(** [foo_old] under a marker that is not the one always true: another
    dependency, which equals [foo_old] by [==]. *)
Definition foo_old_marked : Dependency :=
  {| name := name foo_old; complete_name := complete_name foo_old;
     source_type := source_type foo_old; source_url := source_url foo_old;
     source_reference := source_reference foo_old;
     constraint := constraint foo_old; marker_is_any := false;
     is_vcs := is_vcs foo_old; is_url := is_url foo_old;
     is_file := is_file foo_old; is_directory := is_directory foo_old;
     is_root := is_root foo_old |}.

(** The candidate with version [v] that [search_for] lists for [d]. *)
Definition candidate (d : Dependency) (v : nat) : DependencyPackage :=
  {| dependency := d; package := pkg (name d) v |}.

(** A new cache on the repository of "Trivial"; the cache after
    [search_for(foo_old)]; after [search_for(foo_new)] as well; and after
    [clear()]. *)
Definition fresh_cache : DependencyCache.t (H1 := provider_of trivial []) :=
  DependencyCache.__init__ (H1 := provider_of trivial []) 0.

Definition searched_old : DependencyCache.t (H1 := provider_of trivial []) :=
  (DependencyCache.search_for foo_old fresh_cache).2.

Definition searched_new : DependencyCache.t (H1 := provider_of trivial []) :=
  (DependencyCache.search_for foo_new searched_old).2.

Definition cleared : DependencyCache.t (H1 := provider_of trivial []) :=
  (DependencyCache.clear searched_new).2.

(** *** Terms and solvers for single steps *)

Definition positive (n : string) (c : list nat) : Term :=
  {| term_dependency := dep n c; is_positive := true |}.

Definition negative (n : string) (c : list nat) : Term :=
  {| term_dependency := dep n c; is_positive := false |}.

(** A solver whose solution holds one derivation: c is 1.0. *)
Definition knowing_c : VersionSolver.t (H1 := provider_of trivial []) :=
  VersionSolver.set_solution (H1 := provider_of trivial [])
    (derive (dep "c" [100]) true
       (Incompatibility_new [negative "c" [100]] DependencyCause)
       PartialSolution_new)
    (solver trivial [] None None).

(** Incompatibilities over a, b (of which the solution knows nothing)
    and c. *)
Definition a_b_c : Incompatibility :=
  Incompatibility_new
    [positive "a" [100]; positive "b" [100]; positive "c" [200]]
    DependencyCause.

Definition only_c : Incompatibility :=
  Incompatibility_new [positive "c" [100]] DependencyCause.

Definition not_c : Incompatibility :=
  Incompatibility_new [positive "c" [200]] DependencyCause.

Definition a_b : Incompatibility :=
  Incompatibility_new [positive "a" [100]; positive "b" [100]]
    DependencyCause.

Definition c_a : Incompatibility :=
  Incompatibility_new [positive "c" [100]; positive "a" [100]]
    DependencyCause.

(** *** Solvers in the middle of a run *)

(** "Backjump" after four rounds: the root and b 1.0.0 are decided, a
    2.0.0 and a 1.0.0 were turned down because both need b <1.0, and the
    next propagation meets the conflict on [a_needs_b]. *)
Definition at_conflict : VersionSolver.t (H1 := provider_of backjump []) :=
  midway backjump [] None None 4.

Definition a_needs_b : Incompatibility :=
  Incompatibility_new [positive "a" [100]; negative "b" [90]]
    DependencyCause.

Definition a2_needs_b : Incompatibility :=
  Incompatibility_new [positive "a" [200]; negative "b" [90]]
    DependencyCause.

(** What one round of resolution learns from it: every a needs b <1.0. *)
Definition every_a_needs_b : Incompatibility :=
  MkIncompatibility [negative "b" [90]; positive "a" [200; 100]]
    (ConflictCause a_needs_b a2_needs_b).

(** The decision of b 1.0.0. *)
Definition decision_b : Assignment :=
  {| assignment_term := positive "b" [100]; decision_level := 2%Z;
     index := 4%Z; assignment_cause := None |}.

(** "Trivial" with a provider that does not find foo, after two rounds:
    the root is decided, foo is required, and [search_for(foo)] has raised
    [ValueError], which left the incompatibility [foo_not_found]. *)
Definition foo_any : Dependency := dep "foo" [100; 110; 120].

Definition after_not_found :
    VersionSolver.t (H1 := provider_of trivial [("foo", not_found)]) :=
  midway trivial [("foo", not_found)] None None 2.

Definition foo_not_found : Incompatibility :=
  positive_incompatibility foo_any
    (PackageNotFoundCause (ValueError "not found")).

Definition root_term : Term :=
  {| term_dependency := to_dependency root_package; is_positive := true |}.

Definition root_needs_foo : Incompatibility :=
  Incompatibility_new [root_term; negative "foo" [100; 110; 120]]
    DependencyCause.

(** What one round of resolution makes of [foo_not_found]: the failure. *)
Definition no_root : Incompatibility :=
  MkIncompatibility [root_term] (ConflictCause foo_not_found root_needs_foo).

(** The solver that has decided the root and derived its dependencies, on
    a repository and a provider with failures: the state in which
    [_choose_package_version] is called for the second time. *)
Definition choosing (repo : repository) (failing : list (string * failure))
    (locked : option (gmap string (list DependencyPackage)))
    (use_latest : option (list string)) :
    VersionSolver.t (H1 := provider_of repo failing) :=
  (VersionSolver._propagate (H1 := provider_of repo failing) 20 "root"
     (midway repo failing locked use_latest 1)).2.

Definition a_any : Dependency := dep "a" [100; 200].
Definition b_any : Dependency := dep "b" [90; 100].
Definition x_any : Dependency := dep "x" [110; 120; 130].
Definition pkg_extra : Dependency := dep_extra "pkg" "extra" [110; 120; 130].

Definition x_locked : gmap string (list DependencyPackage) :=
  {[ "x" := [locked_package "x" 110 false] ]}.

Definition pkg_locked : gmap string (list DependencyPackage) :=
  {[ "pkg" := [locked_package "pkg" 110 false] ]}.

(** A lock file with the prerelease x 1.1.0rc (109, whose next patch is
    110). *)
Definition x_prerelease_locked : gmap string (list DependencyPackage) :=
  {[ "x" := [locked_package "x" 109 true] ]}.

(** What the provider of the examples raises. *)
Definition example_error (e : Exception) : Prop :=
  e = Base (ValueError "not found")
  \/ e = Base (OtherError "ConnectionError" "unreachable")
  \/ e = Base (OtherError "OSError" "unreadable").
End Example.

(** ** Vocabulary of the invariants *)

Section Preservation.
Context `{Versions}.

(** The method keeps [P]: called on a state with [P], it leaves a state
    with [P], whether it returns or raises. *)
Definition preserves {S A} (P : S -> Prop) (m : M S A) : Prop :=
  forall (s s' : S) (r : outcome A), P s -> m s = (r, s') -> P s'.
End Preservation.

Section IndexVocabulary.
Context `{Versions}.

(** The complete names of the terms of an incompatibility: the keys under
    which [_add_incompatibility] files it. *)
Definition term_names (i : Incompatibility) : list string :=
  map (fun t => complete_name (term_dependency t)) (terms i).

(** Every incompatibility of the index is filed under the complete name
    of one of its terms. *)
Definition filed_by_term (index0 : gmap string (list Incompatibility)) :
    Prop :=
  forall (k : string) (l : list Incompatibility) (i : Incompatibility),
    index0 !! k = Some l -> i ∈ l -> k ∈ term_names i.

(** [index1] has every key of [index0], with a list that starts with the
    list of [index0]. *)
Definition index_extends
    (index0 index1 : gmap string (list Incompatibility)) : Prop :=
  forall (k : string) (l : list Incompatibility),
    index0 !! k = Some l -> exists l', index1 !! k = Some (l ++ l').
End IndexVocabulary.

(** The rest of [VersionSolver]: its one public property. *)
Module VersionSolverProperties.
Section VersionSolverProperties.
Context `{Provider, !TermAlgebra, !PartialSolutions, !Interpreter}.

(** [VersionSolver.solution] *)
Definition solution (self : VersionSolver.t) : PartialSolution :=
  VersionSolver._solution self.
End VersionSolverProperties.
End VersionSolverProperties.

Section SolverVocabulary.
Context `{Provider, !TermAlgebra, !PartialSolutions, !Interpreter}.

(** What the solver holds besides its solution, its index and its set of
    contradicted incompatibilities, and what of its cache no method of
    the solver but [search_for] changes: the root, the lock data, the
    names to update, the provider and the table of the decorator. *)
Definition surroundings (self : VersionSolver.t) :
    VersionSolver.ProjectPackage * gmap string (list DependencyPackage)
    * list string * ProviderState
    * list (Dependency * list DependencyPackage) :=
  (VersionSolver._root self, VersionSolver._locked self,
   VersionSolver._use_latest self,
   DependencyCache.provider (VersionSolver._dependency_cache self),
   DependencyCache.memo (VersionSolver._dependency_cache self)).

(** The index after [_add_incompatibility] for each incompatibility of a
    list in turn. *)
Definition index_with (incompatibilities : list Incompatibility)
    (index0 : gmap string (list Incompatibility)) :
    gmap string (list Incompatibility) :=
  fold_left
    (fun index1 i =>
       fold_left (VersionSolver.add_for_term i) (terms i) index1)
    incompatibilities index0.
End SolverVocabulary.

Section SatisfierVocabulary.
Context `{Provider, !TermAlgebra, !PartialSolutions, !Interpreter}.

(** What the loop over the terms in [_resolve_conflict] has found after
    the terms [seen]: the most recent term is one of them, the most
    recent satisfier is its satisfier, no satisfier of a term seen has a
    higher index, and every satisfier of a term seen other than the most
    recent one is at a decision level that [previous_satisfier_level]
    covers. *)
Definition most_recent_among (solution0 : PartialSolution)
    (v : VersionSolver.satisfiers) (seen : list Term) : Prop :=
  exists t : Term,
    t ∈ seen
    /\ VersionSolver.most_recent_term v = Some t
    /\ VersionSolver.most_recent_satisfier v = Some (satisfier solution0 t)
    /\ (forall u, u ∈ seen ->
                  index (satisfier solution0 u)
                  <= index (satisfier solution0 t))
    /\ (forall u, u ∈ seen ->
                  satisfier solution0 u = satisfier solution0 t
                  \/ decision_level (satisfier solution0 u)
                     <= VersionSolver.previous_satisfier_level v).
End SatisfierVocabulary.

(** ** More of the small world *)

Module Situations.
Import Example.
#[local] Existing Instance versions.
#[local] Existing Instance packages.
#[local] Existing Instance term_algebra.
#[local] Existing Instance partial_solutions.
#[local] Existing Instance interpreter.
Local Open Scope nat_scope.

(** A new cache on the repository of "Trivial" whose provider cannot
    reach the repository for foo. *)
Definition unreachable_cache :
    DependencyCache.t (H1 := provider_of trivial [("foo", transport)]) :=
  DependencyCache.__init__ (H1 := provider_of trivial [("foo", transport)])
    0.

(** The solver that knows c 1.0.0, after the incompatibility [not_c] was
    added and propagated: the solution contradicts it, so that it is
    marked. *)
Definition contradicted_c : VersionSolver.t (H1 := provider_of trivial []) :=
  (VersionSolver._propagate_incompatibility (H1 := provider_of trivial [])
     not_c
     (VersionSolver._add_incompatibility (H1 := provider_of trivial [])
        not_c knowing_c).2).2.

(** "Backjump" after two rounds and the propagation of the third: the
    root and b 1.0.0 are decided, and a version of a is to be chosen. *)
Definition choosing_a : VersionSolver.t (H1 := provider_of backjump []) :=
  (VersionSolver._propagate (H1 := provider_of backjump []) 20 "b"
     (midway backjump [] None None 2)).2.

(** The result of "Trivial". *)
Definition trivial_result : VersionSolver.SolverResult :=
  {| VersionSolver.result_root := root;
     VersionSolver.result_packages := [pkg "foo" 120];
     VersionSolver.result_attempted_solutions := 1%Z |}.
End Situations.

(** * Properties *)

(** ** package_collection.py *)

Section PackageCollectionFacts.
Context `{Packages}.

Lemma append_items (e : PackageCollection.element) (self : PackageCollection.t) :
  PackageCollection.items (PackageCollection.append e self)
  = PackageCollection.items self
    ++ [{| dependency := PackageCollection._dependency self;
           package := PackageCollection.underlying e |}].
Proof. by destruct e. Qed.

Lemma append_dependency (e : PackageCollection.element)
    (self : PackageCollection.t) :
  PackageCollection._dependency (PackageCollection.append e self)
  = PackageCollection._dependency self.
Proof. done. Qed.

Lemma appends_spec (es : list PackageCollection.element)
    (self : PackageCollection.t) :
  let self' :=
    fold_left (fun self e => PackageCollection.append e self) es self in
  PackageCollection._dependency self' = PackageCollection._dependency self
  /\ PackageCollection.items self'
     = PackageCollection.items self
       ++ map (fun e => {| dependency := PackageCollection._dependency self;
                           package := PackageCollection.underlying e |}) es.
Proof.
  revert self. induction es as [|e es IH]; intros self; simpl.
  - by rewrite app_nil_r.
  - destruct (IH (PackageCollection.append e self)) as [Hd Hi].
    split; [by rewrite Hd|].
    rewrite Hi, append_items, append_dependency, <- app_assoc. done.
Qed.

(** C9: every element of a [PackageCollection] made for the dependency
    [d] is the [DependencyPackage] that pairs [d] with the underlying
    package, whether the element was given to the constructor or appended
    later, as a [Package] or as a [DependencyPackage]; in particular,
    appending a [DependencyPackage] drops the dependency it came with and
    wraps its package with [d]. *)
Theorem PackageCollection_elements_wrap_own_dependency
    (d : Dependency) (packages : option (list PackageCollection.element))
    (appended : list PackageCollection.element) :
  let collection :=
    fold_left (fun self e => PackageCollection.append e self) appended
      (PackageCollection.__init__ d packages) in
  PackageCollection._dependency collection = d
  /\ PackageCollection.items collection
     = map (fun e => {| dependency := d;
                        package := PackageCollection.underlying e |})
         (default [] packages ++ appended)
  /\ (forall dp : DependencyPackage,
        PackageCollection.items
          (PackageCollection.append (PackageCollection.wrapped dp) collection)
        = PackageCollection.items collection
          ++ [{| dependency := d; package := package dp |}]).
Proof.
  intros collection.
  assert (Hinit :
    PackageCollection._dependency (PackageCollection.__init__ d packages) = d
    /\ PackageCollection.items (PackageCollection.__init__ d packages)
       = map (fun e => {| dependency := d;
                          package := PackageCollection.underlying e |})
           (default [] packages)).
  { unfold PackageCollection.__init__.
    pose proof (appends_spec (default [] packages)
                  {| PackageCollection._dependency := d;
                     PackageCollection.items := [] |}) as [Hd Hi].
    destruct packages; exact (conj Hd Hi). }
  destruct Hinit as [Hd0 Hi0].
  destruct (appends_spec appended (PackageCollection.__init__ d packages))
    as [Hd Hi].
  fold collection in Hd, Hi.
  assert (Hdep : PackageCollection._dependency collection = d)
    by (by rewrite Hd).
  split; [done|]. split.
  - rewrite Hi, Hi0, Hd0, map_app. done.
  - intros dp. rewrite append_items, Hdep. done.
Qed.
End PackageCollectionFacts.

(** ** version_solver.py: [_get_locked] *)

Section GetLockedFacts.
Context `{Provider, !TermAlgebra, !PartialSolutions, !Interpreter}.

Lemma get_locked_use_latest (d : Dependency) (allow_similar : bool)
    (self : VersionSolver.t) :
  name d ∈ VersionSolver._use_latest self ->
  VersionSolver._get_locked d allow_similar self = None.
Proof.
  intros Hin. unfold VersionSolver._get_locked.
  by rewrite bool_decide_eq_true_2.
Qed.

(** What [_get_locked] returns comes from the list of locked packages
    under the name of the dependency, passes the test, and carries the
    dependency it was asked for. *)
Lemma get_locked_Some (d : Dependency) (allow_similar : bool)
    (self : VersionSolver.t) (r : DependencyPackage) :
  VersionSolver._get_locked d allow_similar self = Some r ->
  (name d ∉ VersionSolver._use_latest self)
  /\ exists q,
       In q (default [] (VersionSolver._locked self !! name d))
       /\ VersionSolver.locked_matches d allow_similar q = true
       /\ r = {| dependency := d; package := package q |}.
Proof.
  unfold VersionSolver._get_locked. case_bool_decide; [done|].
  destruct (List.find _ _) as [q|] eqn:Hfind; [|done].
  intros [= <-]. split; [done|].
  apply find_some in Hfind as [Hin Hm]. eauto.
Qed.

Lemma find_first_match {A} (f : A -> bool) (before after : list A) (x : A) :
  (forall y, In y before -> f y = false) -> f x = true ->
  List.find f (before ++ x :: after) = Some x.
Proof.
  intros Hbefore Hx. induction before as [|y before IH]; simpl.
  - by rewrite Hx.
  - rewrite (Hbefore y) by (by left). apply IH.
    intros z Hz. apply Hbefore. by right.
Qed.

(** C10: [_get_locked(dependency)] returns a locked package whose version
    the constraint of the dependency does not allow, provided the package
    is a prerelease and the constraint allows [version.next_patch()] (the
    package [p] being the first in the locked list that passes the test,
    it is [p] that is returned, wrapped with the dependency); and it
    returns [None] whenever the name of the dependency is in
    [use_latest], whatever [allow_similar] is. *)
Theorem get_locked_prerelease_next_patch_and_use_latest
    (self : VersionSolver.t) (d : Dependency) :
  (forall (allow_similar : bool) (before after : list DependencyPackage)
          (p : DependencyPackage),
      name d ∉ VersionSolver._use_latest self ->
      VersionSolver._locked self !! name d = Some (before ++ p :: after) ->
      (forall q, In q before ->
         VersionSolver.locked_matches d allow_similar q = false) ->
      (allow_similar = true \/ is_same_package_as d (package p) = true) ->
      allows (constraint d) (version p) = false ->
      is_prerelease p = true ->
      allows (constraint d) (next_patch (version p)) = true ->
      VersionSolver._get_locked d allow_similar self
      = Some {| dependency := d; package := package p |})
  /\ (name d ∈ VersionSolver._use_latest self ->
      forall allow_similar : bool,
        VersionSolver._get_locked d allow_similar self = None).
Proof.
  split.
  - intros allow_similar before after p Hlatest Hlocked Hbefore Hsame
      Hallows Hpre Hnext.
    unfold VersionSolver._get_locked.
    rewrite bool_decide_eq_false_2 by done.
    rewrite Hlocked. simpl.
    rewrite (find_first_match _ before after p); [done|done|].
    unfold VersionSolver.locked_matches.
    rewrite Hallows, Hpre, Hnext.
    destruct Hsame as [-> | ->]; [done|]. by rewrite orb_true_r.
  - intros Hin allow_similar. by apply get_locked_use_latest.
Qed.
End GetLockedFacts.

(** ** version_solver.py: [DependencyCache] *)

Section DependencyCacheFacts.
Context `{Provider}.

Lemma memo_find_None_body (d : Dependency) (self : DependencyCache.t) :
  DependencyCache.memo_find d (DependencyCache.memo self) = None ->
  forall (packages : list DependencyPackage) (self' : DependencyCache.t),
    DependencyCache.search_for_body d self = (Return packages, self') ->
    DependencyCache.search_for d self
    = (Return packages,
       DependencyCache.set_memo
         (take DependencyCache.maxsize
            ((d, packages) :: DependencyCache.memo self'))
         self').
Proof.
  intros Hmiss packages self' Hbody. unfold DependencyCache.search_for.
  by rewrite Hmiss, Hbody.
Qed.

(** The body on a key that the cache holds: the stored list is filtered,
    stored back and returned, and the provider is left alone. *)
Lemma search_for_body_stored (d : Dependency) (self : DependencyCache.t)
    (stored : list DependencyPackage) :
  DependencyCache.cache self !! DependencyCache.key_of d = Some stored ->
  let filtered :=
    List.filter (fun p => allows (constraint d) (version p)) stored in
  DependencyCache.search_for_body d self
  = (Return filtered,
     DependencyCache.set_cache
       (<[DependencyCache.key_of d := filtered]> (DependencyCache.cache self))
       self).
Proof.
  intros Hstored filtered. unfold DependencyCache.search_for_body.
  unfold bind, get. rewrite Hstored. done.
Qed.

(** The body on a key that the cache does not hold: the provider is
    asked, and what it returns is stored and returned. *)
Lemma search_for_body_fresh (d : Dependency) (self : DependencyCache.t) :
  DependencyCache.cache self !! DependencyCache.key_of d = None ->
  DependencyCache.search_for_body d self
  = match provider_search_for d (DependencyCache.provider self) with
    | (Return packages, p) =>
        (Return packages,
         DependencyCache.set_cache
           (<[DependencyCache.key_of d := packages]>
              (DependencyCache.cache self))
           (DependencyCache.set_provider p self))
    | (Raise e, p) => (Raise e, DependencyCache.set_provider p self)
    | (OutOfFuel, p) => (OutOfFuel, DependencyCache.set_provider p self)
    end.
Proof.
  intros Hfresh. unfold DependencyCache.search_for_body.
  unfold bind, get. rewrite Hfresh.
  unfold DependencyCache.call_provider.
  by destruct (provider_search_for d (DependencyCache.provider self))
    as [[packages|e|] p].
Qed.

(** A remembered call is answered from the table of the decorator: neither
    the cache nor the provider is touched. *)
Lemma search_for_remembered (d k : Dependency) (self : DependencyCache.t)
    (result : list DependencyPackage)
    (rest : list (Dependency * list DependencyPackage)) :
  DependencyCache.memo_find d (DependencyCache.memo self)
  = Some (k, result, rest) ->
  DependencyCache.search_for d self
  = (Return result, DependencyCache.set_memo ((k, result) :: rest) self).
Proof. intros Hhit. unfold DependencyCache.search_for. by rewrite Hhit. Qed.

(** The entry found is one whose key equals the argument. *)
Lemma memo_find_equal (d k : Dependency) (v : list DependencyPackage)
    (m rest : list (Dependency * list DependencyPackage)) :
  DependencyCache.memo_find d m = Some (k, v, rest) ->
  Dependency_eqb k d = true.
Proof.
  revert rest. induction m as [|[k0 w] m IH]; intros rest; simpl; [done|].
  destruct (Dependency_eqb k0 d) eqn:Heq.
  - by intros [= <- <- <-].
  - destruct (DependencyCache.memo_find d m) as [[[k1 v1] rest1]|];
      [|done].
    intros [= <- <- <-]. by eapply IH.
Qed.

Lemma memo_find_first (d k : Dependency) (v : list DependencyPackage)
    (m : list (Dependency * list DependencyPackage)) :
  Dependency_eqb k d = true ->
  DependencyCache.memo_find d ((k, v) :: m) = Some (k, v, m).
Proof. intros Heq. simpl. by rewrite Heq. Qed.

Lemma memo_find_head (d : Dependency) (v : list DependencyPackage)
    (m : list (Dependency * list DependencyPackage)) :
  DependencyCache.memo_find d ((d, v) :: m) = Some (d, v, m).
Proof. apply memo_find_first, Dependency_eqb_refl. Qed.

(** After a call that returned, the call is the first entry of the
    table, under the dependency it was remembered with. *)
Lemma search_for_remembers (d : Dependency) (self self' : DependencyCache.t)
    (result : list DependencyPackage) :
  DependencyCache.search_for d self = (Return result, self') ->
  exists k rest,
    DependencyCache.memo self' = (k, result) :: rest
    /\ Dependency_eqb k d = true.
Proof.
  unfold DependencyCache.search_for.
  destruct (DependencyCache.memo_find d (DependencyCache.memo self))
    as [[[k r] rest]|] eqn:Hfind.
  - intros [= <- <-]. exists k, rest. split; [done|].
    by eapply memo_find_equal.
  - destruct (DependencyCache.search_for_body d self) as [[r| |] s];
      [|done|done].
    intros [= <- <-]. simpl. eexists _, _. split; [done|].
    apply Dependency_eqb_refl.
Qed.

(** [clear()] empties the cache and leaves the table of the decorator as
    it is. *)
Lemma clear_spec (self : DependencyCache.t) :
  DependencyCache.clear self
  = (Return tt,
     {| DependencyCache.provider := DependencyCache.provider self;
        DependencyCache.cache := ∅;
        DependencyCache.memo := DependencyCache.memo self |}).
Proof. done. Qed.

(** After a call of [search_for(dependency)] that returned and a
    [clear()], the same call is answered from the table of the decorator:
    it returns the list of before, the provider is not consulted, and the
    cache stays empty. *)
Lemma search_for_after_clear (d : Dependency)
    (self self1 : DependencyCache.t) (result : list DependencyPackage) :
  DependencyCache.search_for d self = (Return result, self1) ->
  let self2 := (DependencyCache.clear self1).2 in
  exists self3,
    DependencyCache.search_for d self2 = (Return result, self3)
    /\ DependencyCache.provider self3 = DependencyCache.provider self1
    /\ DependencyCache.cache self3 = ∅.
Proof.
  intros Hcall self2.
  destruct (search_for_remembers _ _ _ _ Hcall) as (k & rest & Hmemo & Heq).
  eexists. split.
  - apply (search_for_remembered d k). simpl. rewrite Hmemo.
    by apply memo_find_first.
  - done.
Qed.
End DependencyCacheFacts.

Section DependencyCacheNarrowing.
Context `{Provider}.

Lemma filter_sublist {A} (f : A -> bool) (l : list A) :
  sublist (List.filter f l) l.
Proof.
  induction l as [|x l IH]; simpl; [constructor|].
  destruct (f x); by constructor.
Qed.

(** One call of the body narrows what the cache holds: under every key
    that held a list, it holds a sublist of it afterwards. *)
Lemma search_for_body_narrows (d : Dependency) (self : DependencyCache.t)
    (k : string * option string * option string * option string)
    (stored : list DependencyPackage) :
  DependencyCache.cache self !! k = Some stored ->
  exists stored',
    DependencyCache.cache (DependencyCache.search_for_body d self).2 !! k
    = Some stored'
    /\ sublist stored' stored.
Proof.
  intros Hk.
  destruct (DependencyCache.cache self !! DependencyCache.key_of d)
    as [here|] eqn:Hhere.
  - rewrite (search_for_body_stored _ _ _ Hhere). simpl.
    destruct (decide (DependencyCache.key_of d = k)) as [<-|Hne].
    + rewrite lookup_insert_eq. eexists; split; [done|].
      assert (here = stored) as -> by congruence. apply filter_sublist.
    + rewrite lookup_insert_ne by done. eauto.
  - rewrite (search_for_body_fresh _ _ Hhere).
    assert (DependencyCache.key_of d <> k) as Hne by congruence.
    destruct (provider_search_for d (DependencyCache.provider self))
      as [[packages|e|] p]; simpl; [|by eauto..].
    rewrite lookup_insert_ne by done. eauto.
Qed.

Lemma search_for_narrows (d : Dependency) (self : DependencyCache.t)
    (k : string * option string * option string * option string)
    (stored : list DependencyPackage) :
  DependencyCache.cache self !! k = Some stored ->
  exists stored',
    DependencyCache.cache (DependencyCache.search_for d self).2 !! k
    = Some stored'
    /\ sublist stored' stored.
Proof.
  intros Hk. unfold DependencyCache.search_for.
  destruct (DependencyCache.memo_find d (DependencyCache.memo self))
    as [[[k0 r] rest]|]; simpl; [by eauto|].
  destruct (search_for_body_narrows d self k stored Hk) as (s' & Hs' & Hsub).
  destruct (DependencyCache.search_for_body d self) as [[r| |] self'];
    simpl in *; eauto.
Qed.

Lemma after_searches_narrows (ds : list Dependency)
    (self : DependencyCache.t)
    (k : string * option string * option string * option string)
    (stored : list DependencyPackage) :
  DependencyCache.cache self !! k = Some stored ->
  exists stored',
    DependencyCache.cache (after_searches ds self) !! k = Some stored'
    /\ sublist stored' stored.
Proof.
  revert self stored. induction ds as [|d ds IH]; intros self stored Hk.
  - by eauto.
  - simpl.
    destruct (search_for_narrows d self k stored Hk) as (s1 & Hs1 & Hsub1).
    destruct (IH _ _ Hs1) as (s2 & Hs2 & Hsub2).
    exists s2. split; [done|]. by etrans.
Qed.

(** C8 (amended): between two calls of [clear()], a call of [search_for]
    that the table of the decorator does not answer (it remembers no
    dependency that equals the argument by [==]), on a key that the cache
    holds, returns the stored list filtered by
    [dependency.constraint.allows(p.version)] and stores the filtered list
    back, without asking the provider, so that its result is a sublist of
    the list stored before; a call that the table answers returns the
    list remembered with the equal dependency and leaves cache and
    provider as they are; and over any series of calls the list stored
    under a key only narrows. *)
Theorem search_for_narrows_unless_remembered (d : Dependency)
    (self : DependencyCache.t) :
  (forall stored : list DependencyPackage,
      DependencyCache.memo_find d (DependencyCache.memo self) = None ->
      DependencyCache.cache self !! DependencyCache.key_of d = Some stored ->
      let filtered :=
        List.filter (fun p => allows (constraint d) (version p)) stored in
      exists self',
        DependencyCache.search_for d self = (Return filtered, self')
        /\ DependencyCache.cache self' !! DependencyCache.key_of d
           = Some filtered
        /\ DependencyCache.provider self' = DependencyCache.provider self
        /\ sublist filtered stored)
  /\ (forall (remembered : Dependency) (result : list DependencyPackage)
             (rest : list (Dependency * list DependencyPackage)),
        DependencyCache.memo_find d (DependencyCache.memo self)
        = Some (remembered, result, rest) ->
        exists self',
          DependencyCache.search_for d self = (Return result, self')
          /\ DependencyCache.cache self' = DependencyCache.cache self
          /\ DependencyCache.provider self' = DependencyCache.provider self)
  /\ (forall (ds : list Dependency)
             (k : string * option string * option string * option string)
             (stored : list DependencyPackage),
        DependencyCache.cache self !! k = Some stored ->
        exists stored',
          DependencyCache.cache (after_searches ds self) !! k = Some stored'
          /\ sublist stored' stored).
Proof.
  split; [|split].
  - intros stored Hmiss Hstored filtered.
    pose proof (search_for_body_stored d self stored Hstored) as Hbody.
    eexists. split; [by apply memo_find_None_body|].
    simpl. rewrite lookup_insert_eq.
    split; [done|]. split; [done|]. apply filter_sublist.
  - intros remembered result rest Hhit. eexists.
    split; [by apply (search_for_remembered d remembered)|done].
  - intros ds k stored. apply after_searches_narrows.
Qed.
End DependencyCacheNarrowing.

(** ** version_solver.py: the start of [solve] *)

Section SolveStart.
Context `{Provider, !TermAlgebra, !PartialSolutions, !Interpreter}.

Lemma add_incompatibility_spec (i : Incompatibility) (self : VersionSolver.t) :
  VersionSolver._add_incompatibility i self
  = (Return tt,
     VersionSolver.set_incompatibilities
       (fold_left (VersionSolver.add_for_term i) (terms i)
          (VersionSolver._incompatibilities self))
       self).
Proof. done. Qed.

Lemma root_incompatibility_terms (root : VersionSolver.ProjectPackage) :
  VersionSolver.root_incompatibility root
  = MkIncompatibility
      [{| term_dependency := VersionSolver.root_dependency root;
          is_positive := false |}]
      RootCause.
Proof. done. Qed.

(** C1 (amended): when [solve()] begins, it adds exactly one
    incompatibility, with a [RootCause], whose single term is the dependency
    on the root (named after the root, constrained to the version of the
    root, marked [is_root]) taken negatively: the second argument of
    [Term] is [False].  The index then holds this incompatibility alone,
    under the name of the root, and the loop starts from there. *)
Theorem solve_begins_with_negative_root_term
    (root : VersionSolver.ProjectPackage) (provider0 : ProviderState)
    (locked : option (gmap string (list DependencyPackage)))
    (use_latest : option (list string)) (fuel : nat) :
  let self := VersionSolver.__init__ root provider0 locked use_latest in
  let term :=
    {| term_dependency := VersionSolver.root_dependency root;
       is_positive := false |} in
  let initial := MkIncompatibility [term] RootCause in
  let self1 :=
    VersionSolver.set_incompatibilities
      {[ VersionSolver.project_name root := [initial] ]} self in
  VersionSolver.root_incompatibility root = initial
  /\ is_root (term_dependency term) = true
  /\ name (term_dependency term) = VersionSolver.project_name root
  /\ constraint (term_dependency term)
     = Version_as_constraint (VersionSolver.project_version root)
  /\ is_positive term = false
  /\ VersionSolver._add_incompatibility
       (VersionSolver.root_incompatibility root) self
     = (Return tt, self1)
  /\ VersionSolver.solve fuel self
     = VersionSolver.solve_loop fuel
         (Some (VersionSolver.project_name root)) self1.
Proof.
  intros self term initial self1.
  assert (Hadd :
    VersionSolver._add_incompatibility
      (VersionSolver.root_incompatibility root) self
    = (Return tt, self1)).
  { rewrite add_incompatibility_spec. unfold self1. do 2 f_equal.
    simpl. unfold VersionSolver.add_for_term. simpl.
    rewrite lookup_empty, lookup_insert_eq. simpl.
    rewrite insert_insert_eq. done. }
  repeat split; [done|].
  unfold VersionSolver.solve, bind, get.
  change (VersionSolver._root self) with root.
  by rewrite Hadd.
Qed.
End SolveStart.

(** ** version_solver.py: [_propagate_incompatibility] *)

Section PropagateIncompatibility.
Context `{Provider, !TermAlgebra, !PartialSolutions, !Interpreter}.

Variable solution : PartialSolution.

Lemma scan_terms_from_Some (ts : list Term) (u : Term) :
  VersionSolver.scan_terms solution ts (Some u) <> VersionSolver.scanned None.
Proof.
  induction ts as [|t ts IH]; simpl; [done|].
  by destruct (relation solution t).
Qed.

Lemma scan_terms_all_subset (ts : list Term) (u : option Term) :
  (forall t, t ∈ ts -> relation solution t = SUBSET) ->
  VersionSolver.scan_terms solution ts u = VersionSolver.scanned u.
Proof.
  induction ts as [|t ts IH]; intros Hall; simpl; [done|].
  rewrite (Hall t) by (by left). apply IH.
  intros t' Ht'. apply Hall. by right.
Qed.

Lemma scan_terms_conflict (ts : list Term) :
  VersionSolver.scan_terms solution ts None = VersionSolver.scanned None ->
  forall t, t ∈ ts -> relation solution t = SUBSET.
Proof.
  induction ts as [|t ts IH]; simpl; intros Hscan t' Ht'.
  - by apply elem_of_nil in Ht'.
  - destruct (relation solution t) eqn:Hrel; [|done|].
    + apply elem_of_cons in Ht' as [->|Ht']; [done|by apply IH].
    + by apply scan_terms_from_Some in Hscan.
Qed.

(** The loop reaches a [DISJOINT] term when no term before it is
    [DISJOINT] and the [OVERLAPPING] terms before it leave [unsatisfied]
    set at most once. *)
Lemma scan_terms_reaches_disjoint (pre post : list Term) (t : Term)
    (u : option Term) :
  relation solution t = DISJOINT ->
  disjoint_terms solution pre = [] ->
  (length (overlapping_terms solution pre)
   + match u with Some _ => 1 | None => 0 end <= 1)%nat ->
  VersionSolver.scan_terms solution (pre ++ t :: post) u
  = VersionSolver.at_disjoint.
Proof.
  intros Ht. revert u.
  induction pre as [|x pre IH]; intros u Hdis Hover; simpl.
  - by rewrite Ht.
  - unfold disjoint_terms, overlapping_terms in *. simpl in *.
    destruct (relation solution x) eqn:Hx; simpl in *.
    + by apply IH.
    + done.
    + destruct u as [u|]; [simpl in Hover; lia|].
      apply IH; [done|]. simpl in *. lia.
Qed.

Lemma scan_terms_two_overlapping (ts : list Term) (u : option Term) :
  (2 <= length (overlapping_terms solution ts)
        + match u with Some _ => 1 | None => 0 end)%nat ->
  VersionSolver.scan_terms solution ts u = VersionSolver.at_disjoint
  \/ VersionSolver.scan_terms solution ts u
     = VersionSolver.at_second_overlapping.
Proof.
  revert u. induction ts as [|x ts IH]; intros u Hover; simpl.
  - unfold overlapping_terms in Hover. simpl in Hover.
    destruct u; simpl in Hover; lia.
  - unfold overlapping_terms in *. simpl in *.
    destruct (relation solution x) eqn:Hx; simpl in *.
    + by apply IH.
    + by left.
    + destruct u as [u|]; [by right|].
      apply IH. simpl in *. lia.
Qed.

Lemma scan_terms_one_overlapping (ts : list Term) (t : Term) :
  overlapping_terms solution ts = [t] ->
  disjoint_terms solution ts = [] ->
  VersionSolver.scan_terms solution ts None
  = VersionSolver.scanned (Some t).
Proof.
  induction ts as [|x ts IH]; intros Hover Hdis; [done|].
  unfold disjoint_terms, overlapping_terms in *. simpl in *.
  destruct (relation solution x) eqn:Hx; simpl in *.
  - by apply IH.
  - done.
  - injection Hover as -> Hrest.
    apply scan_terms_all_subset. intros t' Ht'.
    destruct (relation solution t') eqn:Hrel; [done| |].
    + assert (t' ∈ List.filter
                (fun t => bool_decide (relation solution t = DISJOINT)) ts)
        as Hin.
      { apply list_elem_of_In, filter_In. split.
        - by apply list_elem_of_In.
        - by apply bool_decide_eq_true_2. }
      rewrite Hdis in Hin. by apply elem_of_nil in Hin.
    + assert (t' ∈ List.filter
                (fun t => bool_decide (relation solution t = OVERLAPPING))
                ts) as Hin.
      { apply list_elem_of_In, filter_In. split.
        - by apply list_elem_of_In.
        - by apply bool_decide_eq_true_2. }
      rewrite Hrest in Hin. by apply elem_of_nil in Hin.
Qed.
End PropagateIncompatibility.

Section PropagateIncompatibilityCases.
Context `{Provider, !TermAlgebra, !PartialSolutions, !Interpreter}.

Lemma propagate_incompatibility_unfold (i : Incompatibility)
    (self : VersionSolver.t) :
  VersionSolver._propagate_incompatibility i self
  = match VersionSolver.scan_terms (VersionSolver._solution self)
            (terms i) None with
    | VersionSolver.at_disjoint =>
        (Return VersionSolver.nothing,
         (VersionSolver.mark_contradicted i self).2)
    | VersionSolver.at_second_overlapping =>
        (Return VersionSolver.nothing, self)
    | VersionSolver.scanned None => (Return VersionSolver.conflict, self)
    | VersionSolver.scanned (Some u) =>
        (Return (VersionSolver.derived (complete_name (term_dependency u))),
         VersionSolver.set_solution
           (derive (term_dependency u) (negb (is_positive u)) i
              (VersionSolver._solution self))
           (VersionSolver.mark_contradicted i self).2)
    end.
Proof.
  unfold VersionSolver._propagate_incompatibility, bind, get.
  by destruct (VersionSolver.scan_terms _ _ _) as [| |[u|]].
Qed.

Lemma mark_contradicted_elem (i : Incompatibility) (self : VersionSolver.t) :
  i ∈ VersionSolver._contradicted_incompatibilities
        (VersionSolver.mark_contradicted i self).2.
Proof.
  simpl. unfold VersionSolver.set_add. case_bool_decide; [done|].
  apply elem_of_app. right. by left.
Qed.

(** C3 (amended): [_propagate_incompatibility(I)] returns the conflict
    sentinel, changing nothing, if and only if the relation of the
    solution to every term of [I] is [SUBSET]; if the terms before the
    first [DISJOINT] term include at most one [OVERLAPPING] term, it marks
    [I] contradicted and returns [None]; if two or more terms are
    [OVERLAPPING] it returns [None] without deriving; and if exactly one
    term is [OVERLAPPING] and none is [DISJOINT], it marks [I]
    contradicted, derives the negation of that term with [I] as cause, and
    returns the complete name of that term. *)
Theorem propagate_incompatibility_cases (i : Incompatibility)
    (self : VersionSolver.t) :
  let solution := VersionSolver._solution self in
  let marked := (VersionSolver.mark_contradicted i self).2 in
  ((VersionSolver._propagate_incompatibility i self).1
     = Return VersionSolver.conflict
   <-> forall t, t ∈ terms i -> relation solution t = SUBSET)
  /\ ((forall t, t ∈ terms i -> relation solution t = SUBSET) ->
      VersionSolver._propagate_incompatibility i self
      = (Return VersionSolver.conflict, self))
  /\ (forall (pre post : list Term) (t : Term),
        terms i = pre ++ t :: post ->
        relation solution t = DISJOINT ->
        disjoint_terms solution pre = [] ->
        (length (overlapping_terms solution pre) <= 1)%nat ->
        VersionSolver._propagate_incompatibility i self
        = (Return VersionSolver.nothing, marked)
        /\ i ∈ VersionSolver._contradicted_incompatibilities marked)
  /\ ((2 <= length (overlapping_terms solution (terms i)))%nat ->
      (VersionSolver._propagate_incompatibility i self).1
      = Return VersionSolver.nothing
      /\ VersionSolver._solution
           (VersionSolver._propagate_incompatibility i self).2
         = solution)
  /\ (forall t : Term,
        overlapping_terms solution (terms i) = [t] ->
        disjoint_terms solution (terms i) = [] ->
        VersionSolver._propagate_incompatibility i self
        = (Return (VersionSolver.derived (complete_name (term_dependency t))),
           VersionSolver.set_solution
             (derive (term_dependency t) (negb (is_positive t)) i solution)
             marked)
        /\ i ∈ VersionSolver._contradicted_incompatibilities marked).
Proof.
  intros solution marked.
  rewrite propagate_incompatibility_unfold. fold solution.
  assert (Hsubset :
    (forall t, t ∈ terms i -> relation solution t = SUBSET) ->
    VersionSolver.scan_terms solution (terms i) None
    = VersionSolver.scanned None)
    by apply scan_terms_all_subset.
  split; [|split; [|split; [|split]]].
  - split.
    + intros Hconflict. apply scan_terms_conflict.
      by destruct (VersionSolver.scan_terms solution (terms i) None)
        as [| |[u|]].
    + intros Hall. by rewrite Hsubset.
  - intros Hall. by rewrite Hsubset.
  - intros pre post t Hterms Ht Hdis Hover.
    rewrite Hterms, (scan_terms_reaches_disjoint solution pre post t None)
      by (done || lia).
    split; [done|]. apply mark_contradicted_elem.
  - intros Hover.
    destruct (scan_terms_two_overlapping solution (terms i) None) as [-> | ->];
      [lia|done|done].
  - intros t Hover Hdis.
    rewrite (scan_terms_one_overlapping solution (terms i) t) by done.
    split; [done|]. apply mark_contradicted_elem.
Qed.
End PropagateIncompatibilityCases.

(** ** version_solver.py: [_resolve_conflict] *)

Section ResolveConflict.
Context `{Provider, !TermAlgebra, !PartialSolutions, !Interpreter}.

Lemma satisfiers_step_level (solution : PartialSolution)
    (v : VersionSolver.satisfiers) (term : Term) :
  VersionSolver.previous_satisfier_level v
  <= VersionSolver.previous_satisfier_level
       (VersionSolver.satisfiers_step solution v term).
Proof.
  unfold VersionSolver.satisfiers_step.
  destruct (VersionSolver.most_recent_satisfier v) as [recent|]; simpl.
  - destruct (index recent <? index (satisfier solution term)); simpl.
    + case_bool_decide; simpl; [|lia].
      destruct (difference _ _); simpl; lia.
    + destruct (VersionSolver.most_recent_term v) as [rt|]; simpl; [|lia].
      case_bool_decide; simpl; [|lia].
      destruct (difference _ _); simpl; lia.
  - case_bool_decide; simpl; [|lia].
    destruct (difference _ _); simpl; lia.
Qed.

Lemma satisfiers_fold_level (solution : PartialSolution) (ts : list Term)
    (v : VersionSolver.satisfiers) :
  VersionSolver.previous_satisfier_level v
  <= VersionSolver.previous_satisfier_level
       (fold_left (VersionSolver.satisfiers_step solution) ts v).
Proof.
  revert v. induction ts as [|t ts IH]; intros v; simpl; [lia|].
  etrans; [apply (satisfiers_step_level solution v t)|apply IH].
Qed.

(** [previous_satisfier_level] starts at 1 and is only ever replaced by a
    maximum with itself: it is never below 1. *)
Lemma previous_satisfier_level_floor (solution : PartialSolution)
    (i : Incompatibility) :
  1 <= VersionSolver.previous_satisfier_level
         (VersionSolver.find_satisfiers solution i).
Proof.
  unfold VersionSolver.find_satisfiers.
  apply (satisfiers_fold_level solution (terms i)
           VersionSolver.satisfiers_init).
Qed.

Lemma satisfiers_step_recent (solution : PartialSolution)
    (v : VersionSolver.satisfiers) (term : Term) :
  is_Some (VersionSolver.most_recent_satisfier
             (VersionSolver.satisfiers_step solution v term)).
Proof.
  unfold VersionSolver.satisfiers_step.
  destruct (VersionSolver.most_recent_satisfier v) as [recent|] eqn:Hv;
    simpl.
  - destruct (index recent <? index (satisfier solution term)); simpl.
    + case_bool_decide; simpl; eauto.
    + destruct (VersionSolver.most_recent_term v) as [rt|]; simpl;
        rewrite ?Hv; simpl; [|by eauto].
      case_bool_decide; simpl; rewrite ?Hv; eauto.
  - case_bool_decide; simpl; eauto.
Qed.

Lemma satisfiers_fold_recent (solution : PartialSolution) (ts : list Term)
    (v : VersionSolver.satisfiers) :
  is_Some (VersionSolver.most_recent_satisfier v) ->
  is_Some (VersionSolver.most_recent_satisfier
             (fold_left (VersionSolver.satisfiers_step solution) ts v)).
Proof.
  revert v. induction ts as [|t ts IH]; intros v Hv; simpl; [done|].
  apply IH, satisfiers_step_recent.
Qed.

Lemma is_failure_false_terms (i : Incompatibility) :
  is_failure i = false -> terms i <> [].
Proof. unfold is_failure. by destruct (terms i). Qed.

(** The assertion of [_resolve_conflict] holds: an incompatibility that
    is not a failure has a term, hence a most recent satisfier. *)
Lemma find_satisfiers_recent (solution : PartialSolution)
    (i : Incompatibility) :
  is_failure i = false ->
  is_Some (VersionSolver.most_recent_satisfier
             (VersionSolver.find_satisfiers solution i)).
Proof.
  intros Hi%is_failure_false_terms. unfold VersionSolver.find_satisfiers.
  destruct (terms i) as [|t ts]; [done|]. simpl.
  apply satisfiers_fold_recent, satisfiers_step_recent.
Qed.

Lemma is_root_cause_iff (v : VersionSolver.satisfiers) (recent : Assignment) :
  VersionSolver.is_root_cause v recent = true
  <-> VersionSolver.previous_satisfier_level v < decision_level recent
      \/ assignment_cause recent = None.
Proof.
  unfold VersionSolver.is_root_cause.
  rewrite orb_true_iff, Z.ltb_lt, bool_decide_eq_true. done.
Qed.

Lemma backjump_spec (v : VersionSolver.satisfiers) (new_incompatibility : bool)
    (i : Incompatibility) (self : VersionSolver.t) :
  VersionSolver.backjump v new_incompatibility i self
  = (Return i,
     {| VersionSolver._root := VersionSolver._root self;
        VersionSolver._dependency_cache :=
          (DependencyCache.clear (VersionSolver._dependency_cache self)).2;
        VersionSolver._locked := VersionSolver._locked self;
        VersionSolver._use_latest := VersionSolver._use_latest self;
        VersionSolver._incompatibilities :=
          if new_incompatibility then
            VersionSolver._incompatibilities
              (VersionSolver._add_incompatibility i self).2
          else VersionSolver._incompatibilities self;
        VersionSolver._contradicted_incompatibilities := [];
        VersionSolver._solution :=
          backtrack (VersionSolver.previous_satisfier_level v)
            (VersionSolver._solution self) |}).
Proof. by destruct new_incompatibility. Qed.

Lemma resolve_conflict_loop_failure (fuel : nat) (i : Incompatibility)
    (new_incompatibility : bool) (self : VersionSolver.t) :
  is_failure i = true ->
  VersionSolver.resolve_conflict_loop fuel i new_incompatibility self
  = (Raise (SolveFailure i), self).
Proof. intros Hi. destruct fuel; simpl; by rewrite Hi. Qed.

Lemma resolve_conflict_loop_round (fuel : nat) (i next : Incompatibility)
    (new_incompatibility : bool) (self : VersionSolver.t) :
  resolution_round self i = Some next ->
  VersionSolver.resolve_conflict_loop (S fuel) i new_incompatibility self
  = VersionSolver.resolve_conflict_loop fuel next true self.
Proof.
  unfold resolution_round. simpl.
  destruct (is_failure i); [done|].
  unfold bind, get.
  destruct (VersionSolver.most_recent_satisfier _) as [recent|]; [|done].
  destruct (VersionSolver.is_root_cause _ recent); [done|].
  destruct (assignment_cause recent) as [rc|]; [|done].
  by intros [= <-].
Qed.

Lemma resolve_conflict_loop_root_cause (fuel : nat) (i : Incompatibility)
    (new_incompatibility : bool) (self : VersionSolver.t)
    (recent : Assignment) :
  let v :=
    VersionSolver.find_satisfiers (VersionSolver._solution self) i in
  is_failure i = false ->
  VersionSolver.most_recent_satisfier v = Some recent ->
  VersionSolver.is_root_cause v recent = true ->
  VersionSolver.resolve_conflict_loop (S fuel) i new_incompatibility self
  = VersionSolver.backjump v new_incompatibility i self.
Proof.
  intros v Hi Hrecent Hroot. simpl. rewrite Hi. unfold bind, get.
  fold v. by rewrite Hrecent, Hroot.
Qed.

Lemma resolve_conflict_loop_rounds (rounds fuel : nat)
    (i learned : Incompatibility) (new_incompatibility : bool)
    (self : VersionSolver.t) :
  resolution_rounds rounds self i = Some learned ->
  VersionSolver.resolve_conflict_loop (rounds + fuel) i
    new_incompatibility self
  = VersionSolver.resolve_conflict_loop fuel learned
      (match rounds with O => new_incompatibility | S _ => true end) self.
Proof.
  revert i new_incompatibility.
  induction rounds as [|rounds IH]; intros i new_incompatibility Hrounds;
    simpl in Hrounds.
  - by injection Hrounds as <-.
  - destruct (resolution_round self i) as [next|] eqn:Hround; [|done].
    change (S rounds + fuel)%nat with (S (rounds + fuel)).
    rewrite (resolve_conflict_loop_round _ _ _ _ _ Hround).
    rewrite (IH _ _ Hrounds). by destruct rounds.
Qed.

(** C4: in [_resolve_conflict], whenever [previous_satisfier_level] is
    strictly below the decision level of the most recent satisfier, or
    that satisfier is a decision (its cause is [None]), the solver
    backtracks the solution to [previous_satisfier_level], which is never
    below 1, empties the set of contradicted incompatibilities, clears the
    dependency cache, adds the incompatibility to the index only if it was
    learned during this resolution (after at least one round, not the
    original argument), and returns it. *)
Theorem resolve_conflict_backjumps (self : VersionSolver.t)
    (original learned : Incompatibility) (rounds fuel : nat)
    (recent : Assignment) :
  let v :=
    VersionSolver.find_satisfiers (VersionSolver._solution self) learned in
  resolution_rounds rounds self original = Some learned ->
  is_failure learned = false ->
  VersionSolver.most_recent_satisfier v = Some recent ->
  VersionSolver.previous_satisfier_level v < decision_level recent
  \/ assignment_cause recent = None ->
  (rounds < fuel)%nat ->
  exists self',
    VersionSolver._resolve_conflict fuel original self
    = (Return learned, self')
    /\ 1 <= VersionSolver.previous_satisfier_level v
    /\ VersionSolver._solution self'
       = backtrack (VersionSolver.previous_satisfier_level v)
           (VersionSolver._solution self)
    /\ VersionSolver._contradicted_incompatibilities self' = []
    /\ VersionSolver._dependency_cache self'
       = (DependencyCache.clear (VersionSolver._dependency_cache self)).2
    /\ DependencyCache.cache (VersionSolver._dependency_cache self') = ∅
    /\ VersionSolver._incompatibilities self'
       = match rounds with
         | O => VersionSolver._incompatibilities self
         | S _ =>
             VersionSolver._incompatibilities
               (VersionSolver._add_incompatibility learned self).2
         end.
Proof.
  intros v Hrounds Hfailure Hrecent Hcond Hfuel.
  apply is_root_cause_iff in Hcond.
  destruct fuel as [|fuel]; [lia|].
  replace (S fuel) with (rounds + S (fuel - rounds))%nat by lia.
  unfold VersionSolver._resolve_conflict.
  rewrite (resolve_conflict_loop_rounds _ _ _ _ _ _ Hrounds).
  rewrite (resolve_conflict_loop_root_cause _ _ _ _ recent)
    by done.
  rewrite backjump_spec. eexists. split; [done|].
  split; [apply previous_satisfier_level_floor|].
  simpl. by destruct rounds.
Qed.
End ResolveConflict.

(** ** Exceptions *)

Section RaisesOnlyFacts.
Context `{Versions}.

Lemma raises_only_weaken {S A} (P P' : Exception -> Prop) (m : M S A) :
  (forall e, P e -> P' e) -> raises_only P m -> raises_only P' m.
Proof. intros HP Hm s s' e Hrun. eapply HP, Hm, Hrun. Qed.

Lemma raises_only_ret {S A} (P : Exception -> Prop) (a : A) :
  raises_only P (ret (S := S) a).
Proof. by intros s s' e. Qed.

Lemma raises_only_get {S} (P : Exception -> Prop) :
  raises_only P (get (S := S)).
Proof. by intros s s' e. Qed.

Lemma raises_only_modify {S} (P : Exception -> Prop) (f : S -> S) :
  raises_only P (modify f).
Proof. by intros s s' e. Qed.

Lemma raises_only_raise {S A} (P : Exception -> Prop) (e : Exception) :
  P e -> raises_only P (raise (S := S) (A := A) e).
Proof. intros He s s' e'. by intros [= <- _]. Qed.

Lemma raises_only_bind {S A B} (P : Exception -> Prop) (m : M S A)
    (k : A -> M S B) :
  raises_only P m -> (forall a, raises_only P (k a)) ->
  raises_only P (bind m k).
Proof.
  intros Hm Hk s s' e. unfold bind.
  destruct (m s) as [[a|e'|] s1] eqn:Hrun.
  - apply Hk.
  - intros [= <- <-]. eapply Hm, Hrun.
  - done.
Qed.

Lemma raises_only_try {S A} (P : Exception -> Prop) (m : M S A)
    (handler : BaseException -> M S A) :
  raises_only P m -> (forall e, raises_only P (handler e)) ->
  raises_only P (try_except_ValueError m handler).
Proof.
  intros Hm Hh s s' e. unfold try_except_ValueError.
  destruct (m s) as [[a|e'|] s1] eqn:Hrun; [done| |done].
  destruct e' as [[msg|k| |c msg]|i];
    first [apply Hh | intros [= <- <-]; eapply Hm, Hrun].
Qed.

(** The laws of propagation: an exception of the first part of a sequence
    is the exception of the sequence, and [except ValueError] lets every
    other exception through. *)
Lemma bind_raise {S A B} (m : M S A) (k : A -> M S B) (s s' : S)
    (e : Exception) :
  m s = (Raise e, s') -> bind m k s = (Raise e, s').
Proof. intros Hrun. unfold bind. by rewrite Hrun. Qed.

Lemma bind_return {S A B} (m : M S A) (k : A -> M S B) (s s' : S) (a : A) :
  m s = (Return a, s') -> bind m k s = k a s'.
Proof. intros Hrun. unfold bind. by rewrite Hrun. Qed.

Lemma bind_get {S B} (k : S -> M S B) (s : S) : bind get k s = k s s.
Proof. done. Qed.

Lemma bind_modify {S B} (f : S -> S) (k : unit -> M S B) (s : S) :
  bind (modify f) k s = k tt (f s).
Proof. done. Qed.

Lemma try_raise_other {S A} (m : M S A) (handler : BaseException -> M S A)
    (s s' : S) (e : Exception) :
  m s = (Raise e, s') -> is_ValueError e = false ->
  try_except_ValueError m handler s = (Raise e, s').
Proof.
  intros Hrun He. unfold try_except_ValueError. rewrite Hrun.
  by destruct e as [[msg|k| |c msg]|i].
Qed.

Lemma try_raise_ValueError {S A} (m : M S A)
    (handler : BaseException -> M S A) (s s' : S) (msg : string) :
  m s = (Raise (Base (ValueError msg)), s') ->
  try_except_ValueError m handler s = handler (ValueError msg) s'.
Proof. intros Hrun. unfold try_except_ValueError. by rewrite Hrun. Qed.

Lemma try_return {S A} (m : M S A) (handler : BaseException -> M S A)
    (s s' : S) (a : A) :
  m s = (Return a, s') ->
  try_except_ValueError m handler s = (Return a, s').
Proof. intros Hrun. unfold try_except_ValueError. by rewrite Hrun. Qed.
End RaisesOnlyFacts.

Section SolverRaises.
Context `{Provider, !TermAlgebra, !PartialSolutions, !Interpreter}.

Lemma raises_only_cache_call_provider {A} (P : Exception -> Prop)
    (m : M ProviderState A) :
  raises_only P m -> raises_only P (DependencyCache.call_provider m).
Proof.
  intros Hm s s' e. unfold DependencyCache.call_provider.
  destruct (m (DependencyCache.provider s)) as [r p] eqn:Hrun.
  intros [= -> _]. eapply Hm, Hrun.
Qed.

Lemma raises_only_call_cache {A} (P : Exception -> Prop)
    (m : M DependencyCache.t A) :
  raises_only P m -> raises_only P (VersionSolver.call_cache m).
Proof.
  intros Hm s s' e. unfold VersionSolver.call_cache.
  destruct (m (VersionSolver._dependency_cache s)) as [r c] eqn:Hrun.
  intros [= -> _]. eapply Hm, Hrun.
Qed.

Lemma raises_only_call_provider {A} (P : Exception -> Prop)
    (m : M ProviderState A) :
  raises_only P m -> raises_only P (VersionSolver.call_provider m).
Proof.
  intros Hm. by apply raises_only_call_cache, raises_only_cache_call_provider.
Qed.

Lemma raises_only_search_for_body (P : Exception -> Prop) (d : Dependency) :
  raises_only P (provider_search_for d) ->
  raises_only P (DependencyCache.search_for_body d).
Proof.
  intros Hp. unfold DependencyCache.search_for_body.
  apply raises_only_bind; [apply raises_only_get|]. intros self.
  apply raises_only_bind.
  - destruct (DependencyCache.cache self !! _).
    + apply raises_only_ret.
    + by apply raises_only_cache_call_provider.
  - intros packages. apply raises_only_bind; [apply raises_only_modify|].
    intros _. apply raises_only_ret.
Qed.

Lemma raises_only_search_for (P : Exception -> Prop) (d : Dependency) :
  raises_only P (provider_search_for d) ->
  raises_only P (DependencyCache.search_for d).
Proof.
  intros Hp s s' e. unfold DependencyCache.search_for.
  destruct (DependencyCache.memo_find d (DependencyCache.memo s))
    as [[[k r] rest]|]; [done|].
  destruct (DependencyCache.search_for_body d s) as [[r|e'|] s1] eqn:Hrun;
    [done| |done].
  intros [= <- <-]. eapply raises_only_search_for_body; [done|exact Hrun].
Qed.

Lemma raises_only_add_incompatibility (P : Exception -> Prop)
    (i : Incompatibility) :
  raises_only P (VersionSolver._add_incompatibility i).
Proof. apply raises_only_modify. Qed.

Lemma raises_only_propagate_incompatibility (P : Exception -> Prop)
    (i : Incompatibility) :
  raises_only P (VersionSolver._propagate_incompatibility i).
Proof.
  intros s s' e. rewrite propagate_incompatibility_unfold.
  by destruct (VersionSolver.scan_terms _ _ _) as [| |[u|]].
Qed.
End SolverRaises.

Section ResolveConflictRaises.
Context `{Provider, !TermAlgebra, !PartialSolutions, !Interpreter}.

(** What [_resolve_conflict] raises is a [SolveFailure] with the failure
    that its rounds arrived at; the solver is as it was. *)
Lemma resolve_conflict_loop_raises (fuel : nat) (i : Incompatibility)
    (new_incompatibility : bool) (self self' : VersionSolver.t)
    (e : Exception) :
  VersionSolver.resolve_conflict_loop fuel i new_incompatibility self
  = (Raise e, self') ->
  exists (failure : Incompatibility) (rounds : nat),
    e = SolveFailure failure
    /\ is_failure failure = true
    /\ resolution_rounds rounds self i = Some failure
    /\ (rounds <= fuel)%nat
    /\ self' = self.
Proof.
  revert i new_incompatibility.
  induction fuel as [|fuel IH]; intros i new_incompatibility.
  - simpl. destruct (is_failure i) eqn:Hi; [|done].
    intros [= <- <-]. by exists i, 0%nat.
  - destruct (is_failure i) eqn:Hi.
    + rewrite resolve_conflict_loop_failure by done.
      intros [= <- <-]. exists i, 0%nat. repeat split; try done; lia.
    + destruct (find_satisfiers_recent (VersionSolver._solution self) i Hi)
        as [recent Hrecent].
      destruct (VersionSolver.is_root_cause
                  (VersionSolver.find_satisfiers
                     (VersionSolver._solution self) i) recent) eqn:Hroot.
      * rewrite (resolve_conflict_loop_root_cause _ _ _ _ recent) by done.
        by rewrite backjump_spec.
      * destruct (assignment_cause recent) as [rc|] eqn:Hcause.
        -- assert (resolution_round self i
                   = Some (VersionSolver.resolvent i
                             (VersionSolver.find_satisfiers
                                (VersionSolver._solution self) i)
                             recent rc)) as Hround.
           { unfold resolution_round.
             by rewrite Hi, Hrecent, Hroot, Hcause. }
           rewrite (resolve_conflict_loop_round _ _ _ _ _ Hround).
           intros (failure & rounds & -> & Hf & Hrounds & Hle & ->)%IH.
           exists failure, (S rounds). simpl. rewrite Hround.
           repeat split; try done; lia.
        -- unfold VersionSolver.is_root_cause in Hroot.
           rewrite Hcause, bool_decide_eq_true_2, orb_true_r in Hroot
             by done.
           done.
Qed.

Lemma raises_only_resolve_conflict (Q : Exception -> Prop) (fuel : nat)
    (i : Incompatibility) :
  raises_only (solver_exception Q) (VersionSolver._resolve_conflict fuel i).
Proof.
  intros s s' e (failure & rounds & -> & Hf & _)%resolve_conflict_loop_raises.
  right; left. eauto.
Qed.

Lemma raises_only_propagate_for (Q : Exception -> Prop) (fuel : nat)
    (incompatibilities : list Incompatibility) (changed : list string) :
  raises_only (solver_exception Q)
    (VersionSolver.propagate_for fuel incompatibilities changed).
Proof.
  revert changed.
  induction incompatibilities as [|i rest IH]; intros changed; simpl.
  - apply raises_only_ret.
  - apply raises_only_bind; [apply raises_only_get|]. intros self.
    case_bool_decide; [apply IH|].
    apply raises_only_bind;
      [apply raises_only_propagate_incompatibility|].
    intros [|n|]; [|apply IH..].
    apply raises_only_bind; [apply raises_only_resolve_conflict|].
    intros root_cause.
    apply raises_only_bind;
      [apply raises_only_propagate_incompatibility|].
    intros result'. apply raises_only_ret.
Qed.

Lemma raises_only_incompatibilities_of (Q : Exception -> Prop)
    (package0 : string) :
  raises_only (solver_exception Q)
    (VersionSolver.incompatibilities_of package0).
Proof.
  unfold VersionSolver.incompatibilities_of.
  apply raises_only_bind; [apply raises_only_get|]. intros self.
  destruct (VersionSolver._incompatibilities self !! package0).
  - apply raises_only_ret.
  - apply raises_only_raise. right; right. eauto.
Qed.

Lemma raises_only_propagate_while (Q : Exception -> Prop) (fuel : nat)
    (changed : list string) :
  raises_only (solver_exception Q)
    (VersionSolver.propagate_while fuel changed).
Proof.
  revert changed. induction fuel as [|fuel IH]; intros changed.
  - destruct changed as [|c changed]; simpl; [apply raises_only_ret|].
    by intros s s' e.
  - destruct changed as [|c changed]; simpl; [apply raises_only_ret|].
    destruct (VersionSolver.set_pop (c :: changed)) as [package0 changed'].
    apply raises_only_bind; [apply raises_only_incompatibilities_of|].
    intros incompatibilities.
    apply raises_only_bind; [apply raises_only_propagate_for|].
    intros changed''. apply IH.
Qed.

Lemma raises_only_propagate (Q : Exception -> Prop) (fuel : nat)
    (package0 : string) :
  raises_only (solver_exception Q) (VersionSolver._propagate fuel package0).
Proof. apply raises_only_propagate_while. Qed.

Section Choose.
Variable Q : Exception -> Prop.
Hypothesis provider_Q : provider_raises_only Q.

Lemma raises_only_cache_search_for (d : Dependency) :
  raises_only Q (VersionSolver.call_cache (DependencyCache.search_for d)).
Proof.
  apply raises_only_call_cache, raises_only_search_for, provider_Q.
Qed.

Lemma raises_only_get_min (d : Dependency) :
  raises_only Q (VersionSolver._get_min d).
Proof.
  unfold VersionSolver._get_min.
  apply raises_only_bind; [apply raises_only_get|]. intros self.
  case_bool_decide; [apply raises_only_ret|].
  destruct (VersionSolver._get_locked d false self);
    [apply raises_only_ret|].
  destruct (_ || _); [apply raises_only_ret|].
  apply raises_only_try.
  - apply raises_only_bind; [apply raises_only_cache_search_for|].
    intros packages. apply raises_only_ret.
  - intros e. apply raises_only_ret.
Qed.

Lemma raises_only_min_rest (best : Dependency)
    (best_key : bool * Z) (rest : list Dependency) :
  raises_only Q (VersionSolver.min_rest best best_key rest).
Proof.
  revert best best_key.
  induction rest as [|d rest IH]; intros best best_key; simpl.
  - apply raises_only_ret.
  - apply raises_only_bind; [apply raises_only_get_min|]. intros k.
    destruct (VersionSolver.key_lt k best_key); apply IH.
Qed.

Lemma raises_only_choose_dependency (first : Dependency)
    (rest : list Dependency) :
  raises_only Q (VersionSolver.choose_dependency first rest).
Proof.
  unfold VersionSolver.choose_dependency.
  destruct rest; [apply raises_only_ret|].
  apply raises_only_bind; [apply raises_only_get_min|]. intros k.
  apply raises_only_min_rest.
Qed.

Lemma raises_only_choose_package (d : Dependency) :
  raises_only Q (VersionSolver.choose_package d).
Proof.
  unfold VersionSolver.choose_package.
  apply raises_only_bind; [apply raises_only_get|]. intros self.
  destruct (VersionSolver._get_locked d false self);
    [apply raises_only_ret|].
  apply raises_only_bind.
  - apply raises_only_try.
    + apply raises_only_bind; [apply raises_only_cache_search_for|].
      intros packages. apply raises_only_ret.
    + intros e. apply raises_only_ret.
  - intros [e|packages].
    + apply raises_only_bind; [apply raises_only_add_incompatibility|].
      intros _. apply raises_only_ret.
    + apply raises_only_bind; [apply raises_only_get|]. intros self'.
      destruct (VersionSolver.choose_candidate d packages self');
        [apply raises_only_ret|].
      apply raises_only_bind; [apply raises_only_add_incompatibility|].
      intros _. apply raises_only_ret.
Qed.

Lemma raises_only_add_incompatibilities (d : Dependency)
    (incompatibilities : list Incompatibility) (conflict0 : bool) :
  raises_only Q
    (VersionSolver.add_incompatibilities d incompatibilities conflict0).
Proof.
  revert conflict0.
  induction incompatibilities as [|i rest IH]; intros conflict0; simpl.
  - apply raises_only_ret.
  - apply raises_only_bind; [apply raises_only_add_incompatibility|].
    intros _. apply raises_only_bind; [apply raises_only_get|].
    intros self. apply IH.
Qed.

Lemma raises_only_decide_version (d : Dependency) (p : DependencyPackage) :
  raises_only Q (VersionSolver.decide_version d p).
Proof.
  unfold VersionSolver.decide_version.
  apply raises_only_bind;
    [apply raises_only_call_provider, provider_Q|].
  intros p'.
  apply raises_only_bind;
    [apply raises_only_call_provider, provider_Q|].
  intros incompatibilities.
  apply raises_only_bind; [apply raises_only_add_incompatibilities|].
  intros conflict0.
  apply raises_only_bind.
  - destruct conflict0; [apply raises_only_ret|apply raises_only_modify].
  - intros _. apply raises_only_ret.
Qed.

Lemma raises_only_choose_package_version :
  raises_only Q VersionSolver._choose_package_version.
Proof.
  unfold VersionSolver._choose_package_version.
  apply raises_only_bind; [apply raises_only_get|]. intros self.
  destruct (unsatisfied (VersionSolver._solution self)) as [|first rest];
    [apply raises_only_ret|].
  apply raises_only_bind; [apply raises_only_choose_dependency|].
  intros d.
  apply raises_only_bind; [apply raises_only_choose_package|].
  intros [p|]; [|apply raises_only_ret].
  apply raises_only_decide_version.
Qed.

Lemma raises_only_solve_loop (fuel : nat) (next : option string) :
  raises_only (solver_exception Q) (VersionSolver.solve_loop fuel next).
Proof.
  revert next. induction fuel as [|fuel IH]; intros [next|]; simpl.
  - by intros s s' e.
  - apply raises_only_bind; [apply raises_only_get|]. intros self.
    apply raises_only_ret.
  - apply raises_only_bind; [apply raises_only_propagate|]. intros _.
    apply raises_only_bind; [|apply IH].
    eapply raises_only_weaken; [|apply raises_only_choose_package_version].
    intros e He. by left.
  - apply raises_only_bind; [apply raises_only_get|]. intros self.
    apply raises_only_ret.
Qed.

Lemma raises_only_solve (fuel : nat) :
  raises_only (solver_exception Q) (VersionSolver.solve fuel).
Proof.
  unfold VersionSolver.solve.
  apply raises_only_bind; [apply raises_only_get|]. intros self.
  apply raises_only_bind; [apply raises_only_add_incompatibility|].
  intros _. apply raises_only_solve_loop.
Qed.
End Choose.
End ResolveConflictRaises.

(** ** version_solver.py: [_choose_package_version] *)

Section KeyOrder.
Lemma key_lt_irrefl (k : bool * Z) : VersionSolver.key_lt k k = false.
Proof. destruct k as [[|] n]; simpl; apply Z.ltb_irrefl. Qed.

Lemma key_lt_below (k b x : bool * Z) :
  VersionSolver.key_lt k b = true -> VersionSolver.key_lt x b = false ->
  VersionSolver.key_lt k x = true /\ VersionSolver.key_lt x k = false.
Proof.
  destruct k as [[|] n], b as [[|] m], x as [[|] p]; simpl;
    rewrite ?Z.ltb_lt, ?Z.ltb_ge; (done || lia).
Qed.
End KeyOrder.

Section ChooseDependency.
Context `{Provider, !TermAlgebra, !PartialSolutions, !Interpreter}.

Lemma call_cache_keeps (A : Type) (m : M DependencyCache.t A)
    (self self' : VersionSolver.t) (r : outcome A) :
  VersionSolver.call_cache m self = (r, self') ->
  VersionSolver._locked self' = VersionSolver._locked self
  /\ VersionSolver._use_latest self' = VersionSolver._use_latest self
  /\ VersionSolver._solution self' = VersionSolver._solution self
  /\ VersionSolver._incompatibilities self'
     = VersionSolver._incompatibilities self
  /\ VersionSolver._contradicted_incompatibilities self'
     = VersionSolver._contradicted_incompatibilities self.
Proof.
  unfold VersionSolver.call_cache.
  destruct (m (VersionSolver._dependency_cache self)) as [r' c].
  by intros [= _ <-].
Qed.

Lemma get_locked_ext (d : Dependency) (allow_similar : bool)
    (self self' : VersionSolver.t) :
  VersionSolver._locked self' = VersionSolver._locked self ->
  VersionSolver._use_latest self' = VersionSolver._use_latest self ->
  VersionSolver._get_locked d allow_similar self'
  = VersionSolver._get_locked d allow_similar self.
Proof.
  intros Hl Hu. unfold VersionSolver._get_locked. by rewrite Hl, Hu.
Qed.

Lemma get_min_single (d : Dependency) (self : VersionSolver.t) :
  single_version d self = true ->
  VersionSolver._get_min d self
  = (Return (negb (marker_is_any d), 1), self).
Proof.
  unfold single_version, VersionSolver._get_min, bind, get.
  case_bool_decide; [done|]. simpl.
  destruct (VersionSolver._get_locked d false self) as [l|]; [done|].
  rewrite bool_decide_eq_false_2 by (by intros [? ?]). simpl.
  by intros ->.
Qed.

Lemma get_min_searched (d : Dependency) (self : VersionSolver.t) :
  single_version d self = false ->
  VersionSolver._get_min d self
  = try_except_ValueError
      (packages <- VersionSolver.call_cache (DependencyCache.search_for d) ;;
       ret (negb (marker_is_any d), Z.of_nat (length packages)))%solver
      (fun _ => ret (negb (marker_is_any d), 0)) self.
Proof.
  unfold single_version, VersionSolver._get_min, bind at 1, get.
  case_bool_decide; [done|]. simpl.
  destruct (VersionSolver._get_locked d false self) as [l|].
  - by rewrite bool_decide_eq_true_2 by eauto.
  - rewrite bool_decide_eq_false_2 by (by intros [? ?]). simpl.
    by intros ->.
Qed.

(** The key that [_get_min] gives a dependency. *)
Lemma get_min_spec (d : Dependency) (self : VersionSolver.t) :
  (single_version d self = true ->
   VersionSolver._get_min d self
   = (Return (negb (marker_is_any d), 1), self))
  /\ (forall packages self',
        single_version d self = false ->
        VersionSolver.call_cache (DependencyCache.search_for d) self
        = (Return packages, self') ->
        VersionSolver._get_min d self
        = (Return (negb (marker_is_any d), Z.of_nat (length packages)),
           self'))
  /\ (forall msg self',
        single_version d self = false ->
        VersionSolver.call_cache (DependencyCache.search_for d) self
        = (Raise (Base (ValueError msg)), self') ->
        VersionSolver._get_min d self
        = (Return (negb (marker_is_any d), 0), self'))
  /\ (forall e self',
        single_version d self = false ->
        VersionSolver.call_cache (DependencyCache.search_for d) self
        = (Raise e, self') ->
        is_ValueError e = false ->
        VersionSolver._get_min d self = (Raise e, self')).
Proof.
  split; [apply get_min_single|].
  split; [|split].
  - intros packages self' Hs Hsearch. rewrite get_min_searched by done.
    apply try_return. by rewrite (bind_return _ _ _ _ _ Hsearch).
  - intros msg self' Hs Hsearch. rewrite get_min_searched by done.
    erewrite try_raise_ValueError; [done|]. by apply bind_raise.
  - intros e self' Hs Hsearch He. rewrite get_min_searched by done.
    apply try_raise_other; [|done]. by apply bind_raise.
Qed.


(** [pick] keeps a minimum: the best is an element whose key no key is
    below, and the first such element. *)
Lemma pick_minimal (l pre : list (Dependency * (bool * Z)))
    (b : Dependency * (bool * Z)) (i : nat) :
  pre !! i = Some b ->
  (forall j x, pre !! j = Some x -> VersionSolver.key_lt x.2 b.2 = false) ->
  (forall j x, (j < i)%nat -> pre !! j = Some x ->
               VersionSolver.key_lt b.2 x.2 = true) ->
  exists i',
    (pre ++ l) !! i' = Some (pick b l)
    /\ (forall j x, (pre ++ l) !! j = Some x ->
                    VersionSolver.key_lt x.2 (pick b l).2 = false)
    /\ (forall j x, (j < i')%nat -> (pre ++ l) !! j = Some x ->
                    VersionSolver.key_lt (pick b l).2 x.2 = true).
Proof.
  revert pre b i. induction l as [|x l IH]; intros pre b i Hb Hmin Hfirst.
  - exists i. rewrite app_nil_r. by simpl.
  - replace (pre ++ x :: l) with ((pre ++ [x]) ++ l)
      by (by rewrite <- app_assoc).
    unfold pick. simpl. fold (pick (if VersionSolver.key_lt x.2 b.2
                                     then x else b) l).
    destruct (VersionSolver.key_lt x.2 b.2) eqn:Hlt.
    + apply (IH (pre ++ [x]) x (length pre)).
      * rewrite lookup_app_r by lia. by rewrite Nat.sub_diag.
      * intros j y Hy. apply lookup_app_Some in Hy as [Hy|[_ Hy]].
        -- by apply (key_lt_below x.2 b.2 y.2), (Hmin j).
        -- apply list_lookup_singleton_Some in Hy as [_ <-].
           apply key_lt_irrefl.
      * intros j y Hj Hy. apply lookup_app_Some in Hy as [Hy|[Hge _]];
          [|lia].
        by apply (key_lt_below x.2 b.2 y.2), (Hmin j).
    + apply (IH (pre ++ [x]) b i).
      * by apply lookup_app_l_Some.
      * intros j y Hy. apply lookup_app_Some in Hy as [Hy|[_ Hy]].
        -- by apply (Hmin j).
        -- by apply list_lookup_singleton_Some in Hy as [_ <-].
      * intros j y Hj Hy. apply lookup_app_Some in Hy as [Hy|[Hge _]].
        -- by apply (Hfirst j).
        -- apply lookup_lt_Some in Hb. lia.
Qed.

Lemma min_rest_pick (rest : list Dependency) (best : Dependency)
    (best_key : bool * Z) (self self' : VersionSolver.t)
    (keyed : list (Dependency * (bool * Z))) :
  get_min_all rest self = (Return keyed, self') ->
  VersionSolver.min_rest best best_key rest self
  = (Return (pick (best, best_key) keyed).1, self').
Proof.
  revert best best_key self keyed.
  induction rest as [|d rest IH]; intros best best_key self keyed; simpl.
  - by intros [= <- <-].
  - unfold bind.
    destruct (VersionSolver._get_min d self) as [[k|e|] s1]; [|done..].
    destruct (get_min_all rest s1) as [[ks|e|] s2] eqn:Hrest; [|done..].
    intros [= <- <-]. unfold pick. simpl.
    destruct (VersionSolver.key_lt k best_key); by apply IH.
Qed.

Lemma min_rest_raises (rest : list Dependency) (best : Dependency)
    (best_key : bool * Z) (self self' : VersionSolver.t) (e : Exception) :
  get_min_all rest self = (Raise e, self') ->
  VersionSolver.min_rest best best_key rest self = (Raise e, self').
Proof.
  revert best best_key self.
  induction rest as [|d rest IH]; intros best best_key self; simpl;
    [done|].
  unfold bind.
  destruct (VersionSolver._get_min d self) as [[k|e'|] s1]; [|by intros [= <- <-]|done].
  destruct (get_min_all rest s1) as [[ks|e'|] s2] eqn:Hrest; [done| |done].
  intros [= <- <-].
  destruct (VersionSolver.key_lt k best_key); by apply IH.
Qed.

Lemma get_min_all_cons (d : Dependency) (ds : list Dependency)
    (self self' : VersionSolver.t)
    (keyed : list (Dependency * (bool * Z))) :
  get_min_all (d :: ds) self = (Return keyed, self') ->
  exists k s1 ks,
    VersionSolver._get_min d self = (Return k, s1)
    /\ get_min_all ds s1 = (Return ks, self')
    /\ keyed = (d, k) :: ks.
Proof.
  simpl. unfold bind, ret.
  destruct (VersionSolver._get_min d self) as [[k|e|] s1]; [|done..].
  destruct (get_min_all ds s1) as [[ks|e|] s2] eqn:Hks; [|done..].
  intros [= <- <-]. by exists k, s1, ks.
Qed.

(** With two or more unsatisfied dependencies, the keys are computed in
    turn and the dependency chosen is the first whose key is minimal. *)
Lemma choose_dependency_minimal (first : Dependency)
    (rest : list Dependency) (self self' : VersionSolver.t)
    (keyed : list (Dependency * (bool * Z))) :
  rest <> [] ->
  get_min_all (first :: rest) self = (Return keyed, self') ->
  exists (i : nat) (d : Dependency) (k : bool * Z),
    VersionSolver.choose_dependency first rest self = (Return d, self')
    /\ keyed !! i = Some (d, k)
    /\ (forall j d' k', keyed !! j = Some (d', k') ->
                        VersionSolver.key_lt k' k = false)
    /\ (forall j d' k', (j < i)%nat -> keyed !! j = Some (d', k') ->
                        VersionSolver.key_lt k k' = true).
Proof.
  intros Hrest (k0 & s1 & ks & Hk0 & Hks & ->)%get_min_all_cons.
  unfold VersionSolver.choose_dependency.
  destruct rest as [|d1 rest]; [done|].
  rewrite (bind_return _ _ _ _ _ Hk0).
  rewrite (min_rest_pick _ _ _ _ _ _ Hks).
  destruct (pick_minimal ks [(first, k0)] (first, k0) 0)
    as (i & Hi & Hmin & Hfirst).
  - done.
  - intros j x Hx. apply list_lookup_singleton_Some in Hx as [_ <-].
    apply key_lt_irrefl.
  - intros j x Hj. lia.
  - destruct (pick (first, k0) ks) as [d k] eqn:Hpick.
    exists i, d, k. split; [done|]. split; [done|]. split.
    + intros j d' k' Hj. apply (Hmin j (d', k') Hj).
    + intros j d' k' Hlt Hj. apply (Hfirst j (d', k') Hlt Hj).
Qed.

Lemma get_min_all_dependencies (ds : list Dependency)
    (self self' : VersionSolver.t)
    (keyed : list (Dependency * (bool * Z))) :
  get_min_all ds self = (Return keyed, self') -> keyed.*1 = ds.
Proof.
  revert self keyed. induction ds as [|d ds IH]; intros self keyed; simpl.
  - by intros [= <- _].
  - unfold bind.
    destruct (VersionSolver._get_min d self) as [[k|e|] s1]; [|done..].
    destruct (get_min_all ds s1) as [[ks|e|] s2] eqn:Hks; [|done..].
    intros [= <- <-]. simpl. f_equal. by eapply IH.
Qed.

Lemma get_min_all_keys (ds : list Dependency)
    (self self' : VersionSolver.t)
    (keyed : list (Dependency * (bool * Z))) :
  get_min_all ds self = (Return keyed, self') ->
  forall d k, (d, k) ∈ keyed ->
    exists s s', VersionSolver._get_min d s = (Return k, s').
Proof.
  revert self keyed. induction ds as [|d ds IH]; intros self keyed; simpl.
  - intros [= <- _] d k Hin. by apply elem_of_nil in Hin.
  - unfold bind.
    destruct (VersionSolver._get_min d self) as [[k|e|] s1] eqn:Hk;
      [|done..].
    destruct (get_min_all ds s1) as [[ks|e|] s2] eqn:Hks; [|done..].
    intros [= <- <-] d' k' [[= -> ->]|Hin]%elem_of_cons; [by eauto|].
    by eapply IH.
Qed.

Lemma choose_package_version_none (self : VersionSolver.t) :
  unsatisfied (VersionSolver._solution self) = [] ->
  VersionSolver._choose_package_version self = (Return None, self).
Proof.
  intros Hnone. unfold VersionSolver._choose_package_version, bind, get.
  by rewrite Hnone.
Qed.

Lemma choose_package_version_chosen (self s1 : VersionSolver.t)
    (first d : Dependency) (rest : list Dependency) :
  unsatisfied (VersionSolver._solution self) = first :: rest ->
  VersionSolver.choose_dependency first rest self = (Return d, s1) ->
  VersionSolver._choose_package_version self
  = (chosen <- VersionSolver.choose_package d ;;
     match chosen with
     | None => ret (Some (complete_name d))
     | Some p => VersionSolver.decide_version d p
     end)%solver s1.
Proof.
  intros Hu Hd. unfold VersionSolver._choose_package_version.
  unfold bind at 1, get. rewrite Hu.
  by rewrite (bind_return _ _ _ _ _ Hd).
Qed.
End ChooseDependency.

Section ChoosePackage.
Context `{Provider, !TermAlgebra, !PartialSolutions, !Interpreter}.

Lemma choose_package_locked (d : Dependency) (self : VersionSolver.t)
    (locked : DependencyPackage) :
  VersionSolver._get_locked d false self = Some locked ->
  VersionSolver.choose_package d self = (Return (Some locked), self).
Proof.
  intros Hlocked. unfold VersionSolver.choose_package, bind, get.
  by rewrite Hlocked.
Qed.

(** Without a locked package, [search_for] is consulted, and the choice is
    made among what it returns. *)
Lemma choose_package_searched (d : Dependency)
    (self self' : VersionSolver.t) (packages : list DependencyPackage) :
  VersionSolver._get_locked d false self = None ->
  VersionSolver.call_cache (DependencyCache.search_for d) self
  = (Return packages, self') ->
  VersionSolver.choose_package d self
  = match VersionSolver.choose_candidate d packages self with
    | Some p => (Return (Some p), self')
    | None =>
        (Return None,
         (VersionSolver._add_incompatibility
            (positive_incompatibility d NoVersionsCause) self').2)
    end.
Proof.
  intros Hlocked Hsearch. unfold VersionSolver.choose_package.
  rewrite bind_get, Hlocked.
  erewrite bind_return;
    [|apply try_return; by rewrite (bind_return _ _ _ _ _ Hsearch)].
  cbn beta iota. rewrite bind_get.
  destruct (call_cache_keeps _ _ _ _ _ Hsearch) as (Hl & Hu & _).
  assert (VersionSolver.choose_candidate d packages self'
          = VersionSolver.choose_candidate d packages self) as ->.
  { unfold VersionSolver.choose_candidate.
    by rewrite Hu, (get_locked_ext d true self self' Hl Hu). }
  by destruct (VersionSolver.choose_candidate d packages self).
Qed.

Lemma choose_package_not_found (d : Dependency)
    (self self' : VersionSolver.t) (msg : string) :
  VersionSolver._get_locked d false self = None ->
  VersionSolver.call_cache (DependencyCache.search_for d) self
  = (Raise (Base (ValueError msg)), self') ->
  VersionSolver.choose_package d self
  = (Return None,
     (VersionSolver._add_incompatibility
        (positive_incompatibility d (PackageNotFoundCause (ValueError msg)))
        self').2).
Proof.
  intros Hlocked Hsearch. unfold VersionSolver.choose_package.
  unfold bind at 1, get. rewrite Hlocked.
  erewrite bind_return;
    [|erewrite try_raise_ValueError; [done|by apply bind_raise]].
  done.
Qed.

Lemma choose_package_raises (d : Dependency)
    (self self' : VersionSolver.t) (e : Exception) :
  VersionSolver._get_locked d false self = None ->
  VersionSolver.call_cache (DependencyCache.search_for d) self
  = (Raise e, self') ->
  is_ValueError e = false ->
  VersionSolver.choose_package d self = (Raise e, self').
Proof.
  intros Hlocked Hsearch He. unfold VersionSolver.choose_package.
  unfold bind at 1, get. rewrite Hlocked.
  apply bind_raise, try_raise_other; [|done]. by apply bind_raise.
Qed.

Lemma with_version_of_Some (locked p : DependencyPackage)
    (packages : list DependencyPackage) :
  VersionSolver.with_version_of locked packages = Some p ->
  p ∈ packages /\ version p = version locked.
Proof.
  intros [Hin Hv%bool_decide_eq_true]%find_some.
  split; [by apply list_elem_of_In|done].
Qed.

Lemma with_version_of_None (locked : DependencyPackage)
    (packages : list DependencyPackage) :
  VersionSolver.with_version_of locked packages = None <->
  forall p, p ∈ packages -> version p <> version locked.
Proof.
  unfold VersionSolver.with_version_of. split.
  - intros Hnone p Hin%list_elem_of_In.
    by apply (find_none _ _ Hnone), bool_decide_eq_false in Hin.
  - intros Hall. destruct (List.find _ _) as [p|] eqn:Hfind; [|done].
    apply find_some in Hfind as [Hin%list_elem_of_In Hv%bool_decide_eq_true].
    by destruct (Hall p Hin).
Qed.

(** The candidate taken: the one with the version of the similar locked
    package if there is one, the first candidate otherwise. *)
Lemma choose_candidate_spec (d : Dependency)
    (packages : list DependencyPackage) (self : VersionSolver.t) :
  VersionSolver.choose_candidate d packages self
  = match VersionSolver._get_locked d true self with
    | Some similar =>
        match VersionSolver.with_version_of similar packages with
        | Some p => Some p
        | None => head packages
        end
    | None => head packages
    end.
Proof.
  unfold VersionSolver.choose_candidate.
  case_bool_decide as Hlatest.
  - destruct (VersionSolver._get_locked d true self) as [similar|]; [|done].
    by destruct (VersionSolver.with_version_of similar packages).
  - by rewrite (get_locked_use_latest d true self Hlatest).
Qed.

(** C7: with the chosen dependency, if a locked package matches it (which
    requires that the dependency is not in [use_latest]), that locked
    package is taken; otherwise [search_for] is consulted and, among the
    candidates, the solver takes the one whose version is that of the
    similar locked package ([_get_locked] with [allow_similar=True]) when
    that version appears among them, and only if there is no such
    candidate the first (newest) one; an empty list of candidates gives a
    [NoVersionsCause] incompatibility.  The package taken is the one
    handed on to [complete_package]. *)
Theorem choose_package_prefers_locked_then_similar (d : Dependency)
    (self : VersionSolver.t) :
  (forall locked : DependencyPackage,
      VersionSolver._get_locked d false self = Some locked ->
      VersionSolver.choose_package d self = (Return (Some locked), self)
      /\ (name d ∉ VersionSolver._use_latest self)
      /\ exists q,
           In q (default [] (VersionSolver._locked self !! name d))
           /\ VersionSolver.locked_matches d false q = true
           /\ locked = {| dependency := d; package := package q |})
  /\ (forall (packages : list DependencyPackage) (self' : VersionSolver.t),
        VersionSolver._get_locked d false self = None ->
        VersionSolver.call_cache (DependencyCache.search_for d) self
        = (Return packages, self') ->
        (forall similar p : DependencyPackage,
            VersionSolver._get_locked d true self = Some similar ->
            VersionSolver.with_version_of similar packages = Some p ->
            VersionSolver.choose_package d self = (Return (Some p), self')
            /\ p ∈ packages
            /\ version p = version similar)
        /\ (forall (p : DependencyPackage) (rest : list DependencyPackage),
              packages = p :: rest ->
              (VersionSolver._get_locked d true self = None
               \/ exists similar,
                    VersionSolver._get_locked d true self = Some similar
                    /\ forall q, q ∈ packages ->
                                 version q <> version similar) ->
              VersionSolver.choose_package d self
              = (Return (Some p), self'))
        /\ (packages = [] ->
            VersionSolver.choose_package d self
            = (Return None,
               (VersionSolver._add_incompatibility
                  (positive_incompatibility d NoVersionsCause) self').2)))
  /\ (forall (first : Dependency) (rest : list Dependency)
             (s0 s1 : VersionSolver.t) (p : DependencyPackage),
        unsatisfied (VersionSolver._solution s0) = first :: rest ->
        VersionSolver.choose_dependency first rest s0 = (Return d, self) ->
        VersionSolver.choose_package d self = (Return (Some p), s1) ->
        VersionSolver._choose_package_version s0
        = VersionSolver.decide_version d p s1).
Proof.
  split; [|split].
  - intros locked Hlocked. split; [by apply choose_package_locked|].
    by apply get_locked_Some.
  - intros packages self' Hlocked Hsearch.
    rewrite (choose_package_searched d self self' packages Hlocked Hsearch).
    rewrite choose_candidate_spec.
    split; [|split].
    + intros similar p -> Hp. rewrite Hp.
      split; [done|]. by apply with_version_of_Some in Hp.
    + intros p rest -> [-> | (similar & -> & Hnone)]; [done|].
      apply with_version_of_None in Hnone. by rewrite Hnone.
    + intros ->.
      by destruct (VersionSolver._get_locked d true self) as [similar|].
  - intros first rest s0 s1 p Hu Hd Hp.
    rewrite (choose_package_version_chosen s0 self first d rest Hu Hd).
    by rewrite (bind_return _ _ _ _ _ Hp).
Qed.
End ChoosePackage.

Section ChoosePackageVersion.
Context `{Provider, !TermAlgebra, !PartialSolutions, !Interpreter}.

End ChoosePackageVersion.

(** ** version_solver.py: the errors of [solve] *)

Section SolveErrors.
Context `{Provider, !TermAlgebra, !PartialSolutions, !Interpreter}.

Lemma resolve_conflict_raises_at_failure (self : VersionSolver.t)
    (original failure : Incompatibility) (rounds fuel : nat) :
  resolution_rounds rounds self original = Some failure ->
  is_failure failure = true ->
  (rounds <= fuel)%nat ->
  VersionSolver._resolve_conflict fuel original self
  = (Raise (SolveFailure failure), self).
Proof.
  intros Hrounds Hfailure Hfuel.
  replace fuel with (rounds + (fuel - rounds))%nat by lia.
  unfold VersionSolver._resolve_conflict.
  rewrite (resolve_conflict_loop_rounds _ _ _ _ _ _ Hrounds).
  by apply resolve_conflict_loop_failure.
Qed.

Lemma resolution_round_cause (self : VersionSolver.t)
    (i next : Incompatibility) :
  resolution_round self i = Some next ->
  exists recent_cause, cause next = ConflictCause i recent_cause.
Proof.
  unfold resolution_round.
  destruct (is_failure i); [done|].
  destruct (VersionSolver.most_recent_satisfier _) as [recent|]; [|done].
  destruct (VersionSolver.is_root_cause _ recent); [done|].
  destruct (assignment_cause recent) as [rc|]; [|done].
  intros [= <-]. by exists rc.
Qed.

Lemma decide_version_raises_complete (d : Dependency)
    (p : DependencyPackage) (self self' : VersionSolver.t) (e : Exception) :
  VersionSolver.call_provider (provider_complete_package p) self
  = (Raise e, self') ->
  VersionSolver.decide_version d p self = (Raise e, self').
Proof. intros Hraise. by apply bind_raise. Qed.

Lemma decide_version_raises_incompatibilities (d : Dependency)
    (p p' : DependencyPackage) (self s1 s2 : VersionSolver.t)
    (e : Exception) :
  VersionSolver.call_provider (provider_complete_package p) self
  = (Return p', s1) ->
  VersionSolver.call_provider (provider_incompatibilities_for p') s1
  = (Raise e, s2) ->
  VersionSolver.decide_version d p self = (Raise e, s2).
Proof.
  intros Hp Hraise. unfold VersionSolver.decide_version.
  rewrite (bind_return _ _ _ _ _ Hp). by apply bind_raise.
Qed.

Lemma choose_package_version_raises (self s1 : VersionSolver.t)
    (first : Dependency) (rest : list Dependency) (e : Exception) :
  unsatisfied (VersionSolver._solution self) = first :: rest ->
  (VersionSolver.choose_dependency first rest self = (Raise e, s1)
   \/ exists d s0,
        VersionSolver.choose_dependency first rest self = (Return d, s0)
        /\ (VersionSolver.choose_package d s0 = (Raise e, s1)
            \/ exists p s0',
                 VersionSolver.choose_package d s0 = (Return (Some p), s0')
                 /\ VersionSolver.decide_version d p s0' = (Raise e, s1))) ->
  VersionSolver._choose_package_version self = (Raise e, s1).
Proof.
  intros Hu [Hd|(d & s0 & Hd & Hrest)].
  - unfold VersionSolver._choose_package_version.
    rewrite bind_get, Hu. by apply bind_raise.
  - rewrite (choose_package_version_chosen self s0 first d rest Hu Hd).
    destruct Hrest as [Hp|(p & s0' & Hp & Hv)].
    + by apply bind_raise.
    + by rewrite (bind_return _ _ _ _ _ Hp).
Qed.

Lemma solve_loop_raises (fuel : nat) (next : string)
    (self s1 : VersionSolver.t) (e : Exception) :
  (VersionSolver._propagate (S fuel) next self = (Raise e, s1)
   \/ exists s0,
        VersionSolver._propagate (S fuel) next self = (Return tt, s0)
        /\ VersionSolver._choose_package_version s0 = (Raise e, s1)) ->
  VersionSolver.solve_loop (S fuel) (Some next) self = (Raise e, s1).
Proof.
  intros [Hp|(s0 & Hp & Hc)]; cbn [VersionSolver.solve_loop].
  - by apply bind_raise.
  - rewrite (bind_return _ _ _ _ _ Hp). by apply bind_raise.
Qed.

Lemma solve_unfold (fuel : nat) (self : VersionSolver.t) :
  VersionSolver.solve fuel self
  = VersionSolver.solve_loop fuel
      (Some (VersionSolver.project_name (VersionSolver._root self)))
      (VersionSolver._add_incompatibility
         (VersionSolver.root_incompatibility (VersionSolver._root self))
         self).2.
Proof. done. Qed.

End SolveErrors.

(** * The properties on the small world *)

Module Scenarios.
Import Example.
#[local] Existing Instance versions.
#[local] Existing Instance packages.
#[local] Existing Instance term_algebra.
#[local] Existing Instance partial_solutions.
#[local] Existing Instance interpreter.
Local Open Scope nat_scope.

(** ** The scenarios of the specification *)

Example scenario_trivial :
  solved trivial [] None None 20 = Return [("foo", 120)].
Proof. vm_compute. reflexivity. Qed.

Example scenario_backjump :
  solved backjump [] None None 20 = Return [("b", 90); ("a", 200)].
Proof. vm_compute. reflexivity. Qed.

Example scenario_failure :
  exists failure,
    solved failing [] None None 20 = Raise (SolveFailure failure)
    /\ terms failure
       = [{| term_dependency := to_dependency root_package;
             is_positive := true |}].
Proof. eexists. split; vm_compute; reflexivity. Qed.

Example scenario_locked_preference :
  solved three_x [] (Some {[ "x" := [locked_package "x" 110 false] ]})
    None 20
  = Return [("x", 110)]
  /\ solved three_x [] (Some {[ "x" := [locked_package "x" 110 false] ]})
       (Some ["x"]) 20
     = Return [("x", 130)].
Proof. split; vm_compute; reflexivity. Qed.

Example scenario_extras_similarity :
  solved three_pkg []
    (Some {[ "pkg" := [locked_package "pkg" 110 false] ]}) None 20
  = Return [("pkg[extra]", 110)].
Proof. vm_compute. reflexivity. Qed.

(** ** The start of [solve] *)

(** C1 (as stated) fails: the incompatibility that [solve()] adds for the
    root "root" 1.0.0 is not one whose single term is positive. *)
Lemma root_term_is_not_positive :
  ~ exists (i : Incompatibility) (t : Term),
      VersionSolver._incompatibilities
        (VersionSolver._add_incompatibility
           (VersionSolver.root_incompatibility root)
           (solver trivial [] None None)).2 !! "root"
      = Some [i]
      /\ terms i = [t]
      /\ is_positive t = true.
Proof.
  intros (i & t & Hi & Ht & Hp). vm_compute in Hi.
  injection Hi as <-. injection Ht as <-. discriminate Hp.
Qed.

(** ** The cache *)

(** C2 at the failing input: after [search_for(foo >=1.0,<1.2)] and
    [search_for(foo >=1.1,<1.3)], which narrowed the list to foo 1.1.0,
    and a [clear()], the call [search_for(foo >=1.1,<1.3)] returns the
    narrowed list foo 1.1.0 again: the provider, which would list foo
    1.2.0 and foo 1.1.0, is not asked (it has been asked once in all), and
    the cache stays empty. *)
Lemma search_for_after_clear_returns_narrowed_list :
  (DependencyCache.search_for foo_old fresh_cache).1
  = Return [candidate foo_old 110; candidate foo_old 100]
  /\ (DependencyCache.search_for foo_new searched_old).1
     = Return [candidate foo_old 110]
  /\ DependencyCache.cache cleared = ∅
  /\ DependencyCache.provider cleared = 1
  /\ (DependencyCache.search_for foo_new cleared).1
     = Return [candidate foo_old 110]
  /\ DependencyCache.provider (DependencyCache.search_for foo_new cleared).2
     = 1
  /\ DependencyCache.cache (DependencyCache.search_for foo_new cleared).2
     = ∅
  /\ (provider_search_for (Provider := provider_of trivial []) foo_new 1).1
     = Return [candidate foo_new 120; candidate foo_new 110].
Proof. repeat split; vm_compute; reflexivity. Qed.

(** C8 (as stated) fails: with no [clear()] in between,
    [search_for(foo >=1.0,<1.2)] returns foo 1.1.0 and 1.0.0,
    [search_for(foo >=1.1,<1.3)] narrows the stored list to foo 1.1.0, and
    [search_for(foo >=1.0,<1.2)] again returns foo 1.1.0 and 1.0.0: not
    the stored list filtered, and not a subset of the result before. *)
Lemma remembered_search_for_does_not_narrow :
  let first := DependencyCache.search_for foo_old fresh_cache in
  let second := DependencyCache.search_for foo_new first.2 in
  let third := DependencyCache.search_for foo_old second.2 in
  first.1 = Return [candidate foo_old 110; candidate foo_old 100]
  /\ second.1 = Return [candidate foo_old 110]
  /\ DependencyCache.cache second.2 !! DependencyCache.key_of foo_old
     = Some [candidate foo_old 110]
  /\ third.1 = Return [candidate foo_old 110; candidate foo_old 100]
  /\ [candidate foo_old 110; candidate foo_old 100]
     <> List.filter (fun p => allows (constraint foo_old) (version p))
          [candidate foo_old 110]
  /\ ~ [candidate foo_old 110; candidate foo_old 100]
       ⊆ [candidate foo_old 110].
Proof.
  repeat split; try (vm_compute; reflexivity).
  - intros Heq. apply (f_equal length) in Heq. discriminate Heq.
  - intros Hsub.
    assert (candidate foo_old 100 ∈ [candidate foo_old 110]) as Hin
      by (apply Hsub; right; left).
    apply list_elem_of_singleton in Hin. discriminate Hin.
Qed.

(** ** [_propagate_incompatibility] *)

(** C3 (as stated) fails: the solution knows that c is 1.0.0 and nothing
    of a and b; of the terms a 1.0.0, b 1.0.0, c 2.0.0 the last is
    [DISJOINT], but the loop ends at b, the second [OVERLAPPING] term, and
    [None] is returned without marking the incompatibility
    contradicted. *)
Lemma disjoint_term_behind_two_overlapping_terms :
  terms a_b_c = [positive "a" [100]; positive "b" [100]; positive "c" [200]]
  /\ relation (VersionSolver._solution knowing_c) (positive "a" [100])
     = OVERLAPPING
  /\ relation (VersionSolver._solution knowing_c) (positive "b" [100])
     = OVERLAPPING
  /\ relation (VersionSolver._solution knowing_c) (positive "c" [200])
     = DISJOINT
  /\ VersionSolver._propagate_incompatibility a_b_c knowing_c
     = (Return VersionSolver.nothing, knowing_c)
  /\ a_b_c ∉ VersionSolver._contradicted_incompatibilities knowing_c.
Proof.
  repeat split; try (vm_compute; reflexivity).
  intros Hin. vm_compute in Hin. by apply elem_of_nil in Hin.
Qed.

(** ** The errors of [solve] *)



(** The provider of the examples raises the three errors of
    [example_error] and no other. *)
Lemma example_provider_raises_only (repo : repository)
    (failing : list (string * failure)) :
  provider_raises_only (H1 := provider_of repo failing) example_error.
Proof.
  split; [|split].
  - intros d s s' e. simpl. unfold example_search_for.
    destruct (fails failing (name d) not_found);
      [intros [= <- _]; by left|].
    destruct (fails failing (name d) transport);
      [intros [= <- _]; right; by left|done].
  - intros p s s' e. simpl. unfold example_complete_package.
    destruct (fails failing _ incomplete);
      [intros [= <- _]; right; by right|done].
  - intros p s s' e. simpl. unfold example_incompatibilities_for.
    destruct (fails failing _ undeclared);
      [intros [= <- _]; right; by right|done].
Qed.
End Scenarios.

(** * The properties at work on the small world *)

Module Witnesses.
Import Example.
#[local] Existing Instance versions.
#[local] Existing Instance packages.
#[local] Existing Instance term_algebra.
#[local] Existing Instance partial_solutions.
#[local] Existing Instance interpreter.
Local Open Scope nat_scope.

Ltac computed := vm_compute; reflexivity.
(* Runs a call: its outcome is computed, its final state is named and
   left alone. *)
Ltac run call result :=
  let Hrun := fresh "Hrun" in
  let Hran := fresh "Hran" in
  let o := fresh "o" in
  let final := fresh "final" in
  assert (Hrun : call.1 = result) by (vm_compute; reflexivity);
  destruct call as [o final] eqn:Hran; simpl in Hrun; subst o.
Ltac absent :=
  let H := fresh in intros H; vm_compute in H; inversion H.
Ltac present := vm_compute; constructor.

(** The locked prerelease x 1.1.0rc is returned for x ==1.1.0, whose
    constraint allows the next patch only; with x in [use_latest] nothing
    is returned. *)
Lemma get_locked_prerelease_witness :
  allows (constraint (dep "x" [110]))
    (version (locked_package "x" 109 true)) = false
  /\ VersionSolver._get_locked (dep "x" [110]) false
       (solver three_x [] (Some x_prerelease_locked) None)
     = Some {| dependency := dep "x" [110];
               package := package (locked_package "x" 109 true) |}
  /\ forall allow_similar : bool,
       VersionSolver._get_locked (dep "x" [110]) allow_similar
         (solver three_x [] (Some x_prerelease_locked) (Some ["x"]))
       = None.
Proof.
  split; [computed|]. split.
  - destruct (get_locked_prerelease_next_patch_and_use_latest
                (solver three_x [] (Some x_prerelease_locked) None)
                (dep "x" [110])) as [Hreturns _].
    apply (Hreturns false [] [] (locked_package "x" 109 true)).
    + absent.
    + computed.
    + intros q [].
    + right. computed.
    + computed.
    + computed.
    + computed.
  - destruct (get_locked_prerelease_next_patch_and_use_latest
                (solver three_x [] (Some x_prerelease_locked) (Some ["x"]))
                (dep "x" [110])) as [_ Hlatest].
    apply Hlatest. present.
Defined.

(** The four cases of [_propagate_incompatibility] on the solver that
    knows that c is 1.0.0. *)
Lemma propagate_incompatibility_witness :
  VersionSolver._propagate_incompatibility only_c knowing_c
  = (Return VersionSolver.conflict, knowing_c)
  /\ (VersionSolver._propagate_incompatibility not_c knowing_c).1
     = Return VersionSolver.nothing
  /\ not_c ∈ VersionSolver._contradicted_incompatibilities
               (VersionSolver._propagate_incompatibility not_c knowing_c).2
  /\ (VersionSolver._propagate_incompatibility a_b knowing_c).1
     = Return VersionSolver.nothing
  /\ (VersionSolver._propagate_incompatibility c_a knowing_c).1
     = Return (VersionSolver.derived "a")
  /\ c_a ∈ VersionSolver._contradicted_incompatibilities
             (VersionSolver._propagate_incompatibility c_a knowing_c).2.
Proof.
  assert (Hconflict :
    forall t, t ∈ terms only_c ->
      relation (VersionSolver._solution knowing_c) t = SUBSET).
  { intros t Ht. apply list_elem_of_singleton in Ht. subst t. computed. }
  destruct (propagate_incompatibility_cases only_c knowing_c)
    as (_ & Hall & _).
  destruct (propagate_incompatibility_cases not_c knowing_c)
    as (_ & _ & Hdisjoint & _).
  destruct (propagate_incompatibility_cases a_b knowing_c)
    as (_ & _ & _ & Htwo & _).
  destruct (propagate_incompatibility_cases c_a knowing_c)
    as (_ & _ & _ & _ & Hone).
  destruct (Hdisjoint [] [] (positive "c" [200])) as [Hd1 Hd2];
    [computed|computed|computed|vm_compute; lia|].
  destruct Htwo as [Ht1 _]; [vm_compute; lia|].
  destruct (Hone (positive "a" [100])) as [Ho1 Ho2]; [computed|computed|].
  split; [exact (Hall Hconflict)|].
  split; [by rewrite Hd1|].
  split; [by rewrite Hd1|].
  split; [exact Ht1|].
  split; [by rewrite Ho1|by rewrite Ho1].
Defined.

(** The cache narrows on a call that is not remembered, answers a
    remembered call from the table, also when the dependency comes with
    another marker, and the stored list only shrinks. *)
Lemma search_for_narrowing_witness :
  (exists self',
      DependencyCache.search_for foo_new searched_old
      = (Return [candidate foo_old 110], self')
      /\ DependencyCache.cache self' !! DependencyCache.key_of foo_new
         = Some [candidate foo_old 110])
  /\ (exists self',
        DependencyCache.search_for foo_old_marked searched_new
        = (Return [candidate foo_old 110; candidate foo_old 100], self')
        /\ DependencyCache.cache self' = DependencyCache.cache searched_new)
  /\ (exists stored',
        DependencyCache.cache
          (after_searches [foo_new; foo_old] searched_old)
        !! DependencyCache.key_of foo_old = Some stored'
        /\ sublist stored' [candidate foo_old 110; candidate foo_old 100]).
Proof.
  destruct (search_for_narrows_unless_remembered foo_new searched_old)
    as (Hnarrow & _ & Hseries).
  destruct (search_for_narrows_unless_remembered foo_old_marked
              searched_new)
    as (_ & Hremembered & _).
  split; [|split].
  - destruct (Hnarrow [candidate foo_old 110; candidate foo_old 100])
      as (self' & Hcall & Hstored & _); [computed|computed|].
    exists self'. split; [exact Hcall|exact Hstored].
  - destruct (Hremembered foo_old
                [candidate foo_old 110; candidate foo_old 100]
                [(foo_new, [candidate foo_old 110])])
      as (self' & Hcall & Hcache & _); [computed|].
    exists self'. split; [exact Hcall|exact Hcache].
  - apply (Hseries [foo_new; foo_old]). computed.
Defined.

(** "Backjump": the conflict on [a_needs_b] is resolved in one round to
    [every_a_needs_b], whose most recent satisfier is the decision of b
    1.0.0; the solver backjumps to level 1 and adds the learned
    incompatibility to the index. *)
Lemma backjump_after_one_round_witness :
  exists self',
    VersionSolver._resolve_conflict 2 a_needs_b at_conflict
    = (Return every_a_needs_b, self')
    /\ VersionSolver._solution self'
       = backtrack 1%Z (VersionSolver._solution at_conflict)
    /\ VersionSolver._contradicted_incompatibilities self' = []
    /\ DependencyCache.cache (VersionSolver._dependency_cache self') = ∅
    /\ VersionSolver._incompatibilities self'
       = VersionSolver._incompatibilities
           (VersionSolver._add_incompatibility every_a_needs_b
              at_conflict).2.
Proof.
  destruct (resolve_conflict_backjumps at_conflict a_needs_b
              every_a_needs_b 1 2 decision_b)
    as (self' & Hcall & _ & Hsolution & Hcontradicted & _ & Hcache & Hindex).
  - computed.
  - computed.
  - computed.
  - right. computed.
  - lia.
  - exists self'. split; [exact Hcall|]. split; [exact Hsolution|].
    split; [exact Hcontradicted|]. split; [exact Hcache|exact Hindex].
Defined.

(** "Locked preference", "Extras similarity" and their neighbours: the
    locked x 1.1.0 is taken for x; for pkg[extra], which the locked pkg
    1.1.0 does not match, the candidate with the version of the similar
    locked package; with no lock, the newest candidate; with no candidate,
    none. *)
Lemma choose_package_witness :
  VersionSolver.choose_package x_any (choosing three_x [] (Some x_locked) None)
  = (Return (Some {| dependency := x_any;
                     package := package (locked_package "x" 110 false) |}),
     choosing three_x [] (Some x_locked) None)
  /\ (exists s1,
        VersionSolver.choose_package pkg_extra
          (choosing three_pkg [] (Some pkg_locked) None)
        = (Return (Some (candidate pkg_extra 110)), s1)
        /\ VersionSolver._choose_package_version
             (choosing three_pkg [] (Some pkg_locked) None)
           = VersionSolver.decide_version pkg_extra
               (candidate pkg_extra 110) s1)
  /\ (VersionSolver.choose_package x_any (choosing three_x [] None None)).1
     = Return (Some (candidate x_any 130))
  /\ (VersionSolver.choose_package (dep "x" [140])
        (choosing three_x [] None None)).1
     = Return None.
Proof.
  destruct (choose_package_prefers_locked_then_similar x_any
              (choosing three_x [] (Some x_locked) None))
    as (Hlocked & _ & _).
  destruct (choose_package_prefers_locked_then_similar pkg_extra
              (choosing three_pkg [] (Some pkg_locked) None))
    as (_ & Hsearched & Hhanded).
  destruct (choose_package_prefers_locked_then_similar x_any
              (choosing three_x [] None None))
    as (_ & Hnewest & _).
  destruct (choose_package_prefers_locked_then_similar (dep "x" [140])
              (choosing three_x [] None None))
    as (_ & Hnone & _).
  split; [|split; [|split]].
  - apply Hlocked. computed.
  - run (VersionSolver.call_cache (DependencyCache.search_for pkg_extra)
           (choosing three_pkg [] (Some pkg_locked) None))
        (Return [candidate pkg_extra 130; candidate pkg_extra 120;
                 candidate pkg_extra 110]).
    destruct (Hsearched _ _ ltac:(computed) eq_refl) as (Hsimilar & _).
    destruct (Hsimilar (candidate pkg_extra 110) (candidate pkg_extra 110))
      as (Hcall & _); [computed|computed|].
    eexists. split; [exact Hcall|].
    apply (Hhanded pkg_extra []); [computed|reflexivity|exact Hcall].
  - run (VersionSolver.call_cache (DependencyCache.search_for x_any)
           (choosing three_x [] None None))
        (Return [candidate x_any 130; candidate x_any 120;
                 candidate x_any 110]).
    destruct (Hnewest _ _ ltac:(computed) eq_refl) as (_ & Hfirst & _).
    rewrite (Hfirst _ _ eq_refl); [reflexivity|left; computed].
  - run (VersionSolver.call_cache
           (DependencyCache.search_for (dep "x" [140]))
           (choosing three_x [] None None))
        (Return (@nil DependencyPackage)).
    destruct (Hnone _ _ ltac:(computed) eq_refl) as (_ & _ & Hempty).
    by rewrite Hempty.
Defined.


End Witnesses.

(** * Further properties of the two files *)

(** ** package_collection.py: what a collection keeps of its elements *)

Section PackageCollectionMore.
Context `{Packages}.

Lemma init_items (d : Dependency)
    (packages : option (list PackageCollection.element)) :
  PackageCollection.__init__ d packages
  = {| PackageCollection._dependency := d;
       PackageCollection.items :=
         map (fun e => {| dependency := d;
                          package := PackageCollection.underlying e |})
           (default [] packages) |}.
Proof.
  unfold PackageCollection.__init__.
  destruct packages as [packages|]; [|done].
  pose proof (appends_spec packages
                {| PackageCollection._dependency := d;
                   PackageCollection.items := [] |}) as [Hd Hi].
  simpl in *.
  destruct (fold_left _ packages _) as [d' items']. simpl in *. by subst.
Qed.

(** X1: A collection keeps of its elements the underlying packages only.
    Unwrapping the elements before they are handed over makes no difference,
    and the elements of a collection made for one dependency, handed to a
    collection for another, give the collection that the original elements
    would have given: nothing of the first dependency is left.  With the
    same dependency the collection is rebuilt as it was. *)
Theorem PackageCollection_keeps_underlying_packages_only
    (d d' : Dependency)
    (packages : option (list PackageCollection.element)) :
  PackageCollection.__init__ d
    (map (fun e => PackageCollection.plain (PackageCollection.underlying e))
       <$> packages)
  = PackageCollection.__init__ d packages
  /\ PackageCollection.__init__ d'
       (Some (map PackageCollection.wrapped
                (PackageCollection.items
                   (PackageCollection.__init__ d packages))))
     = PackageCollection.__init__ d' packages
  /\ PackageCollection.__init__ d
       (Some (map PackageCollection.wrapped
                (PackageCollection.items
                   (PackageCollection.__init__ d packages))))
     = PackageCollection.__init__ d packages.
Proof.
  assert (Hagain : forall d1 d2,
    PackageCollection.__init__ d2
      (Some (map PackageCollection.wrapped
               (PackageCollection.items
                  (PackageCollection.__init__ d1 packages))))
    = PackageCollection.__init__ d2 packages).
  { intros d1 d2. rewrite !init_items. simpl. f_equal.
    rewrite !map_map. by destruct packages. }
  split; [|split; apply Hagain].
  rewrite !init_items. f_equal.
  destruct packages as [packages|]; simpl; [|done].
  by rewrite map_map.
Qed.
End PackageCollectionMore.

(** ** version_solver.py: more on [DependencyCache.search_for] *)

Section DependencyCacheMore.
Context `{Provider}.

(** The body of [search_for] never changes the table of the decorator. *)
Lemma search_for_body_memo (d : Dependency) (self : DependencyCache.t) :
  DependencyCache.memo (DependencyCache.search_for_body d self).2
  = DependencyCache.memo self.
Proof.
  destruct (DependencyCache.cache self !! DependencyCache.key_of d)
    as [stored|] eqn:Hk.
  - by rewrite (search_for_body_stored _ _ _ Hk).
  - rewrite (search_for_body_fresh _ _ Hk).
    by destruct (provider_search_for d (DependencyCache.provider self))
      as [[packages|e|] p].
Qed.

(** The body raises only when the provider does, on a key that the cache
    does not hold, and then it stores nothing. *)
Lemma search_for_body_raises (d : Dependency)
    (self self' : DependencyCache.t) (e : Exception) :
  DependencyCache.search_for_body d self = (Raise e, self') ->
  DependencyCache.cache self !! DependencyCache.key_of d = None
  /\ provider_search_for d (DependencyCache.provider self)
     = (Raise e, DependencyCache.provider self')
  /\ DependencyCache.cache self' = DependencyCache.cache self
  /\ DependencyCache.memo self' = DependencyCache.memo self.
Proof.
  destruct (DependencyCache.cache self !! DependencyCache.key_of d)
    as [stored|] eqn:Hk.
  - by rewrite (search_for_body_stored _ _ _ Hk).
  - rewrite (search_for_body_fresh _ _ Hk).
    destruct (provider_search_for d (DependencyCache.provider self))
      as [[packages|e'|] p]; [done| |done].
    by intros [= <- <-].
Qed.

(** X2: When [search_for(dependency)] raises, it is the provider that
    raised, asked because neither the table of the decorator nor the cache
    had an answer; the exception is passed on as it is, and nothing is
    stored or remembered: the cache and the table are as before, so that the
    same call asks the provider again. *)
Theorem search_for_failure_is_not_remembered (d : Dependency)
    (self self' : DependencyCache.t) (e : Exception) :
  DependencyCache.search_for d self = (Raise e, self') ->
  DependencyCache.memo_find d (DependencyCache.memo self) = None
  /\ DependencyCache.cache self !! DependencyCache.key_of d = None
  /\ provider_search_for d (DependencyCache.provider self)
     = (Raise e, DependencyCache.provider self')
  /\ DependencyCache.cache self' = DependencyCache.cache self
  /\ DependencyCache.memo self' = DependencyCache.memo self
  /\ DependencyCache.search_for d self'
     = match provider_search_for d (DependencyCache.provider self') with
       | (Return packages, p) =>
           (Return packages,
            {| DependencyCache.provider := p;
               DependencyCache.cache :=
                 <[DependencyCache.key_of d := packages]>
                   (DependencyCache.cache self);
               DependencyCache.memo :=
                 take DependencyCache.maxsize
                   ((d, packages) :: DependencyCache.memo self) |})
       | (Raise e', p) =>
           (Raise e', DependencyCache.set_provider p self')
       | (OutOfFuel, p) =>
           (OutOfFuel, DependencyCache.set_provider p self')
       end.
Proof.
  unfold DependencyCache.search_for at 1.
  destruct (DependencyCache.memo_find d (DependencyCache.memo self))
    as [[[k r] rest]|] eqn:Hmiss; [done|].
  destruct (DependencyCache.search_for_body d self) as [[r|e'|] s] eqn:Hbody;
    [done| |done].
  intros [= <- <-].
  destruct (search_for_body_raises _ _ _ _ Hbody) as (Hk & Hp & Hc & Hm).
  repeat (split; [done|]).
  unfold DependencyCache.search_for. rewrite Hm, Hmiss.
  rewrite search_for_body_fresh by (by rewrite Hc).
  destruct (provider_search_for d (DependencyCache.provider s))
    as [[packages|e2|] p]; [|done..].
  simpl. by rewrite Hc, Hm.
Qed.

(** X3: A call of [search_for] that returned, made again at once, is
    answered with the same list and changes nothing at all: neither the
    provider, nor the cache, nor the table of the decorator. *)
Theorem search_for_repeated_changes_nothing (d : Dependency)
    (self self' : DependencyCache.t) (result : list DependencyPackage) :
  DependencyCache.search_for d self = (Return result, self') ->
  DependencyCache.search_for d self' = (Return result, self').
Proof.
  intros Hcall.
  destruct (search_for_remembers _ _ _ _ Hcall) as (k & rest & Hmemo & Heq).
  rewrite (search_for_remembered d k self' result rest)
    by (rewrite Hmemo; by apply memo_find_first).
  f_equal. destruct self' as [p c m]. simpl in *. by subst.
Qed.

(** X4: After [clear()], a call of [search_for] that the table of the
    decorator does not answer (it remembers no dependency that equals the
    argument by [==]) goes to the provider, whatever the cache held
    before: it returns what the provider returns, unfiltered, and the cache
    holds that list alone. *)
Theorem search_for_after_clear_asks_provider (d : Dependency)
    (self : DependencyCache.t) (packages : list DependencyPackage)
    (p : ProviderState) :
  DependencyCache.memo_find d (DependencyCache.memo self) = None ->
  provider_search_for d (DependencyCache.provider self)
  = (Return packages, p) ->
  DependencyCache.search_for d (DependencyCache.clear self).2
  = (Return packages,
     {| DependencyCache.provider := p;
        DependencyCache.cache := {[ DependencyCache.key_of d := packages ]};
        DependencyCache.memo :=
          take DependencyCache.maxsize
            ((d, packages) :: DependencyCache.memo self) |}).
Proof.
  intros Hmiss Hp. rewrite clear_spec. simpl.
  set (self0 := {| DependencyCache.provider := DependencyCache.provider self;
                   DependencyCache.cache := ∅;
                   DependencyCache.memo := DependencyCache.memo self |}).
  assert (Hbody :
    DependencyCache.search_for_body d self0
    = (Return packages,
       DependencyCache.set_cache {[ DependencyCache.key_of d := packages ]}
         (DependencyCache.set_provider p self0))).
  { rewrite search_for_body_fresh by apply lookup_empty.
    simpl. rewrite Hp. by rewrite insert_empty. }
  by rewrite (memo_find_None_body d self0 Hmiss _ _ Hbody).
Qed.

(** X5: A call of [search_for] stores under the key of its dependency only:
    the cache is as it was, when the table of the decorator answers or the
    provider raises, or it differs at that one key.  What is stored for
    another complete name or another source is never touched. *)
Theorem search_for_stores_under_its_key_only (d : Dependency)
    (self : DependencyCache.t) :
  let self' := (DependencyCache.search_for d self).2 in
  (DependencyCache.cache self' = DependencyCache.cache self
   \/ exists stored,
        DependencyCache.cache self'
        = <[DependencyCache.key_of d := stored]> (DependencyCache.cache self))
  /\ (forall k,
        k = DependencyCache.key_of d
        \/ DependencyCache.cache self' !! k
           = DependencyCache.cache self !! k).
Proof.
  intros self'.
  assert (Hcache :
    DependencyCache.cache self' = DependencyCache.cache self
    \/ exists stored,
         DependencyCache.cache self'
         = <[DependencyCache.key_of d := stored]>
             (DependencyCache.cache self)).
  { unfold self', DependencyCache.search_for.
    destruct (DependencyCache.memo_find d (DependencyCache.memo self))
      as [[[k r] rest]|]; [by left|].
    destruct (DependencyCache.cache self !! DependencyCache.key_of d)
      as [stored|] eqn:Hk.
    - rewrite (search_for_body_stored _ _ _ Hk). simpl. right. eauto.
    - rewrite (search_for_body_fresh _ _ Hk).
      destruct (provider_search_for d (DependencyCache.provider self))
        as [[packages|e|] p]; simpl; [right; eauto|by left..]. }
  split; [done|]. intros k.
  destruct (decide (k = DependencyCache.key_of d)) as [?|Hne]; [by left|].
  right. destruct Hcache as [->|[stored ->]]; [done|].
  by rewrite lookup_insert_ne.
Qed.

(** A hit takes one entry out of the table: the other entries are the
    table without it. *)
Lemma memo_find_rest (d k : Dependency)
    (m rest : list (Dependency * list DependencyPackage))
    (v : list DependencyPackage) :
  DependencyCache.memo_find d m = Some (k, v, rest) ->
  length m = S (length rest)
  /\ k ∈ (m.*1)
  /\ (forall k', k' ∈ (rest.*1) -> k' ∈ (m.*1))
  /\ (NoDup (m.*1) -> (k ∉ rest.*1) /\ NoDup (rest.*1)).
Proof.
  revert rest. induction m as [|[k0 w] m IH]; intros rest; simpl; [done|].
  destruct (Dependency_eqb k0 d).
  - intros [= <- <- <-]. split; [done|]. split; [by left|]. split.
    + intros k' Hk'. by right.
    + by intros [? ?]%NoDup_cons.
  - destruct (DependencyCache.memo_find d m) as [[[k1 v'] rest']|]; [|done].
    intros [= <- <- <-].
    destruct (IH rest' eq_refl) as (Hlen & Hin & Hsub & Hnd).
    simpl. split; [by rewrite Hlen|]. split; [by right|]. split.
    + intros k' [->|Hk']%elem_of_cons; [by left|]. right. by apply Hsub.
    + intros [Hk Hm]%NoDup_cons. destruct (Hnd Hm) as [Hd Hrest].
      split.
      * rewrite not_elem_of_cons. split; [|done]. by intros ->.
      * apply NoDup_cons. split; [|done]. intros Hin'. by apply Hk, Hsub.
Qed.

(** A miss: the table does not hold the dependency. *)
Lemma memo_find_None (d : Dependency)
    (m : list (Dependency * list DependencyPackage)) :
  DependencyCache.memo_find d m = None -> d ∉ (m.*1).
Proof.
  induction m as [|[k w] m IH]; simpl; [by intros _ ?%elem_of_nil|].
  destruct (Dependency_eqb k d) eqn:Heq; [done|].
  destruct (DependencyCache.memo_find d m) as [[[k' v'] rest']|]; [done|].
  intros _. rewrite not_elem_of_cons. split; [|by apply IH].
  intros ->. by rewrite Dependency_eqb_refl in Heq.
Qed.

Lemma remember_bounded (d : Dependency) (r : list DependencyPackage)
    (m : list (Dependency * list DependencyPackage)) :
  NoDup (m.*1) -> d ∉ m.*1 ->
  (length (take DependencyCache.maxsize ((d, r) :: m))
   <= DependencyCache.maxsize)%nat
  /\ NoDup ((take DependencyCache.maxsize ((d, r) :: m)).*1).
Proof.
  intros Hnd Hd. split.
  - rewrite length_take. lia.
  - rewrite fmap_take. eapply sublist_NoDup; [|apply sublist_take].
    rewrite fmap_cons. by apply NoDup_cons.
Qed.

(** One call of [search_for] keeps the table of the decorator within its
    bound and without a call remembered twice. *)
Lemma search_for_memo_bounded (d : Dependency) (self : DependencyCache.t) :
  (length (DependencyCache.memo self) <= DependencyCache.maxsize)%nat ->
  NoDup ((DependencyCache.memo self).*1) ->
  (length (DependencyCache.memo (DependencyCache.search_for d self).2)
   <= DependencyCache.maxsize)%nat
  /\ NoDup ((DependencyCache.memo (DependencyCache.search_for d self).2).*1).
Proof.
  intros Hlen Hnd. unfold DependencyCache.search_for.
  destruct (DependencyCache.memo_find d (DependencyCache.memo self))
    as [[[k r] rest]|] eqn:Hfind.
  - destruct (memo_find_rest _ _ _ _ _ Hfind) as (Hl & _ & _ & Hn).
    split; [simpl; lia|].
    simpl. apply NoDup_cons. by apply Hn.
  - pose proof (search_for_body_memo d self) as Hm.
    destruct (DependencyCache.search_for_body d self) as [[r|e|] self'];
      simpl in Hm; [|by simpl; rewrite Hm..].
    apply (remember_bounded d r (DependencyCache.memo self')).
    + by rewrite Hm.
    + rewrite Hm. by apply memo_find_None.
Qed.

(** X6: The decorator of [search_for] remembers at most 128 calls, and none
    of them twice, whatever series of calls of [search_for] and [clear] is
    made on a new cache. *)
Theorem search_for_remembers_at_most_maxsize
    (calls : list (option Dependency)) (provider0 : ProviderState) :
  let self :=
    fold_left
      (fun self call =>
         match call with
         | Some d => (DependencyCache.search_for d self).2
         | None => (DependencyCache.clear self).2
         end)
      calls (DependencyCache.__init__ provider0) in
  (length (DependencyCache.memo self) <= 128)%nat
  /\ NoDup ((DependencyCache.memo self).*1).
Proof.
  assert (Hgen : forall self0 : DependencyCache.t,
    (length (DependencyCache.memo self0) <= DependencyCache.maxsize)%nat
    /\ NoDup ((DependencyCache.memo self0).*1) ->
    let self :=
      fold_left
        (fun self call =>
           match call with
           | Some d => (DependencyCache.search_for d self).2
           | None => (DependencyCache.clear self).2
           end)
        calls self0 in
    (length (DependencyCache.memo self) <= DependencyCache.maxsize)%nat
    /\ NoDup ((DependencyCache.memo self).*1)).
  { induction calls as [|[d|] calls IH]; intros self0 [Hlen Hnd]; simpl.
    - done.
    - apply IH. by apply search_for_memo_bounded.
    - by apply IH. }
  apply Hgen. simpl. split; [lia|constructor].
Qed.
End DependencyCacheMore.

(** ** version_solver.py: [_add_incompatibility] and the index *)

Section AddIncompatibility.
Context `{Provider, !TermAlgebra, !PartialSolutions, !Interpreter}.

Lemma set_add_idempotent {A} `{EqDecision A} (x : A) (l : list A) :
  VersionSolver.set_add x (VersionSolver.set_add x l)
  = VersionSolver.set_add x l.
Proof.
  unfold VersionSolver.set_add. destruct (decide (x ∈ l)) as [Hin|Hin].
  - rewrite (bool_decide_eq_true_2 _ Hin). cbn iota.
    by rewrite (bool_decide_eq_true_2 _ Hin).
  - rewrite (bool_decide_eq_false_2 _ Hin). cbn iota.
    rewrite bool_decide_eq_true_2; [done|].
    apply elem_of_app. right. by left.
Qed.

(** [set_add] keeps the list and adds at most [x], at the end. *)
Lemma set_add_extends {A} `{EqDecision A} (x : A) (l : list A) :
  exists l', VersionSolver.set_add x l = l ++ l'
             /\ (l' = [] \/ l' = [x]).
Proof.
  unfold VersionSolver.set_add. case_bool_decide.
  - exists []. by rewrite app_nil_r; auto.
  - exists [x]. auto.
Qed.

Lemma add_for_term_lookup (i : Incompatibility)
    (index0 : gmap string (list Incompatibility)) (t : Term) (k : string) :
  VersionSolver.add_for_term i index0 t !! k
  = if decide (k = complete_name (term_dependency t))
    then Some (VersionSolver.set_add i (default [] (index0 !! k)))
    else index0 !! k.
Proof.
  unfold VersionSolver.add_for_term, VersionSolver.set_add.
  destruct (decide (k = _)) as [->|Hne].
  - destruct (index0 !! complete_name (term_dependency t)) as [l|] eqn:Hl.
    + rewrite Hl. simpl. case_bool_decide; [done|].
      by rewrite lookup_insert_eq.
    + rewrite lookup_insert_eq. simpl. by rewrite lookup_insert_eq.
  - destruct (index0 !! complete_name (term_dependency t)) as [l|] eqn:Hl.
    + rewrite Hl. simpl. case_bool_decide; [done|].
      by rewrite lookup_insert_ne.
    + rewrite lookup_insert_eq. simpl. by rewrite !lookup_insert_ne.
Qed.

Lemma add_terms_lookup (i : Incompatibility) (ts : list Term)
    (index0 : gmap string (list Incompatibility)) (k : string) :
  fold_left (VersionSolver.add_for_term i) ts index0 !! k
  = if bool_decide
         (k ∈ map (fun t => complete_name (term_dependency t)) ts)
    then Some (VersionSolver.set_add i (default [] (index0 !! k)))
    else index0 !! k.
Proof.
  revert index0. induction ts as [|t ts IH]; intros index0.
  - done.
  - cbn [fold_left map]. rewrite IH, add_for_term_lookup.
    destruct (decide (k = complete_name (term_dependency t))) as [->|Hne].
    + rewrite (bool_decide_eq_true_2 (_ ∈ _ :: _)) by left. simpl.
      rewrite set_add_idempotent. by case_bool_decide.
    + case_bool_decide as Hin.
      * by rewrite bool_decide_eq_true_2 by (by right).
      * rewrite bool_decide_eq_false_2; [done|].
        by rewrite not_elem_of_cons.
Qed.

(** The index after [_add_incompatibility(i)], key by key. *)
Lemma add_incompatibility_lookup (i : Incompatibility)
    (self : VersionSolver.t) (k : string) :
  VersionSolver._incompatibilities
    (VersionSolver._add_incompatibility i self).2 !! k
  = if bool_decide (k ∈ term_names i)
    then Some (VersionSolver.set_add i
                 (default [] (VersionSolver._incompatibilities self !! k)))
    else VersionSolver._incompatibilities self !! k.
Proof. rewrite add_incompatibility_spec. simpl. apply add_terms_lookup. Qed.

(** X7: When [_add_incompatibility(i)] returns, it has filed [i] under the
    complete name of each of its terms and touched no other key and
    nothing else of the solver.  Under such a name the list of before (a
    new list if the name is new) is still there, with at most one [i]
    added at its end, however many terms of [i] share the name: [i] is in
    the list afterwards, and it was added if the list held no
    incompatibility with its terms and its cause. *)
Theorem add_incompatibility_files_under_each_term (i : Incompatibility)
    (self self' : VersionSolver.t) :
  VersionSolver._add_incompatibility i self = (Return tt, self') ->
  (forall k : string,
      k ∈ term_names i ->
      exists added : list Incompatibility,
        VersionSolver._incompatibilities self' !! k
        = Some (default [] (VersionSolver._incompatibilities self !! k)
                ++ added)
        /\ (added = [] \/ added = [i])
        /\ i ∈ default [] (VersionSolver._incompatibilities self !! k)
               ++ added
        /\ (i ∉ default [] (VersionSolver._incompatibilities self !! k) ->
            added = [i]))
  /\ (forall k : string,
        k ∉ term_names i ->
        VersionSolver._incompatibilities self' !! k
        = VersionSolver._incompatibilities self !! k)
  /\ self'
     = VersionSolver.set_incompatibilities
         (VersionSolver._incompatibilities self') self.
Proof.
  intros Hcall.
  assert (self' = (VersionSolver._add_incompatibility i self).2) as ->
    by (by rewrite Hcall).
  split; [|split; [|done]].
  - intros k Hk. rewrite add_incompatibility_lookup.
    rewrite (bool_decide_eq_true_2 _ Hk).
    unfold VersionSolver.set_add. case_bool_decide as Hin.
    + exists []. rewrite app_nil_r.
      split; [done|]. split; [by left|]. split; [done|]. by intros ?.
    + exists [i]. split; [done|]. split; [by right|].
      split; [|done]. apply elem_of_app. right. by left.
  - intros k Hk. rewrite add_incompatibility_lookup.
    by rewrite (bool_decide_eq_false_2 _ Hk).
Qed.

Lemma add_terms_extends (i : Incompatibility)
    (index0 : gmap string (list Incompatibility)) :
  index_extends index0
    (fold_left (VersionSolver.add_for_term i) (terms i) index0).
Proof.
  intros k l Hk. rewrite add_terms_lookup. case_bool_decide.
  - rewrite Hk. simpl.
    destruct (set_add_extends i l) as (l' & -> & _). eauto.
  - exists []. by rewrite app_nil_r.
Qed.

Lemma add_terms_filed_by_term (i : Incompatibility)
    (index0 : gmap string (list Incompatibility)) :
  filed_by_term index0 ->
  filed_by_term
    (fold_left (VersionSolver.add_for_term i) (terms i) index0).
Proof.
  intros Hf k l j. rewrite add_terms_lookup.
  fold (term_names i). case_bool_decide as Hin.
  - intros [= <-]. unfold VersionSolver.set_add.
    destruct (index0 !! k) as [l|] eqn:Hk; simpl.
    + case_bool_decide.
      * by apply Hf.
      * intros [Hj| ->%list_elem_of_singleton]%elem_of_app; [|done].
        by eapply Hf.
    + by intros ->%list_elem_of_singleton.
  - apply Hf.
Qed.
End AddIncompatibility.

(** ** version_solver.py: more on [_get_locked] *)

Section GetLockedMore.
Context `{Provider, !TermAlgebra, !PartialSolutions, !Interpreter}.

(** X9: [_get_locked] returns [None] exactly when the name is in
    [use_latest] or no locked package under the name passes the test; in
    particular when the lock data do not have the name at all.  What it
    returns otherwise carries the dependency it was asked for and the
    package of the first locked package that passes. *)
Theorem get_locked_none_iff_no_match (d : Dependency)
    (allow_similar : bool) (self : VersionSolver.t) :
  let locked := default [] (VersionSolver._locked self !! name d) in
  (VersionSolver._get_locked d allow_similar self = None
   <-> name d ∈ VersionSolver._use_latest self
       \/ Forall
            (fun q => VersionSolver.locked_matches d allow_similar q = false)
            locked)
  /\ match VersionSolver._get_locked d allow_similar self with
     | Some r =>
         dependency r = d
         /\ exists before q after,
              locked = before ++ q :: after
              /\ package r = package q
              /\ VersionSolver.locked_matches d allow_similar q = true
              /\ Forall
                   (fun q' =>
                      VersionSolver.locked_matches d allow_similar q'
                      = false)
                   before
     | None => True
     end
  /\ match VersionSolver._locked self !! name d with
     | Some _ => True
     | None => VersionSolver._get_locked d allow_similar self = None
     end.
Proof.
  intros locked. unfold VersionSolver._get_locked. fold locked.
  assert (Hfind : forall l : list DependencyPackage,
    match List.find (VersionSolver.locked_matches d allow_similar) l with
    | Some q =>
        exists before after,
          l = before ++ q :: after
          /\ VersionSolver.locked_matches d allow_similar q = true
          /\ Forall
               (fun q' =>
                  VersionSolver.locked_matches d allow_similar q' = false)
               before
    | None =>
        Forall
          (fun q => VersionSolver.locked_matches d allow_similar q = false) l
    end).
  { induction l as [|q l IH]; simpl; [constructor|].
    destruct (VersionSolver.locked_matches d allow_similar q) eqn:Hq.
    - exists [], l. by repeat split.
    - destruct (List.find _ l) as [q'|].
      + destruct IH as (before & after & -> & Hq' & Hbefore).
        exists (q :: before), after. repeat split; [done|].
        by constructor.
      + by constructor. }
  specialize (Hfind locked).
  split; [|split].
  - case_bool_decide as Hlatest.
    + split; [by left|done].
    + destruct (List.find _ locked) as [q|] eqn:Hq.
      * split; [done|]. intros [?|Hall]; [done|].
        apply find_some in Hq as [Hin Hm].
        rewrite Forall_forall in Hall.
        rewrite (Hall q) in Hm; [done|]. by apply list_elem_of_In.
      * split; [by right|done].
  - case_bool_decide as Hlatest; [done|].
    destruct (List.find _ locked) as [q|]; [|done].
    destruct Hfind as (before & after & Hl & Hq & Hbefore).
    split; [done|]. by exists before, q, after.
  - destruct (VersionSolver._locked self !! name d) eqn:Hl; [done|].
    unfold locked. simpl. by case_bool_decide.
Qed.

(** X10: A locked package that matches the dependency exactly makes the
    search for a similar one succeed as well: [allow_similar=True] only
    drops the test [is_same_package_as]. *)
Theorem get_locked_similar_when_exact (d : Dependency)
    (self : VersionSolver.t) :
  match VersionSolver._get_locked d false self with
  | Some _ => is_Some (VersionSolver._get_locked d true self)
  | None => True
  end.
Proof.
  unfold VersionSolver._get_locked. case_bool_decide as Hlatest; [done|].
  destruct (List.find (VersionSolver.locked_matches d false) _)
    as [q|] eqn:Hq; [|done].
  apply find_some in Hq as [Hin Hm].
  destruct (List.find (VersionSolver.locked_matches d true) _)
    as [q'|] eqn:Hq'; [done|].
  eapply find_none in Hq'; [|done].
  unfold VersionSolver.locked_matches in *. simpl in Hq'.
  apply andb_true_iff in Hm as [_ Hm]. by rewrite Hm in Hq'.
Qed.
End GetLockedMore.

(** ** What the methods keep *)

Section PreservesFacts.
Context `{Versions}.

Lemma preserves_ret {S A} (P : S -> Prop) (a : A) :
  preserves P (ret (S := S) a).
Proof. by intros s s' r HP [= _ <-]. Qed.

Lemma preserves_get {S} (P : S -> Prop) : preserves P (get (S := S)).
Proof. by intros s s' r HP [= _ <-]. Qed.

Lemma preserves_raise {S A} (P : S -> Prop) (e : Exception) :
  preserves P (raise (S := S) (A := A) e).
Proof. by intros s s' r HP [= _ <-]. Qed.

Lemma preserves_out_of_fuel {S A} (P : S -> Prop) :
  preserves P (fun s : S => (OutOfFuel (A := A), s)).
Proof. by intros s s' r HP [= _ <-]. Qed.

Lemma preserves_modify {S} (P : S -> Prop) (f : S -> S) :
  (forall s, P s -> P (f s)) -> preserves P (modify f).
Proof. intros Hf s s' r HP [= _ <-]. by apply Hf. Qed.

Lemma preserves_bind {S A B} (P : S -> Prop) (m : M S A)
    (k : A -> M S B) :
  preserves P m -> (forall a, preserves P (k a)) -> preserves P (bind m k).
Proof.
  intros Hm Hk s s' r HP. unfold bind.
  destruct (m s) as [[a|e|] s1] eqn:Hrun.
  - apply Hk. by eapply Hm.
  - intros [= _ <-]. by eapply Hm.
  - intros [= _ <-]. by eapply Hm.
Qed.

Lemma preserves_try {S A} (P : S -> Prop) (m : M S A)
    (handler : BaseException -> M S A) :
  preserves P m -> (forall e, preserves P (handler e)) ->
  preserves P (try_except_ValueError m handler).
Proof.
  intros Hm Hh s s' r HP. unfold try_except_ValueError.
  destruct (m s) as [[a|e'|] s1] eqn:Hrun.
  - intros [= _ <-]. by eapply Hm.
  - destruct e' as [[msg|k| |c msg]|i];
      first [apply Hh; by eapply Hm | intros [= _ <-]; by eapply Hm].
  - intros [= _ <-]. by eapply Hm.
Qed.
End PreservesFacts.

Section KeptByPropagation.
Context `{Provider, !TermAlgebra, !PartialSolutions, !Interpreter}.

(** A property of the solver that holds on to the four changes that
    propagation makes: to the solution, to the set of contradicted
    incompatibilities, to the index by [_add_incompatibility], and to the
    cache by [clear()]. *)
Variable P : VersionSolver.t -> Prop.
Hypothesis P_solution :
  forall s sol, P s -> P (VersionSolver.set_solution sol s).
Hypothesis P_contradicted :
  forall s c, P s -> P (VersionSolver.set_contradicted_incompatibilities c s).
Hypothesis P_index :
  forall s i,
    P s ->
    P (VersionSolver.set_incompatibilities
         (fold_left (VersionSolver.add_for_term i) (terms i)
            (VersionSolver._incompatibilities s)) s).
Hypothesis P_clear :
  forall s,
    P s ->
    P (VersionSolver.set_dependency_cache
         (DependencyCache.set_cache ∅ (VersionSolver._dependency_cache s))
         s).

Lemma preserves_add_incompatibility (i : Incompatibility) :
  preserves P (VersionSolver._add_incompatibility i).
Proof. apply preserves_modify. intros s. apply P_index. Qed.

Lemma preserves_mark_contradicted (i : Incompatibility) :
  preserves P (VersionSolver.mark_contradicted i).
Proof. apply preserves_modify. intros s. apply P_contradicted. Qed.

Lemma preserves_propagate_incompatibility (i : Incompatibility) :
  preserves P (VersionSolver._propagate_incompatibility i).
Proof.
  unfold VersionSolver._propagate_incompatibility.
  apply preserves_bind; [apply preserves_get|]. intros self.
  destruct (VersionSolver.scan_terms _ _ _) as [| |[u|]].
  - apply preserves_bind; [apply preserves_mark_contradicted|].
    intros _. apply preserves_ret.
  - apply preserves_ret.
  - apply preserves_bind; [apply preserves_mark_contradicted|].
    intros _. apply preserves_bind; [|intros _; apply preserves_ret].
    apply preserves_modify. intros s. apply P_solution.
  - apply preserves_ret.
Qed.

Lemma preserves_clear :
  preserves P (VersionSolver.call_cache DependencyCache.clear).
Proof. intros s s' r HP [= _ <-]. by apply P_clear. Qed.

Lemma preserves_backjump (v : VersionSolver.satisfiers)
    (new_incompatibility : bool) (i : Incompatibility) :
  preserves P (VersionSolver.backjump v new_incompatibility i).
Proof.
  unfold VersionSolver.backjump.
  apply preserves_bind;
    [apply preserves_modify; intros s; apply P_solution|].
  intros _.
  apply preserves_bind;
    [apply preserves_modify; intros s; apply P_contradicted|].
  intros _. apply preserves_bind; [apply preserves_clear|].
  intros _. apply preserves_bind; [|intros _; apply preserves_ret].
  destruct new_incompatibility;
    [apply preserves_add_incompatibility|apply preserves_ret].
Qed.

Lemma preserves_resolve_conflict_loop (fuel : nat) (i : Incompatibility)
    (new_incompatibility : bool) :
  preserves P
    (VersionSolver.resolve_conflict_loop fuel i new_incompatibility).
Proof.
  revert i new_incompatibility.
  induction fuel as [|fuel IH]; intros i new_incompatibility; simpl;
    (destruct (is_failure i); [apply preserves_raise|]).
  - apply preserves_out_of_fuel.
  - apply preserves_bind; [apply preserves_get|]. intros self.
    destruct (VersionSolver.most_recent_satisfier _) as [recent|];
      [|apply preserves_raise].
    destruct (VersionSolver.is_root_cause _ recent);
      [apply preserves_backjump|].
    destruct (assignment_cause recent); [apply IH|apply preserves_raise].
Qed.

Lemma preserves_propagate_for (fuel : nat)
    (incompatibilities : list Incompatibility) (changed : list string) :
  preserves P (VersionSolver.propagate_for fuel incompatibilities changed).
Proof.
  revert changed.
  induction incompatibilities as [|i rest IH]; intros changed; simpl.
  - apply preserves_ret.
  - apply preserves_bind; [apply preserves_get|]. intros self.
    case_bool_decide; [apply IH|].
    apply preserves_bind; [apply preserves_propagate_incompatibility|].
    intros [|n|]; [|apply IH..].
    apply preserves_bind; [apply preserves_resolve_conflict_loop|].
    intros root_cause.
    apply preserves_bind; [apply preserves_propagate_incompatibility|].
    intros result'. apply preserves_ret.
Qed.

Lemma preserves_incompatibilities_of (package0 : string) :
  preserves P (VersionSolver.incompatibilities_of package0).
Proof.
  unfold VersionSolver.incompatibilities_of.
  apply preserves_bind; [apply preserves_get|]. intros self.
  destruct (VersionSolver._incompatibilities self !! package0);
    [apply preserves_ret|apply preserves_raise].
Qed.

Lemma preserves_propagate_while (fuel : nat) (changed : list string) :
  preserves P (VersionSolver.propagate_while fuel changed).
Proof.
  revert changed. induction fuel as [|fuel IH]; intros changed.
  - destruct changed as [|c changed]; simpl;
      [apply preserves_ret|apply preserves_out_of_fuel].
  - destruct changed as [|c changed]; simpl; [apply preserves_ret|].
    destruct (VersionSolver.set_pop (c :: changed)) as [package0 changed'].
    apply preserves_bind; [apply preserves_incompatibilities_of|].
    intros incompatibilities.
    apply preserves_bind; [apply preserves_propagate_for|].
    intros changed''. apply IH.
Qed.

Lemma preserves_propagate (fuel : nat) (package0 : string) :
  preserves P (VersionSolver._propagate fuel package0).
Proof. apply preserves_propagate_while. Qed.

Section KeptBySolve.
(** The property does not look at the cache. *)
Hypothesis P_cache :
  forall s c, P s -> P (VersionSolver.set_dependency_cache c s).

Lemma preserves_call_cache {A} (m : M DependencyCache.t A) :
  preserves P (VersionSolver.call_cache m).
Proof.
  intros s s' r HP. unfold VersionSolver.call_cache.
  destruct (m (VersionSolver._dependency_cache s)) as [r' c].
  intros [= _ <-]. by apply P_cache.
Qed.

Lemma preserves_get_min (d : Dependency) :
  preserves P (VersionSolver._get_min d).
Proof.
  unfold VersionSolver._get_min.
  apply preserves_bind; [apply preserves_get|]. intros self.
  case_bool_decide; [apply preserves_ret|].
  destruct (VersionSolver._get_locked d false self);
    [apply preserves_ret|].
  destruct (_ || _); [apply preserves_ret|].
  apply preserves_try.
  - apply preserves_bind; [apply preserves_call_cache|].
    intros packages. apply preserves_ret.
  - intros e. apply preserves_ret.
Qed.

Lemma preserves_min_rest (best : Dependency) (best_key : bool * Z)
    (rest : list Dependency) :
  preserves P (VersionSolver.min_rest best best_key rest).
Proof.
  revert best best_key.
  induction rest as [|d rest IH]; intros best best_key; simpl.
  - apply preserves_ret.
  - apply preserves_bind; [apply preserves_get_min|]. intros k.
    destruct (VersionSolver.key_lt k best_key); apply IH.
Qed.

Lemma preserves_choose_dependency (first : Dependency)
    (rest : list Dependency) :
  preserves P (VersionSolver.choose_dependency first rest).
Proof.
  unfold VersionSolver.choose_dependency.
  destruct rest; [apply preserves_ret|].
  apply preserves_bind; [apply preserves_get_min|]. intros k.
  apply preserves_min_rest.
Qed.

Lemma preserves_choose_package (d : Dependency) :
  preserves P (VersionSolver.choose_package d).
Proof.
  unfold VersionSolver.choose_package.
  apply preserves_bind; [apply preserves_get|]. intros self.
  destruct (VersionSolver._get_locked d false self);
    [apply preserves_ret|].
  apply preserves_bind.
  - apply preserves_try.
    + apply preserves_bind; [apply preserves_call_cache|].
      intros packages. apply preserves_ret.
    + intros e. apply preserves_ret.
  - intros [e|packages].
    + apply preserves_bind; [apply preserves_add_incompatibility|].
      intros _. apply preserves_ret.
    + apply preserves_bind; [apply preserves_get|]. intros self'.
      destruct (VersionSolver.choose_candidate d packages self');
        [apply preserves_ret|].
      apply preserves_bind; [apply preserves_add_incompatibility|].
      intros _. apply preserves_ret.
Qed.

Lemma preserves_add_incompatibilities (d : Dependency)
    (incompatibilities : list Incompatibility) (conflict0 : bool) :
  preserves P
    (VersionSolver.add_incompatibilities d incompatibilities conflict0).
Proof.
  revert conflict0.
  induction incompatibilities as [|i rest IH]; intros conflict0; simpl.
  - apply preserves_ret.
  - apply preserves_bind; [apply preserves_add_incompatibility|].
    intros _. apply preserves_bind; [apply preserves_get|].
    intros self. apply IH.
Qed.

Lemma preserves_decide_version (d : Dependency) (p : DependencyPackage) :
  preserves P (VersionSolver.decide_version d p).
Proof.
  unfold VersionSolver.decide_version.
  apply preserves_bind; [apply preserves_call_cache|]. intros p'.
  apply preserves_bind; [apply preserves_call_cache|].
  intros incompatibilities.
  apply preserves_bind; [apply preserves_add_incompatibilities|].
  intros conflict0.
  apply preserves_bind; [|intros _; apply preserves_ret].
  destruct conflict0; [apply preserves_ret|].
  apply preserves_modify. intros s. apply P_solution.
Qed.

Lemma preserves_choose_package_version :
  preserves P VersionSolver._choose_package_version.
Proof.
  unfold VersionSolver._choose_package_version.
  apply preserves_bind; [apply preserves_get|]. intros self.
  destruct (unsatisfied (VersionSolver._solution self)) as [|first rest];
    [apply preserves_ret|].
  apply preserves_bind; [apply preserves_choose_dependency|].
  intros d.
  apply preserves_bind; [apply preserves_choose_package|].
  intros [p|]; [|apply preserves_ret].
  apply preserves_decide_version.
Qed.

Lemma preserves_solve_loop (fuel : nat) (next : option string) :
  preserves P (VersionSolver.solve_loop fuel next).
Proof.
  revert next. induction fuel as [|fuel IH]; intros [next|]; simpl.
  - apply preserves_out_of_fuel.
  - apply preserves_bind; [apply preserves_get|]. intros self.
    apply preserves_ret.
  - apply preserves_bind; [apply preserves_propagate|]. intros _.
    apply preserves_bind; [apply preserves_choose_package_version|].
    apply IH.
  - apply preserves_bind; [apply preserves_get|]. intros self.
    apply preserves_ret.
Qed.

Lemma preserves_solve (fuel : nat) :
  preserves P (VersionSolver.solve fuel).
Proof.
  unfold VersionSolver.solve.
  apply preserves_bind; [apply preserves_get|]. intros self.
  apply preserves_bind; [apply preserves_add_incompatibility|].
  intros _. apply preserves_solve_loop.
Qed.
End KeptBySolve.
End KeptByPropagation.

(** ** version_solver.py: the index along [solve] *)

Section IndexAlongSolve.
Context `{Provider, !TermAlgebra, !PartialSolutions, !Interpreter}.

Lemma index_extends_refl (index0 : gmap string (list Incompatibility)) :
  index_extends index0 index0.
Proof. intros k l Hk. exists []. by rewrite app_nil_r. Qed.

Lemma index_extends_trans
    (index0 index1 index2 : gmap string (list Incompatibility)) :
  index_extends index0 index1 -> index_extends index1 index2 ->
  index_extends index0 index2.
Proof.
  intros H01 H12 k l Hk.
  destruct (H01 k l Hk) as [l1 Hk1].
  destruct (H12 k _ Hk1) as [l2 Hk2].
  exists (l1 ++ l2). by rewrite app_assoc.
Qed.

(** A property of the index that [_add_incompatibility] keeps is kept by
    [solve]. *)
Lemma solve_keeps_index_property
    (Q : gmap string (list Incompatibility) -> Prop) :
  (forall i index0,
      Q index0 ->
      Q (fold_left (VersionSolver.add_for_term i) (terms i) index0)) ->
  forall fuel,
    preserves (fun s => Q (VersionSolver._incompatibilities s))
      (VersionSolver.solve fuel).
Proof.
  intros HQ fuel. apply preserves_solve; try done.
  intros s i. apply HQ.
Qed.

(** X11: Along [solve], on a new solver, every incompatibility of the
    index is filed under the complete name of one of its terms: the index
    never holds an incompatibility under a name it says nothing about.
    This holds for the solver that [solve] leaves, whether it returns,
    raises or is cut short. *)
Theorem solve_files_incompatibilities_by_term
    (root : VersionSolver.ProjectPackage) (provider0 : ProviderState)
    (locked : option (gmap string (list DependencyPackage)))
    (use_latest : option (list string)) (fuel : nat) :
  let self := VersionSolver.__init__ root provider0 locked use_latest in
  let self' := (VersionSolver.solve fuel self).2 in
  filed_by_term (VersionSolver._incompatibilities self').
Proof.
  intros self self'. unfold self'.
  destruct (VersionSolver.solve fuel self) as [r s'] eqn:Hrun.
  eapply (solve_keeps_index_property filed_by_term); [| |exact Hrun].
  - intros i index0 Hf. by apply add_terms_filed_by_term.
  - intros k l i. unfold self. simpl. by rewrite lookup_empty.
Qed.

(** X12: [solve] never forgets an incompatibility and never reorders the
    index: whatever backjumps happen, every list of the index is still there
    afterwards, possibly with more at its end.  And it leaves the root, the
    lock data and the names to update as they were given. *)
Theorem solve_only_extends_index (self : VersionSolver.t) (fuel : nat) :
  let self' := (VersionSolver.solve fuel self).2 in
  index_extends (VersionSolver._incompatibilities self)
    (VersionSolver._incompatibilities self')
  /\ VersionSolver._root self' = VersionSolver._root self
  /\ VersionSolver._locked self' = VersionSolver._locked self
  /\ VersionSolver._use_latest self' = VersionSolver._use_latest self.
Proof.
  intros self'. unfold self'.
  destruct (VersionSolver.solve fuel self) as [r s'] eqn:Hrun. simpl.
  split.
  - eapply (solve_keeps_index_property
              (index_extends (VersionSolver._incompatibilities self)));
      [|apply index_extends_refl|exact Hrun].
    intros i index0 Hext. eapply index_extends_trans; [done|].
    apply add_terms_extends.
  - eapply (preserves_solve
              (fun s =>
                 VersionSolver._root s = VersionSolver._root self
                 /\ VersionSolver._locked s = VersionSolver._locked self
                 /\ VersionSolver._use_latest s
                    = VersionSolver._use_latest self));
      [done..| |exact Hrun]; done.
Qed.

(** X13: Propagation works on what the solver knows: [_propagate] never
    calls the provider and never touches the table of [search_for], the lock
    data, the names to update or the root.  The cache it leaves as it is or,
    after a conflict, empty; the index it only extends. *)
Theorem propagate_never_asks_provider (self : VersionSolver.t)
    (fuel : nat) (package0 : string) :
  let self' := (VersionSolver._propagate fuel package0 self).2 in
  surroundings self' = surroundings self
  /\ (DependencyCache.cache (VersionSolver._dependency_cache self')
      = DependencyCache.cache (VersionSolver._dependency_cache self)
      \/ DependencyCache.cache (VersionSolver._dependency_cache self') = ∅)
  /\ index_extends (VersionSolver._incompatibilities self)
       (VersionSolver._incompatibilities self').
Proof.
  intros self'. unfold self'.
  destruct (VersionSolver._propagate fuel package0 self) as [r s'] eqn:Hrun.
  simpl.
  eapply (preserves_propagate
            (fun s =>
               surroundings s = surroundings self
               /\ (DependencyCache.cache (VersionSolver._dependency_cache s)
                   = DependencyCache.cache
                       (VersionSolver._dependency_cache self)
                   \/ DependencyCache.cache
                        (VersionSolver._dependency_cache s) = ∅)
               /\ index_extends (VersionSolver._incompatibilities self)
                    (VersionSolver._incompatibilities s)));
    [done|done| | | |exact Hrun].
  - intros s i (Hs & Hc & Hi). split; [done|]. split; [done|].
    eapply index_extends_trans; [done|]. apply add_terms_extends.
  - intros s (Hs & Hc & Hi). split; [done|]. split; [by right|done].
  - split; [done|]. split; [by left|]. apply index_extends_refl.
Qed.
End IndexAlongSolve.

(** ** version_solver.py: what [_propagate_incompatibility] changes *)

Section PropagateIncompatibilityFrame.
Context `{Provider, !TermAlgebra, !PartialSolutions, !Interpreter}.

Lemma scan_terms_unsatisfied (solution0 : PartialSolution) (ts : list Term)
    (acc : option Term) (u : Term) :
  VersionSolver.scan_terms solution0 ts acc
  = VersionSolver.scanned (Some u) ->
  acc = Some u
  \/ (acc = None /\ u ∈ ts /\ relation solution0 u = OVERLAPPING).
Proof.
  revert acc. induction ts as [|t ts IH]; intros acc; simpl.
  - intros [= ->]. by left.
  - destruct (relation solution0 t) eqn:Hrel; [|done|].
    + intros [->|(-> & Hin & Ho)]%IH; [by left|].
      right. split; [done|]. split; [by right|done].
    + destruct acc as [a|]; [done|].
      intros [[= <-]|(? & _)]%IH; [|done].
      right. split; [done|]. split; [by left|done].
Qed.

(** X14: [_propagate_incompatibility] never raises and never touches the
    index, the cache, the provider or the lock data.  When it returns the
    conflict sentinel the solver is as it was; when it returns [None] the
    solution is as it was and at most the incompatibility has joined the
    contradicted ones; when it returns a name, that is the complete name of
    a term of the incompatibility to which the solution was [OVERLAPPING],
    the solution has one derivation more, the negation of that term with the
    incompatibility as its cause, and the incompatibility is among the
    contradicted ones. *)
Theorem propagate_incompatibility_changes_solution_and_marks_only
    (i : Incompatibility) (self : VersionSolver.t) :
  let result := (VersionSolver._propagate_incompatibility i self).1 in
  let self' := (VersionSolver._propagate_incompatibility i self).2 in
  VersionSolver._incompatibilities self'
  = VersionSolver._incompatibilities self
  /\ VersionSolver._dependency_cache self'
     = VersionSolver._dependency_cache self
  /\ VersionSolver._root self' = VersionSolver._root self
  /\ VersionSolver._locked self' = VersionSolver._locked self
  /\ VersionSolver._use_latest self' = VersionSolver._use_latest self
  /\ match result with
     | Return VersionSolver.conflict => self' = self
     | Return VersionSolver.nothing =>
         VersionSolver._solution self' = VersionSolver._solution self
         /\ (VersionSolver._contradicted_incompatibilities self'
             = VersionSolver._contradicted_incompatibilities self
             \/ VersionSolver._contradicted_incompatibilities self'
                = VersionSolver.set_add i
                    (VersionSolver._contradicted_incompatibilities self))
     | Return (VersionSolver.derived n) =>
         exists t : Term,
           t ∈ terms i
           /\ relation (VersionSolver._solution self) t = OVERLAPPING
           /\ n = complete_name (term_dependency t)
           /\ VersionSolver._solution self'
              = derive (term_dependency t) (negb (is_positive t)) i
                  (VersionSolver._solution self)
           /\ VersionSolver._contradicted_incompatibilities self'
              = VersionSolver.set_add i
                  (VersionSolver._contradicted_incompatibilities self)
     | Raise _ | OutOfFuel => False
     end.
Proof.
  intros result self'. unfold result, self'.
  rewrite propagate_incompatibility_unfold.
  destruct (VersionSolver.scan_terms _ _ _) as [| |[u|]] eqn:Hscan; simpl.
  - repeat (split; [done|]). by right.
  - repeat (split; [done|]). by left.
  - repeat (split; [done|]). exists u.
    apply scan_terms_unsatisfied in Hscan as [?|(_ & Hin & Ho)]; done.
  - done.
Qed.
End PropagateIncompatibilityFrame.

(** ** version_solver.py: the satisfiers that [_resolve_conflict] finds *)

Section MostRecentSatisfier.
Context `{Provider, !TermAlgebra, !PartialSolutions, !Interpreter}.

Variable solution0 : PartialSolution.

Lemma satisfiers_step_first (v : VersionSolver.satisfiers) (x : Term) :
  VersionSolver.most_recent_satisfier v = None ->
  most_recent_among solution0
    (VersionSolver.satisfiers_step solution0 v x) [x].
Proof.
  intros Hnone. unfold VersionSolver.satisfiers_step. rewrite Hnone.
  cbn [VersionSolver.most_recent_term VersionSolver.most_recent_satisfier].
  rewrite bool_decide_eq_true_2 by done.
  exists x. split; [by left|]. split; [done|]. split; [done|]. split.
  - intros u ->%list_elem_of_singleton. lia.
  - intros u ->%list_elem_of_singleton. by left.
Qed.

Lemma satisfiers_step_next (v : VersionSolver.satisfiers)
    (seen : list Term) (x : Term) :
  most_recent_among solution0 v seen ->
  most_recent_among solution0
    (VersionSolver.satisfiers_step solution0 v x) (seen ++ [x]).
Proof.
  intros (t & Ht & Hterm & Hsat & Hidx & Hlvl).
  unfold VersionSolver.satisfiers_step. rewrite Hsat.
  destruct (index (satisfier solution0 t) <? index (satisfier solution0 x))
    eqn:Hlt.
  - apply Z.ltb_lt in Hlt.
    cbn [VersionSolver.most_recent_term VersionSolver.most_recent_satisfier].
    rewrite bool_decide_eq_true_2 by done.
    exists x. split; [apply elem_of_app; right; by left|].
    split; [done|]. split; [done|]. split.
    + intros u [Hu| ->%list_elem_of_singleton]%elem_of_app; [|lia].
      specialize (Hidx u Hu). lia.
    + intros u [Hu| ->%list_elem_of_singleton]%elem_of_app; [|by left].
      right. cbn [VersionSolver.previous_satisfier_level].
      destruct (Hlvl u Hu) as [-> | Hle];
        destruct (difference _ _); lia.
  - apply Z.ltb_ge in Hlt.
    cbn [VersionSolver.most_recent_term VersionSolver.most_recent_satisfier].
    rewrite Hterm.
    assert (Hgoal : forall prev',
      Z.max (VersionSolver.previous_satisfier_level v)
        (decision_level (satisfier solution0 x)) <= prev' ->
      most_recent_among solution0
        {| VersionSolver.most_recent_term := Some t;
           VersionSolver.most_recent_satisfier :=
             Some (satisfier solution0 t);
           VersionSolver.difference0 :=
             difference (assignment_term (satisfier solution0 t)) t;
           VersionSolver.previous_satisfier_level := prev' |}
        (seen ++ [x])
      /\ most_recent_among solution0
           {| VersionSolver.most_recent_term := Some t;
              VersionSolver.most_recent_satisfier :=
                Some (satisfier solution0 t);
              VersionSolver.difference0 := VersionSolver.difference0 v;
              VersionSolver.previous_satisfier_level := prev' |}
           (seen ++ [x])).
    { intros prev' Hprev.
      assert (Hboth : forall d0,
        most_recent_among solution0
          {| VersionSolver.most_recent_term := Some t;
             VersionSolver.most_recent_satisfier :=
               Some (satisfier solution0 t);
             VersionSolver.difference0 := d0;
             VersionSolver.previous_satisfier_level := prev' |}
          (seen ++ [x])); [|by split].
      intros d0. exists t. split; [apply elem_of_app; by left|].
      split; [done|]. split; [done|]. split.
      - intros u [Hu| ->%list_elem_of_singleton]%elem_of_app; [|done].
        by apply Hidx.
      - intros u [Hu| ->%list_elem_of_singleton]%elem_of_app.
        + destruct (Hlvl u Hu) as [? | Hle]; [by left|].
          right. cbn [VersionSolver.previous_satisfier_level]. lia.
        + right. cbn [VersionSolver.previous_satisfier_level]. lia. }
    case_bool_decide.
    + cbn [VersionSolver.most_recent_term
             VersionSolver.most_recent_satisfier
             VersionSolver.previous_satisfier_level assignment_term].
      eapply proj1, Hgoal. destruct (difference _ _); lia.
    + eapply proj2, Hgoal. lia.
Qed.

Lemma satisfiers_fold_invariant (ts seen : list Term)
    (v : VersionSolver.satisfiers) :
  most_recent_among solution0 v seen ->
  most_recent_among solution0
    (fold_left (VersionSolver.satisfiers_step solution0) ts v)
    (seen ++ ts).
Proof.
  revert seen v. induction ts as [|x ts IH]; intros seen v Hinv; simpl.
  - by rewrite app_nil_r.
  - replace (seen ++ x :: ts) with ((seen ++ [x]) ++ ts)
      by (by rewrite <- app_assoc).
    apply IH. by apply satisfiers_step_next.
Qed.

(** X15: The loop over the terms in [_resolve_conflict] finds what its
    comments promise.  For an incompatibility with terms, the most recent
    term is one of them and the most recent satisfier is its satisfier, with
    the highest index among the satisfiers of the terms; the satisfier of
    every term is the most recent one or lies at a decision level that
    [previous_satisfier_level] is not below; and [previous_satisfier_level]
    is at least 1.  Without terms nothing is found. *)
Theorem find_satisfiers_finds_most_recent (i : Incompatibility) :
  let v := VersionSolver.find_satisfiers solution0 i in
  match terms i with
  | [] => v = VersionSolver.satisfiers_init
  | _ :: _ =>
      most_recent_among solution0 v (terms i)
      /\ 1 <= VersionSolver.previous_satisfier_level v
  end.
Proof.
  intros v. unfold v.
  pose proof (previous_satisfier_level_floor solution0 i) as Hfloor.
  unfold VersionSolver.find_satisfiers in *.
  destruct (terms i) as [|t ts]; [done|].
  split; [|done]. simpl.
  apply (satisfiers_fold_invariant ts [t]).
  by apply satisfiers_step_first.
Qed.
End MostRecentSatisfier.

(** ** version_solver.py: when [_resolve_conflict] returns *)

Section ResolveConflictReturns.
Context `{Provider, !TermAlgebra, !PartialSolutions, !Interpreter}.

Lemma resolve_conflict_loop_returns (fuel : nat) (i learned : Incompatibility)
    (new_incompatibility : bool) (self self' : VersionSolver.t) :
  VersionSolver.resolve_conflict_loop fuel i new_incompatibility self
  = (Return learned, self') ->
  exists (rounds : nat) (recent : Assignment),
    let v :=
      VersionSolver.find_satisfiers (VersionSolver._solution self) learned in
    resolution_rounds rounds self i = Some learned
    /\ (rounds < fuel)%nat
    /\ is_failure learned = false
    /\ VersionSolver.most_recent_satisfier v = Some recent
    /\ VersionSolver.is_root_cause v recent = true
    /\ VersionSolver.backjump v
         (match rounds with O => new_incompatibility | S _ => true end)
         learned self
       = (Return learned, self')
    /\ match rounds with O => learned = i | S _ => True end.
Proof.
  revert i new_incompatibility.
  induction fuel as [|fuel IH]; intros i new_incompatibility; simpl.
  - by destruct (is_failure i).
  - destruct (is_failure i) eqn:Hi; [done|]. rewrite bind_get.
    destruct (VersionSolver.most_recent_satisfier _) as [recent|] eqn:Hrecent;
      [|done].
    destruct (VersionSolver.is_root_cause _ recent) eqn:Hroot.
    + intros Hback. exists 0%nat, recent.
      assert (learned = i) as ->.
      { rewrite backjump_spec in Hback. by injection Hback as <- _. }
      cbv zeta. split; [done|]. split; [lia|].
      by repeat (split; [done|]).
    + destruct (assignment_cause recent) as [rc|] eqn:Hcause; [|done].
      intros (rounds & recent' & Hrounds & Hlt & Hf & Hr & Hroot' & Hback
              & _)%IH.
      exists (S rounds), recent'. cbv zeta.
      split.
      { cbn [resolution_rounds]. unfold resolution_round.
        by rewrite Hi, Hrecent, Hroot, Hcause. }
      split; [lia|]. repeat (split; [done|]).
      split; [|done]. by destruct rounds.
Qed.

(** X16: [_resolve_conflict] returns only by a backjump.  What it returns is
    what some rounds of resolution made of its argument (the argument itself
    if there was none), not a failure, and the root cause by the test of the
    code; the solution has been backtracked to [previous_satisfier_level],
    which is at least 1, the set of contradicted incompatibilities and the
    cache are empty, the provider and the table of [search_for] are
    untouched, and the index has gained the incompatibility returned if it
    was learned, and nothing otherwise. *)
Theorem resolve_conflict_returns_only_after_backjump (fuel : nat)
    (i learned : Incompatibility) (self self' : VersionSolver.t) :
  VersionSolver._resolve_conflict fuel i self = (Return learned, self') ->
  exists (rounds : nat) (recent : Assignment),
    let v :=
      VersionSolver.find_satisfiers (VersionSolver._solution self) learned in
    resolution_rounds rounds self i = Some learned
    /\ (rounds < fuel)%nat
    /\ is_failure learned = false
    /\ VersionSolver.most_recent_satisfier v = Some recent
    /\ (VersionSolver.previous_satisfier_level v < decision_level recent
        \/ assignment_cause recent = None)
    /\ 1 <= VersionSolver.previous_satisfier_level v
    /\ VersionSolver._solution self'
       = backtrack (VersionSolver.previous_satisfier_level v)
           (VersionSolver._solution self)
    /\ VersionSolver._contradicted_incompatibilities self' = []
    /\ DependencyCache.cache (VersionSolver._dependency_cache self') = ∅
    /\ surroundings self' = surroundings self
    /\ match rounds with
       | O =>
           learned = i
           /\ VersionSolver._incompatibilities self'
              = VersionSolver._incompatibilities self
       | S _ =>
           VersionSolver._incompatibilities self'
           = VersionSolver._incompatibilities
               (VersionSolver._add_incompatibility learned self).2
       end.
Proof.
  intros (rounds & recent & Hrounds & Hlt & Hf & Hr & Hroot & Hback & Hi)
           %resolve_conflict_loop_returns.
  exists rounds, recent. cbv zeta.
  rewrite backjump_spec in Hback. injection Hback as <-.
  apply is_root_cause_iff in Hroot.
  repeat (split; [done|]).
  split; [apply previous_satisfier_level_floor|].
  repeat (split; [done|]).
  by destruct rounds.
Qed.
End ResolveConflictReturns.

(** ** version_solver.py: [_propagate] with nothing to do *)

Section PropagateEdges.
Context `{Provider, !TermAlgebra, !PartialSolutions, !Interpreter}.

(** [pop()] on a set of one element takes that element, wherever the
    interpreter looks. *)
Lemma set_pop_singleton (package0 : string) :
  VersionSolver.set_pop [package0] = (package0, []).
Proof.
  unfold VersionSolver.set_pop. cbn [length]. by rewrite Nat.mod_1_r.
Qed.

Lemma propagate_unfold (fuel : nat) (package0 : string)
    (self : VersionSolver.t) :
  VersionSolver._propagate (S fuel) package0 self
  = (incompatibilities <- VersionSolver.incompatibilities_of package0 ;;
     changed <-
       VersionSolver.propagate_for (S fuel) (rev incompatibilities) [] ;;
     VersionSolver.propagate_while fuel changed)%solver self.
Proof.
  unfold VersionSolver._propagate.
  change (VersionSolver.set_add package0 []) with [package0].
  cbn [VersionSolver.propagate_while]. by rewrite set_pop_singleton.
Qed.

Lemma propagate_while_nil (fuel : nat) (self : VersionSolver.t) :
  VersionSolver.propagate_while fuel [] self = (Return tt, self).
Proof. by destruct fuel. Qed.

Lemma propagate_for_contradicted (fuel : nat)
    (incompatibilities : list Incompatibility) (changed : list string)
    (self : VersionSolver.t) :
  (forall i, i ∈ incompatibilities ->
             i ∈ VersionSolver._contradicted_incompatibilities self) ->
  VersionSolver.propagate_for fuel incompatibilities changed self
  = (Return changed, self).
Proof.
  induction incompatibilities as [|i rest IH]; intros Hall; simpl; [done|].
  rewrite bind_get, bool_decide_eq_true_2 by (apply Hall; by left).
  apply IH. intros j Hj. apply Hall. by right.
Qed.

Lemma incompatibilities_of_spec (package0 : string)
    (self : VersionSolver.t) :
  VersionSolver.incompatibilities_of package0 self
  = match VersionSolver._incompatibilities self !! package0 with
    | Some l => (Return l, self)
    | None => (Raise (Base (KeyError package0)), self)
    end.
Proof.
  unfold VersionSolver.incompatibilities_of. rewrite bind_get.
  by destruct (VersionSolver._incompatibilities self !! package0).
Qed.

(** X17: [_propagate(package)] for a name that the index does not have
    raises the [KeyError] of [self._incompatibilities[package]], before
    anything is changed. *)
Theorem propagate_unknown_package_raises_KeyError (fuel : nat)
    (package0 : string) (self : VersionSolver.t) :
  VersionSolver._incompatibilities self !! package0 = None ->
  VersionSolver._propagate (S fuel) package0 self
  = (Raise (Base (KeyError package0)), self).
Proof.
  intros Hnone. rewrite propagate_unfold.
  apply bind_raise. by rewrite incompatibilities_of_spec, Hnone.
Qed.

(** X18: [_propagate(package)] skips the incompatibilities that are marked
    contradicted: when all those of the package are, and in particular when
    the package has none, it returns at once and changes nothing. *)
Theorem propagate_skips_contradicted (fuel : nat) (package0 : string)
    (self : VersionSolver.t) (filed : list Incompatibility) :
  VersionSolver._incompatibilities self !! package0 = Some filed ->
  Forall
    (fun i => i ∈ VersionSolver._contradicted_incompatibilities self)
    filed ->
  VersionSolver._propagate (S fuel) package0 self = (Return tt, self).
Proof.
  intros Hfiled Hall. rewrite propagate_unfold.
  rewrite (bind_return _ _ self self filed)
    by (by rewrite incompatibilities_of_spec, Hfiled).
  rewrite (bind_return _ _ self self [])
    by (apply propagate_for_contradicted; intros i Hi;
        by eapply Forall_forall in Hi; [|apply Forall_rev, Hall]).
  apply propagate_while_nil.
Qed.
End PropagateEdges.

(** ** version_solver.py: what [_choose_package_version] decides *)

Section DecideVersion.
Context `{Provider, !TermAlgebra, !PartialSolutions, !Interpreter}.

Lemma bind_returns {S A B} (m : M S A) (k : A -> M S B) (s s' : S)
    (b : B) :
  bind m k s = (Return b, s') ->
  exists a s1, m s = (Return a, s1) /\ k a s1 = (Return b, s').
Proof.
  unfold bind. destruct (m s) as [[a|e|] s1]; [|done..]. eauto.
Qed.

Lemma try_returns {S A} (m : M S A) (handler : BaseException -> M S A)
    (s s' : S) (a : A) :
  try_except_ValueError m handler s = (Return a, s') ->
  m s = (Return a, s')
  \/ exists msg s1,
       m s = (Raise (Base (ValueError msg)), s1)
       /\ handler (ValueError msg) s1 = (Return a, s').
Proof.
  unfold try_except_ValueError.
  destruct (m s) as [[a'|[[msg|k| |c msg]|i]|] s1]; try done; eauto.
Qed.

Lemma set_incompatibilities_same (self : VersionSolver.t) :
  VersionSolver.set_incompatibilities
    (VersionSolver._incompatibilities self) self
  = self.
Proof. by destruct self. Qed.

Lemma set_solution_same (self : VersionSolver.t) :
  VersionSolver.set_solution (VersionSolver._solution self) self = self.
Proof. by destruct self. Qed.

(** The loop over the incompatibilities of the chosen package adds each
    of them, and reports a conflict when one of them is already satisfied
    by the solution, which the loop does not change. *)
Lemma add_incompatibilities_spec (d : Dependency)
    (incompatibilities : list Incompatibility) (conflict0 : bool)
    (self : VersionSolver.t) :
  VersionSolver.add_incompatibilities d incompatibilities conflict0 self
  = (Return
       (conflict0
        || existsb
             (VersionSolver.already_satisfied d
                (VersionSolver._solution self))
             incompatibilities),
     VersionSolver.set_incompatibilities
       (index_with incompatibilities (VersionSolver._incompatibilities self))
       self).
Proof.
  revert conflict0 self.
  induction incompatibilities as [|i rest IH]; intros conflict0 self.
  - simpl. unfold index_with. simpl.
    by rewrite orb_false_r, set_incompatibilities_same.
  - cbn [VersionSolver.add_incompatibilities].
    unfold VersionSolver._add_incompatibility.
    rewrite bind_modify, bind_get, IH. simpl.
    by rewrite orb_assoc.
Qed.

(** X19: Once the package is chosen, [_choose_package_version] completes it,
    adds every incompatibility that the provider gives for the completed
    package, and decides the completed package unless one of these
    incompatibilities is already satisfied: every term of it is about the
    dependency or satisfied by the solution as it was.  In that case the
    solution is left alone; in both cases the complete name of the
    dependency is returned. *)
Theorem decide_version_decides_unless_conflict (d : Dependency)
    (p p' : DependencyPackage) (incompatibilities : list Incompatibility)
    (self s1 s2 : VersionSolver.t) :
  VersionSolver.call_provider (provider_complete_package p) self
  = (Return p', s1) ->
  VersionSolver.call_provider (provider_incompatibilities_for p') s1
  = (Return incompatibilities, s2) ->
  let conflict0 :=
    existsb
      (VersionSolver.already_satisfied d (VersionSolver._solution self))
      incompatibilities in
  VersionSolver.decide_version d p self
  = (Return (Some (complete_name d)),
     VersionSolver.set_solution
       (if conflict0 then VersionSolver._solution self
        else decide_package (package p') (VersionSolver._solution self))
       (VersionSolver.set_incompatibilities
          (index_with incompatibilities
             (VersionSolver._incompatibilities self))
          s2)).
Proof.
  intros Hp Hi conflict0. unfold VersionSolver.decide_version.
  rewrite (bind_return _ _ _ _ _ Hp), (bind_return _ _ _ _ _ Hi).
  rewrite (bind_return _ _ _ _ _ (add_incompatibilities_spec _ _ _ _)).
  destruct (call_cache_keeps _ _ _ _ _ Hp) as (_ & _ & Hs1 & Hi1 & _).
  destruct (call_cache_keeps _ _ _ _ _ Hi) as (_ & _ & Hs2 & Hi2 & _).
  rewrite Hs2, Hs1, Hi2, Hi1. simpl. fold conflict0.
  destruct conflict0.
  - unfold bind, ret. do 2 f_equal.
    rewrite <- Hs1, <- Hs2. by destruct s2.
  - rewrite bind_modify. unfold ret. simpl. by rewrite Hs2, Hs1.
Qed.

Lemma decide_version_returns (d : Dependency) (p : DependencyPackage)
    (self self' : VersionSolver.t) (r : option string) :
  VersionSolver.decide_version d p self = (Return r, self') ->
  r = Some (complete_name d).
Proof.
  unfold VersionSolver.decide_version.
  intros (p' & s1 & _ & Hrest)%bind_returns.
  apply bind_returns in Hrest as (incs & s2 & _ & Hrest).
  apply bind_returns in Hrest as (c & s3 & _ & Hrest).
  apply bind_returns in Hrest as (u & s4 & _ & Hrest).
  by injection Hrest as <- _.
Qed.

Lemma min_rest_returns (rest : list Dependency) (best d : Dependency)
    (best_key : bool * Z) (self self' : VersionSolver.t) :
  VersionSolver.min_rest best best_key rest self = (Return d, self') ->
  d ∈ best :: rest.
Proof.
  revert best best_key self.
  induction rest as [|x rest IH]; intros best best_key self; simpl.
  - intros [= <- _]. by left.
  - intros (k & s1 & _ & Hrest)%bind_returns.
    destruct (VersionSolver.key_lt k best_key).
    + apply IH in Hrest.
      apply elem_of_cons in Hrest as [->|Hin];
        [right; by left|by do 2 right].
    + apply IH in Hrest.
      apply elem_of_cons in Hrest as [->|Hin]; [by left|by do 2 right].
Qed.

Lemma choose_dependency_returns (first d : Dependency)
    (rest : list Dependency) (self self' : VersionSolver.t) :
  VersionSolver.choose_dependency first rest self = (Return d, self') ->
  d ∈ first :: rest.
Proof.
  unfold VersionSolver.choose_dependency.
  destruct rest as [|x rest].
  - intros [= <- _]. by left.
  - intros (k & s1 & _ & Hrest)%bind_returns.
    by apply min_rest_returns in Hrest.
Qed.

Lemma choose_package_version_returns (self self' : VersionSolver.t)
    (r : option string) :
  VersionSolver._choose_package_version self = (Return r, self') ->
  match r with
  | None =>
      unsatisfied (VersionSolver._solution self) = [] /\ self' = self
  | Some n =>
      exists d,
        d ∈ unsatisfied (VersionSolver._solution self)
        /\ n = complete_name d
  end.
Proof.
  unfold VersionSolver._choose_package_version. rewrite bind_get.
  destruct (unsatisfied (VersionSolver._solution self)) as [|first rest]
    eqn:Hu.
  - by intros [= <- <-].
  - intros (d & s1 & Hd & Hrest)%bind_returns.
    apply choose_dependency_returns in Hd.
    apply bind_returns in Hrest as ([p|] & s2 & _ & Hrest).
    + apply decide_version_returns in Hrest as ->. eauto.
    + injection Hrest as <- _. eauto.
Qed.

(** X20: What [_choose_package_version] returns is [None] only when no
    dependency is unsatisfied, and then the solver is as it was; otherwise
    it is the complete name of one of the unsatisfied dependencies,
    whichever way the method ends: with a decision, with a conflict, with no
    version, or with a package that was not found. *)
Theorem choose_package_version_names_unsatisfied_dependency
    (self : VersionSolver.t) :
  match VersionSolver._choose_package_version self with
  | (Return None, self') =>
      unsatisfied (VersionSolver._solution self) = [] /\ self' = self
  | (Return (Some n), _) =>
      exists d,
        d ∈ unsatisfied (VersionSolver._solution self)
        /\ n = complete_name d
  | (Raise _, _) | (OutOfFuel, _) =>
      unsatisfied (VersionSolver._solution self) <> []
  end.
Proof.
  destruct (VersionSolver._choose_package_version self) as [[r|e|] s']
    eqn:Hrun.
  - by apply choose_package_version_returns in Hrun.
  - intros Hnone. by rewrite choose_package_version_none in Hrun.
  - intros Hnone. by rewrite choose_package_version_none in Hrun.
Qed.
End DecideVersion.

(** ** version_solver.py: what [solve] returns *)

Section SolveReturns.
Context `{Provider, !TermAlgebra, !PartialSolutions, !Interpreter}.

Lemma solve_loop_returns (fuel : nat) (next : option string)
    (self self' : VersionSolver.t) (result : VersionSolver.SolverResult) :
  VersionSolver.solve_loop fuel next self = (Return result, self') ->
  (next = None -> unsatisfied (VersionSolver._solution self) = []) ->
  unsatisfied (VersionSolver._solution self') = []
  /\ result = VersionSolver._result self'.
Proof.
  revert next self.
  induction fuel as [|fuel IH]; intros [next|] self; simpl.
  - done.
  - intros [= <- <-] Hnone. split; [by apply Hnone|done].
  - intros (u & s1 & _ & Hrest)%bind_returns _.
    apply bind_returns in Hrest as (next' & s2 & Hchoose & Hrest).
    apply (IH _ _ Hrest). intros ->.
    by apply choose_package_version_returns in Hchoose as [? ->].
  - intros [= <- <-] Hnone. split; [by apply Hnone|done].
Qed.

(** X21: When [solve()] returns, the solution is complete: no dependency is
    left unsatisfied.  The result holds the root that the solver was made
    for, the decisions of the solution without the root package, in the
    order in which they were made, and the number of attempted solutions. *)
Theorem solve_returns_complete_solution (fuel : nat)
    (self self' : VersionSolver.t) (result : VersionSolver.SolverResult) :
  VersionSolver.solve fuel self = (Return result, self') ->
  unsatisfied (VersionSolverProperties.solution self') = []
  /\ VersionSolver.result_root result = VersionSolver._root self
  /\ VersionSolver.result_packages result
     = List.filter (fun p => negb (Package_is_root p))
         (decisions (VersionSolverProperties.solution self'))
  /\ Forall (fun p => Package_is_root p = false)
       (VersionSolver.result_packages result)
  /\ VersionSolver.result_attempted_solutions result
     = attempted_solutions (VersionSolverProperties.solution self').
Proof.
  intros Hrun.
  assert (Hroot : VersionSolver._root self' = VersionSolver._root self).
  { eapply (preserves_solve
              (fun s => VersionSolver._root s = VersionSolver._root self));
      [done..|exact Hrun]. }
  rewrite solve_unfold in Hrun.
  apply solve_loop_returns in Hrun as [Hnone ->]; [|done].
  split; [done|]. split; [done|]. split; [done|]. split; [|done].
  simpl. apply Forall_forall. intros p Hp%list_elem_of_In.
  apply filter_In in Hp as [_ Hp]. by apply negb_true_iff in Hp.
Qed.
End SolveReturns.

(** * The further properties at work on the small world *)

Module Illustrations.
Import Example Situations.
#[local] Existing Instance versions.
#[local] Existing Instance packages.
#[local] Existing Instance term_algebra.
#[local] Existing Instance partial_solutions.
#[local] Existing Instance interpreter.
Local Open Scope nat_scope.

Ltac evaluated := vm_compute; reflexivity.
(* Runs a call: its outcome is computed, its final state is named and
   left alone. *)
Ltac ran call result :=
  let Hrun := fresh "Hrun" in
  let Hran := fresh "Hran" in
  let o := fresh "o" in
  let final := fresh "final" in
  assert (Hrun : call.1 = result) by (vm_compute; reflexivity);
  destruct call as [o final] eqn:Hran; simpl in Hrun; subst o.
Ltac listed := vm_compute; repeat constructor.
Ltac unlisted :=
  refine (bool_decide_eq_false_1 _ _); vm_compute; reflexivity.

(** The provider cannot reach the repository for foo: [search_for]
    raises its [ConnectionError], the provider has been asked once, and
    neither the cache nor the table of the decorator holds anything. *)
Lemma search_for_failure_witness :
  exists self',
    DependencyCache.search_for foo_any unreachable_cache
    = (Raise (Base (OtherError "ConnectionError" "unreachable")), self')
    /\ DependencyCache.provider self' = 1
    /\ DependencyCache.cache self' = ∅
    /\ DependencyCache.memo self' = [].
Proof.
  ran (DependencyCache.search_for foo_any unreachable_cache)
      (Raise (A := list DependencyPackage)
         (Base (OtherError "ConnectionError" "unreachable"))).
  destruct (search_for_failure_is_not_remembered _ _ _ _ Hran)
    as (_ & _ & Hprovider & Hcache & Hmemo & _).
  exists final. split; [reflexivity|].
  split; [by injection Hprovider as <-|].
  split; [exact Hcache|exact Hmemo].
Defined.

(** [search_for(foo_old)] on the new cache returns foo 1.1.0 and 1.0.0;
    made again, it returns the same and leaves the cache as it is. *)
Lemma search_for_repeated_witness :
  DependencyCache.search_for foo_old searched_old
  = (Return [candidate foo_old 110; candidate foo_old 100], searched_old).
Proof.
  unfold searched_old.
  ran (DependencyCache.search_for foo_old fresh_cache)
      (Return [candidate foo_old 110; candidate foo_old 100]).
  exact (search_for_repeated_changes_nothing foo_old fresh_cache final _
           Hran).
Defined.

(** After [clear()], the dependency on foo with the constraint of the
    root, which was never searched for, is answered by the provider:
    foo 1.2.0 is back, and the provider has been asked a second time. *)
Lemma search_for_after_clear_witness :
  exists self',
    DependencyCache.search_for foo_any cleared
    = (Return [candidate foo_any 120; candidate foo_any 110;
               candidate foo_any 100], self')
    /\ DependencyCache.provider self' = 2.
Proof.
  eexists. split.
  - apply (search_for_after_clear_asks_provider foo_any searched_new
             [candidate foo_any 120; candidate foo_any 110;
              candidate foo_any 100] 2).
    + evaluated.
    + evaluated.
  - reflexivity.
Defined.

(** "Backjump", with b 1.0.0 decided: the incompatibility of a 2.0.0,
    which needs b <1.0, is new to the index.  It is added at the end of
    the lists of a and of b, and the list of the root is as it was. *)
Lemma add_incompatibility_files_witness :
  exists self',
    VersionSolver._add_incompatibility a2_needs_b choosing_a
    = (Return tt, self')
    /\ VersionSolver._incompatibilities self' !! "a"
       = Some (default [] (VersionSolver._incompatibilities choosing_a !! "a")
               ++ [a2_needs_b])
    /\ VersionSolver._incompatibilities self' !! "b"
       = Some (default [] (VersionSolver._incompatibilities choosing_a !! "b")
               ++ [a2_needs_b])
    /\ VersionSolver._incompatibilities self' !! "root"
       = VersionSolver._incompatibilities choosing_a !! "root".
Proof.
  ran (VersionSolver._add_incompatibility a2_needs_b choosing_a)
      (Return tt).
  destruct (add_incompatibility_files_under_each_term _ _ _ Hran)
    as (Hterms & Hothers & _).
  exists final. split; [reflexivity|]. split; [|split].
  - destruct (Hterms "a") as (added & Hlist & _ & _ & Hnew); [listed|].
    rewrite Hlist, Hnew; [reflexivity|unlisted].
  - destruct (Hterms "b") as (added & Hlist & _ & _ & Hnew); [listed|].
    rewrite Hlist, Hnew; [reflexivity|unlisted].
  - apply Hothers. unlisted.
Defined.

(** "Backjump": [_resolve_conflict] on [a_needs_b] returns
    [every_a_needs_b] after one round, with the solver backjumped: the
    contradicted set and the cache are empty, the provider is as it
    was. *)
Lemma resolve_conflict_returns_witness :
  exists self' rounds,
    VersionSolver._resolve_conflict 2 a_needs_b at_conflict
    = (Return every_a_needs_b, self')
    /\ resolution_rounds rounds at_conflict a_needs_b
       = Some every_a_needs_b
    /\ VersionSolver._contradicted_incompatibilities self' = []
    /\ DependencyCache.cache (VersionSolver._dependency_cache self') = ∅
    /\ surroundings self' = surroundings at_conflict.
Proof.
  ran (VersionSolver._resolve_conflict 2 a_needs_b at_conflict)
      (Return every_a_needs_b).
  destruct (resolve_conflict_returns_only_after_backjump _ _ _ _ _ Hran)
    as (rounds & recent & Hrounds & _ & _ & _ & _ & _ & _ & Hcontradicted
        & Hcache & Hsurroundings & _).
  exists final, rounds. split; [reflexivity|]. split; [exact Hrounds|].
  split; [exact Hcontradicted|]. split; [exact Hcache|exact Hsurroundings].
Defined.

(** A new solver has no incompatibility for "nobody". *)
Lemma propagate_unknown_package_witness :
  VersionSolver._propagate 1 "nobody" (solver trivial [] None None)
  = (Raise (Base (KeyError "nobody")), solver trivial [] None None).
Proof.
  apply propagate_unknown_package_raises_KeyError. evaluated.
Defined.

(** The only incompatibility of c is marked contradicted. *)
Lemma propagate_all_contradicted_witness :
  VersionSolver._propagate 1 "c" contradicted_c = (Return tt, contradicted_c).
Proof.
  apply (propagate_skips_contradicted 0 "c" contradicted_c [not_c]).
  - evaluated.
  - constructor; [listed|constructor].
Defined.

(** "Trivial": foo 1.2.0 declares nothing, and is decided.  "Backjump":
    with b 1.0.0 decided, a 2.0.0 needs b <1.0: its incompatibility is
    added under a, and a 2.0.0 is not decided. *)
Lemma decide_version_witness :
  (exists self',
      VersionSolver.decide_version foo_any (candidate foo_any 120)
        (choosing trivial [] None None)
      = (Return (Some "foo"), self')
      /\ decisions (VersionSolver._solution self')
         = [root_package; pkg "foo" 120])
  /\ (exists self',
        VersionSolver.decide_version a_any (candidate a_any 200) choosing_a
        = (Return (Some "a"), self')
        /\ decisions (VersionSolver._solution self')
           = [root_package; pkg "b" 100]
        /\ VersionSolver._solution self' = VersionSolver._solution choosing_a
        /\ a2_needs_b
           ∈ default [] (VersionSolver._incompatibilities self' !! "a")).
Proof.
  split.
  - ran (VersionSolver.call_provider
           (provider_complete_package (candidate foo_any 120))
           (choosing trivial [] None None))
        (Return (candidate foo_any 120)).
    ran (VersionSolver.call_provider
           (provider_incompatibilities_for (candidate foo_any 120)) final)
        (Return (A := list Incompatibility) []).
    eexists. split.
    + exact (decide_version_decides_unless_conflict foo_any _ _ _ _ _ _
               Hran Hran0).
    + evaluated.
  - ran (VersionSolver.call_provider
           (provider_complete_package (candidate a_any 200)) choosing_a)
        (Return (candidate a_any 200)).
    ran (VersionSolver.call_provider
           (provider_incompatibilities_for (candidate a_any 200)) final)
        (Return [a2_needs_b]).
    eexists. split.
    + exact (decide_version_decides_unless_conflict a_any _ _ _ _ _ _
               Hran Hran0).
    + split; [evaluated|]. split; [evaluated|]. listed.
Defined.

(** "Trivial": [solve()] returns foo 1.2.0, and the solution it leaves
    has no unsatisfied dependency. *)
Lemma solve_returns_witness :
  exists self',
    VersionSolver.solve 20 (solver trivial [] None None)
    = (Return trivial_result, self')
    /\ unsatisfied (VersionSolverProperties.solution self') = []
    /\ List.filter (fun p => negb (Package_is_root p))
         (decisions (VersionSolverProperties.solution self'))
       = [pkg "foo" 120].
Proof.
  ran (VersionSolver.solve 20 (solver trivial [] None None))
      (Return trivial_result).
  destruct (solve_returns_complete_solution _ _ _ _ Hran)
    as (Hnone & _ & Hpackages & _).
  exists final. split; [reflexivity|]. split; [exact Hnone|].
  symmetry. exact Hpackages.
Defined.
End Illustrations.
